(** * RF Spectrum Observatory: spectral feature pipeline and tile aggregator

    A shallow embedding of the core of the repository:
    - [src/geo/tiling.py]                  (module [Tiling]),
    - [src/geo/aggregate.py]               (module [Aggregate]),
    - [src/dsp/windows.py], [src/dsp/fft_psd.py], [src/dsp/smoothing.py],
      [src/dsp/features.py], [src/dsp/pipeline.py]
                                           (modules [DSP], [EMAFilterRef]),
    - [src/common/timebase.py]             (module [Timebase]),
    - [src/common/config.py]               (module [Configuration]),
    and of what is built around it:
    - [welch_psd] of [src/dsp/smoothing.py] (module [Welch]),
    - [src/geo/geometry.py]                (module [Geometry]),
    - [src/perf/ring_buffer.py]            (module [RingBuffer]),
    - [src/perf/metrics.py]                (module [PerformanceMonitor]),
    - [src/ui/spectrogram.py]              (module [WaterfallBuffer]),
    - the frame loop of the main page      (module [FrameLoop]).

    Numbers.  The Python code computes on IEEE-754 numbers.  The geospatial
    code only uses [+ - * /], comparisons, [int()] and [ceil], so it is written
    once over an interface [Arith] and read twice: over [float] (binary64, what
    the interpreter executes; it evaluates) and over [R] (exact arithmetic,
    for the general statements).  The signal-processing code needs [log10],
    powers and trigonometry and is read over [R]; where the rounding of its
    single-precision arrays decides, the functions concerned are read on
    singles as well (module [Single]).

    Module [Spec] words the noise floor and the occupancy as the
    specification does, for the comparison with the code.

    Exceptions.  A Python function that can raise returns a [result]; a method
    of a mutable object that can raise returns the [result] together with the
    object after the call, since an exception does not roll the object back. *)

From Stdlib Require Import ZArith List Ascii Reals Lra Lia Bool.
From Stdlib Require Import Floats.
From Stdlib Require Import Sorted.
From stdpp Require Import base option list gmap strings pretty.

Local Open Scope string_scope.

(** ** Exceptions *)

Inductive exn : Type :=
| ValueError
| KeyError
| ZeroDivisionError.

Inductive result (A : Type) : Type :=
| Ok (a : A)
| Raise (e : exn).
Arguments Ok {A} a.
Arguments Raise {A} e.

#[export] Instance result_ret : MRet result := fun A a => Ok a.

#[export] Instance result_bind : MBind result := fun A B k r =>
  match r with
  | Ok a => k a
  | Raise e => Raise e
  end.

Definition is_ok {A : Type} (r : result A) : bool :=
  match r with Ok _ => true | Raise _ => false end.

(** ** The arithmetic the geospatial code uses *)

Class Arith (F : Type) : Type := {
  Fadd : F -> F -> F;
  Fsub : F -> F -> F;
  Fmul : F -> F -> F;
  Fdiv : F -> F -> F;
  Fleb : F -> F -> bool;          (* x <= y *)
  Feqb : F -> F -> bool;          (* x == y *)
  of_int : Z -> F;                (* int -> float conversion *)
  trunc : F -> Z;                 (* int(x): rounds toward zero *)
  ceil : F -> Z                   (* int(np.ceil(x)) *)
}.

Declare Scope arith_scope.
Delimit Scope arith_scope with ar.
Infix "+" := Fadd : arith_scope.
Infix "-" := Fsub : arith_scope.
Infix "*" := Fmul : arith_scope.
Infix "/" := Fdiv : arith_scope.
Infix "<=?" := Fleb : arith_scope.

(** *** Binary64 *)

Module Binary64.

(** The integer part of a finite double, read off its mantissa and
    exponent.  [int()] raises on infinities and NaN; those are outside the
    data model (coordinates and sizes are finite) and yield [0] here. *)
Definition magnitude (m : positive) (e : Z) : Z :=
  if (0 <=? e)%Z then Z.shiftl (Zpos m) e else Z.shiftr (Zpos m) (- e).

Definition has_fraction (m : positive) (e : Z) : bool :=
  if (0 <=? e)%Z then false
  else negb (Z.shiftl (Z.shiftr (Zpos m) (- e)) (- e) =? Zpos m)%Z.

Definition trunc (x : float) : Z :=
  match Prim2SF x with
  | S754_finite s m e => if s then (- magnitude m e)%Z else magnitude m e
  | _ => 0%Z
  end.

Definition ceil (x : float) : Z :=
  match Prim2SF x with
  | S754_finite s m e =>
      if s then (- magnitude m e)%Z
      else if has_fraction m e then (magnitude m e + 1)%Z else magnitude m e
  | _ => 0%Z
  end.

(** Exact below [2^53], correctly rounded below [2^63]. *)
Definition of_int (z : Z) : float :=
  if (z <? 0)%Z then PrimFloat.opp (PrimFloat.of_uint63 (Uint63.of_Z (- z)))
  else PrimFloat.of_uint63 (Uint63.of_Z z).

End Binary64.

#[export] Instance float_arith : Arith float := {|
  Fadd := PrimFloat.add;
  Fsub := PrimFloat.sub;
  Fmul := PrimFloat.mul;
  Fdiv := PrimFloat.div;
  Fleb := PrimFloat.leb;
  Feqb := PrimFloat.eqb;
  of_int := Binary64.of_int;
  trunc := Binary64.trunc;
  ceil := Binary64.ceil
|}.

(** *** Exact reals *)

Module Exact.

Definition leb (x y : R) : bool := if Rle_dec x y then true else false.
Definition ltb (x y : R) : bool := if Rlt_dec x y then true else false.
Definition eqb (x y : R) : bool := if Req_dec_T x y then true else false.

Definition trunc (x : R) : Z :=
  if Rle_dec 0 x then Zfloor x else Zceil x.

End Exact.

#[export] Instance real_arith : Arith R := {|
  Fadd := Rplus;
  Fsub := Rminus;
  Fmul := Rmult;
  Fdiv := Rdiv;
  Fleb := Exact.leb;
  Feqb := Exact.eqb;
  of_int := IZR;
  trunc := Exact.trunc;
  ceil := Zceil
|}.

(** ** Predicates on names *)

(** The character [c] does not occur in [s]. *)
Fixpoint free_of (c : ascii) (s : string) : Prop :=
  match s with
  | EmptyString => True
  | String c' s' => c' <> c /\ free_of c s'
  end.

(** A column name that is not a band column. *)
Definition plain (k : string) : Prop :=
  match k with
  | String c _ => c <> "b"%char /\ c <> "o"%char
  | EmptyString => True
  end.

(** ** Feature records handed from the pipeline to the aggregator
    ([FrameFeatures] of [src/common/types.py]) *)

Record FrameFeatures (F : Type) : Type := mkFrameFeatures {
  frame_id : Z;
  timestamp_ns : Z;
  lat_deg : option F;
  lon_deg : option F;
  freq_bins_hz : list F;
  psd_db : list F;
  psd_smoothed_db : list F;
  noise_floor_db : F;
  bandpower_db : list F;
  occupancy_pct : list F;
  anomaly_score : option F
}.
Arguments mkFrameFeatures {F}.
Arguments frame_id {F}.
Arguments timestamp_ns {F}.
Arguments lat_deg {F}.
Arguments lon_deg {F}.
Arguments freq_bins_hz {F}.
Arguments psd_db {F}.
Arguments psd_smoothed_db {F}.
Arguments noise_floor_db {F}.
Arguments bandpower_db {F}.
Arguments occupancy_pct {F}.
Arguments anomaly_score {F}.

(** ** [src/geo/tiling.py] *)

Module Tiling.
Section WithArith.
Context {F : Type} `{Arith F}.

Record Tile : Type := mkTile {
  tile_id : string;
  tile_x : Z;
  tile_y : Z;
  lat_min : F;
  lat_max : F;
  lon_min : F;
  lon_max : F
}.

(** [Tile.contains] *)
Definition contains (t : Tile) (lat lon : F) : bool :=
  (lat_min t <=? lat)%ar && (lat <=? lat_max t)%ar &&
  (lon_min t <=? lon)%ar && (lon <=? lon_max t)%ar.

Record TileGrid : Type := mkTileGrid {
  center_lat : F;
  center_lon : F;
  tile_size_meters : F;
  grid_extent_meters : F;
  lat_deg_per_m : F;
  lon_deg_per_m : F;
  grid_lat_min : F;
  grid_lat_max : F;
  grid_lon_min : F;
  grid_lon_max : F;
  tile_size_lat : F;
  tile_size_lon : F;
  num_tiles_x : Z;
  num_tiles_y : Z;
  tiles : list Tile;
  tile_lookup : gmap string Tile
}.

(** [f"tile_x{ix}_y{iy}"] *)
Definition format_tile_id (ix iy : Z) : string :=
  "tile_x" +:+ pretty ix +:+ "_y" +:+ pretty iy.

(** [range(n)] *)
Definition range (n : Z) : list Z := map Z.of_nat (seq 0 (Z.to_nat n)).

(** [TileGrid._generate_tiles], on the fields it reads. *)
Definition _generate_tiles (lon_min0 lat_min0 size_lon size_lat : F)
    (nx ny : Z) : list Tile :=
  ix ← range nx;
  iy ← range ny;
  let tile_lon_min := (lon_min0 + of_int ix * size_lon)%ar in
  let tile_lon_max := (tile_lon_min + size_lon)%ar in
  let tile_lat_min := (lat_min0 + of_int iy * size_lat)%ar in
  let tile_lat_max := (tile_lat_min + size_lat)%ar in
  [ {| tile_id := format_tile_id ix iy;
       tile_x := ix;
       tile_y := iy;
       lat_min := tile_lat_min;
       lat_max := tile_lat_max;
       lon_min := tile_lon_min;
       lon_max := tile_lon_max |} ].

(** [{t.tile_id: t for t in self.tiles}]: a later tile overwrites an
    earlier one with the same id. *)
Definition build_lookup (ts : list Tile) : gmap string Tile :=
  foldl (fun m t => <[tile_id t := t]> m) ∅ ts.

(** [TileGrid.__init__].  [cos_lat] is the value of
    [np.cos(np.radians(center_lat))], a library call; [/] on the two Python
    numbers [grid_extent_meters] and [tile_size_meters] raises on a zero
    divisor. *)
Definition TileGrid_init (cos_lat center_lat0 center_lon0
    tile_size_meters0 grid_extent_meters0 : F) : result TileGrid :=
  let lat_deg_per_m0 := (of_int 1 / of_int 111000)%ar in
  let lon_deg_per_m0 := (of_int 1 / (of_int 88000 * cos_lat))%ar in
  let half_extent_lat := ((grid_extent_meters0 / of_int 2) * lat_deg_per_m0)%ar in
  let half_extent_lon := ((grid_extent_meters0 / of_int 2) * lon_deg_per_m0)%ar in
  let lat_min0 := (center_lat0 - half_extent_lat)%ar in
  let lat_max0 := (center_lat0 + half_extent_lat)%ar in
  let lon_min0 := (center_lon0 - half_extent_lon)%ar in
  let lon_max0 := (center_lon0 + half_extent_lon)%ar in
  let tile_size_lat0 := (tile_size_meters0 * lat_deg_per_m0)%ar in
  let tile_size_lon0 := (tile_size_meters0 * lon_deg_per_m0)%ar in
  if Feqb tile_size_meters0 (of_int 0) then Raise ZeroDivisionError
  else
    let nx := ceil (grid_extent_meters0 / tile_size_meters0)%ar in
    let ny := ceil (grid_extent_meters0 / tile_size_meters0)%ar in
    let ts := _generate_tiles lon_min0 lat_min0 tile_size_lon0 tile_size_lat0 nx ny in
    Ok {| center_lat := center_lat0;
          center_lon := center_lon0;
          tile_size_meters := tile_size_meters0;
          grid_extent_meters := grid_extent_meters0;
          lat_deg_per_m := lat_deg_per_m0;
          lon_deg_per_m := lon_deg_per_m0;
          grid_lat_min := lat_min0;
          grid_lat_max := lat_max0;
          grid_lon_min := lon_min0;
          grid_lon_max := lon_max0;
          tile_size_lat := tile_size_lat0;
          tile_size_lon := tile_size_lon0;
          num_tiles_x := nx;
          num_tiles_y := ny;
          tiles := ts;
          tile_lookup := build_lookup ts |}.

Definition out_of_bounds : Z * Z * string := ((-1)%Z, (-1)%Z, "out_of_bounds").

(** [self.lat_min <= lat <= self.lat_max and self.lon_min <= lon <= self.lon_max] *)
Definition in_grid_bounds (g : TileGrid) (lat lon : F) : bool :=
  (grid_lat_min g <=? lat)%ar && (lat <=? grid_lat_max g)%ar &&
  (grid_lon_min g <=? lon)%ar && (lon <=? grid_lon_max g)%ar.

(** [TileGrid.get_tile] *)
Definition get_tile (g : TileGrid) (lat lon : F) : Z * Z * string :=
  if negb (in_grid_bounds g lat lon)
  then out_of_bounds
  else
    let ix := trunc ((lon - grid_lon_min g) / tile_size_lon g)%ar in
    let iy := trunc ((lat - grid_lat_min g) / tile_size_lat g)%ar in
    let ix := Z.max 0 (Z.min ix (num_tiles_x g - 1)) in
    let iy := Z.max 0 (Z.min iy (num_tiles_y g - 1)) in
    (ix, iy, format_tile_id ix iy).

(** [TileGrid.get_tile_center] *)
Definition get_tile_center (g : TileGrid) (id : string) : result (F * F) :=
  match tile_lookup g !! id with
  | None => Raise ValueError
  | Some tile =>
      Ok (((lat_min tile + lat_max tile) / of_int 2)%ar,
          ((lon_min tile + lon_max tile) / of_int 2)%ar)
  end.

(** The midpoint of a tile's bounds, as [get_tile_center] computes it. *)
Definition midpoint (t : Tile) : F * F :=
  (((lat_min t + lat_max t) / of_int 2)%ar,
   ((lon_min t + lon_max t) / of_int 2)%ar).

(** The tile [_generate_tiles] builds at indices [(ix, iy)]. *)
Definition tile_at (lon_min0 lat_min0 size_lon size_lat : F) (ix iy : Z)
    : Tile :=
  {| tile_id := format_tile_id ix iy;
     tile_x := ix;
     tile_y := iy;
     lat_min := (lat_min0 + of_int iy * size_lat)%ar;
     lat_max := (lat_min0 + of_int iy * size_lat + size_lat)%ar;
     lon_min := (lon_min0 + of_int ix * size_lon)%ar;
     lon_max := (lon_min0 + of_int ix * size_lon + size_lon)%ar |}.

(** What [TileGrid_init] establishes. *)
Definition well_formed (g : TileGrid) : Prop :=
  tiles g = _generate_tiles (grid_lon_min g) (grid_lat_min g)
              (tile_size_lon g) (tile_size_lat g)
              (num_tiles_x g) (num_tiles_y g)
  /\ tile_lookup g = build_lookup (tiles g).

End WithArith.
Arguments Tile F : clear implicits.
Arguments TileGrid F : clear implicits.
End Tiling.

(** ** [src/geo/aggregate.py] *)

Module Aggregate.
Import Tiling.
Section WithArith.
Context {F : Type} `{Arith F}.

(** [TileMetrics] of [src/common/types.py] *)
Record TileMetrics : Type := mkTileMetrics {
  tm_tile_id : string;
  tm_tile_x : Z;
  tm_tile_y : Z;
  tm_lat_min : F;
  tm_lat_max : F;
  tm_lon_min : F;
  tm_lon_max : F;
  frame_count : Z;
  timestamp_min_ns : Z;
  timestamp_max_ns : Z;
  bandpower_mean_db : list F;
  bandpower_max_db : list F;
  occupancy_mean_pct : list F;
  anomaly_score_max : option F
}.

(** *** Rows: the [Dict[str, Any]] of the frame buffer *)

Inductive cell : Type :=
| CInt (z : Z)
| CFloat (x : F)
| CStr (s : string).

Definition get_int (r : gmap string cell) (c : string) : option Z :=
  match r !! c with Some (CInt z) => Some z | _ => None end.

Definition get_float (r : gmap string cell) (c : string) : option F :=
  match r !! c with
  | Some (CFloat x) => Some x
  | Some (CInt z) => Some (of_int z)
  | _ => None
  end.

Definition get_str (r : gmap string cell) (c : string) : option string :=
  match r !! c with Some (CStr s) => Some s | _ => None end.

(** [f'bandpower_db_{i}'] and [f'occupancy_pct_{i}'] *)
Definition bandpower_key (i : Z) : string := "bandpower_db_" +:+ pretty i.
Definition occupancy_key (i : Z) : string := "occupancy_pct_" +:+ pretty i.

Record TileAggregator : Type := mkTileAggregator {
  tile_grid : TileGrid F;
  aggregate_window_frames : Z;
  num_bands : Z;
  frame_buffer : list (gmap string cell)
}.

Definition set_frame_buffer (a : TileAggregator)
    (b : list (gmap string cell)) : TileAggregator :=
  {| tile_grid := tile_grid a;
     aggregate_window_frames := aggregate_window_frames a;
     num_bands := num_bands a;
     frame_buffer := b |}.

(** [TileAggregator.__init__] *)
Definition TileAggregator_init (g : TileGrid F) (window : Z) (n : Z)
    : TileAggregator :=
  {| tile_grid := g;
     aggregate_window_frames := window;
     num_bands := n;
     frame_buffer := [] |}.

(** [enumerate(zip(bp, occ))]: [zip] stops at the shorter list. *)
Definition enumerate {A : Type} (l : list A) : list (Z * A) :=
  zip (map Z.of_nat (seq 0 (length l))) l.

Definition add_band (r : gmap string cell) (e : Z * (F * F))
    : gmap string cell :=
  <[occupancy_key e.1 := CFloat e.2.2]>
    (<[bandpower_key e.1 := CFloat e.2.1]> r).

(** The row [add_frame] builds for a located frame. *)
Definition make_row (features : FrameFeatures F) (lat lon : F)
    (tx ty : Z) (tid : string) : gmap string cell :=
  let row : gmap string cell :=
    <["noise_floor_db" := CFloat (noise_floor_db features)]>
    (<["tile_y" := CInt ty]>
    (<["tile_x" := CInt tx]>
    (<["tile_id" := CStr tid]>
    (<["lon_deg" := CFloat lon]>
    (<["lat_deg" := CFloat lat]>
    (<["timestamp_ns" := CInt (timestamp_ns features)]>
    (<["frame_id" := CInt (frame_id features)]> ∅))))))) in
  let row :=
    foldl add_band row
      (enumerate (zip (bandpower_db features) (occupancy_pct features))) in
  match anomaly_score features with
  | Some s => <["anomaly_score" := CFloat s]> row
  | None => row
  end.

(** [TileAggregator.add_frame] *)
Definition add_frame (a : TileAggregator) (features : FrameFeatures F)
    : TileAggregator :=
  match lat_deg features, lon_deg features with
  | Some lat, Some lon =>
      let '(tx, ty, tid) := get_tile (tile_grid a) lat lon in
      if String.eqb tid "out_of_bounds" then a
      else set_frame_buffer a
             (frame_buffer a ++ [make_row features lat lon tx ty tid])
  | _, _ => a
  end.

(** [TileAggregator.should_aggregate] *)
Definition should_aggregate (a : TileAggregator) : bool :=
  (aggregate_window_frames a <=? Z.of_nat (length (frame_buffer a)))%Z.

(** *** The data-frame operations [aggregate] relies on

    [cudf.DataFrame(rows)] has the union of the rows' keys as columns, a
    missing key being a null cell; [groupby(c)] and [agg] raise [KeyError]
    on a column the frame does not have; null cells are skipped by every
    aggregation; an aggregation over no cell at all is NaN, and [int(NaN)]
    raises [ValueError]. *)

Definition columns (df : list (gmap string cell)) : gset string :=
  ⋃ (dom <$> df).

Definition has_column (df : list (gmap string cell)) (c : string) : bool :=
  bool_decide (c ∈ columns df).

Definition nan : F := (of_int 0 / of_int 0)%ar.

Definition agg_count (g : list (gmap string cell)) (c : string) : Z :=
  Z.of_nat (length (omap (fun r => r !! c) g)).

Definition agg_first_int (g : list (gmap string cell)) (c : string)
    : option Z :=
  head (omap (fun r => get_int r c) g).

Definition fold1 {A : Type} (f : A -> A -> A) (l : list A) : option A :=
  match l with
  | [] => None
  | x :: l' => Some (foldl f x l')
  end.

Definition agg_min_int (g : list (gmap string cell)) (c : string)
    : option Z :=
  fold1 Z.min (omap (fun r => get_int r c) g).

Definition agg_max_int (g : list (gmap string cell)) (c : string)
    : option Z :=
  fold1 Z.max (omap (fun r => get_int r c) g).

Definition Fmax (x y : F) : F := if (x <=? y)%ar then y else x.

Definition agg_max (g : list (gmap string cell)) (c : string) : F :=
  default nan (fold1 Fmax (omap (fun r => get_float r c) g)).

Definition agg_mean (g : list (gmap string cell)) (c : string) : F :=
  let xs := omap (fun r => get_float r c) g in
  (foldl Fadd (of_int 0) xs / of_int (Z.of_nat (length xs)))%ar.

(** [int(x)] of an aggregated cell *)
Definition to_int (x : option Z) : result Z :=
  match x with Some z => Ok z | None => Raise ValueError end.

(** [int(row.get(c))] for a timestamp.  The rows [iterrows()] yields hold
    every aggregated column as a float, the common type of the columns; a
    timestamp in nanoseconds since the epoch is beyond the integers a float
    holds exactly, so it comes back rounded. *)
Definition to_int_from_float (x : option Z) : result Z :=
  match x with Some z => Ok (trunc (of_int z)) | None => Raise ValueError end.

(** The group keys of [groupby('tile_id')]: the tile ids present, each
    once.  The source leaves their order to the library. *)
Definition group_keys (df : list (gmap string cell)) : list string :=
  remove_dups (omap (fun r => get_str r "tile_id") df).

Definition group (df : list (gmap string cell)) (k : string)
    : list (gmap string cell) :=
  filter (fun r => get_str r "tile_id" = Some k) df.

(** The columns named in [agg_dict]. *)
Definition agg_columns (n : Z) (df : list (gmap string cell)) : list string :=
  ["frame_id"; "timestamp_ns"; "tile_x"; "tile_y"]
  ++ (i ← range n; [bandpower_key i; occupancy_key i])
  ++ (if has_column df "anomaly_score" then ["anomaly_score"] else []).

(** One iteration of the loop over the aggregated rows: [None] is the
    [continue] for an id the grid does not know. *)
Definition summarise (a : TileAggregator) (df : list (gmap string cell))
    (k : string) : result (option TileMetrics) :=
  match tile_lookup (tile_grid a) !! k with
  | None => Ok None
  | Some tile =>
      let g := group df k in
      let bandpower_mean := map (fun i => agg_mean g (bandpower_key i)) (range (num_bands a)) in
      let bandpower_max := map (fun i => agg_max g (bandpower_key i)) (range (num_bands a)) in
      let occupancy_mean := map (fun i => agg_mean g (occupancy_key i)) (range (num_bands a)) in
      let anomaly :=
        if has_column df "anomaly_score"
        then Some (agg_max g "anomaly_score") else None in
      tx ← to_int (agg_first_int g "tile_x");
      ty ← to_int (agg_first_int g "tile_y");
      tmin ← to_int_from_float (agg_min_int g "timestamp_ns");
      tmax ← to_int_from_float (agg_max_int g "timestamp_ns");
      Ok (Some {| tm_tile_id := k;
                  tm_tile_x := tx;
                  tm_tile_y := ty;
                  tm_lat_min := lat_min tile;
                  tm_lat_max := lat_max tile;
                  tm_lon_min := lon_min tile;
                  tm_lon_max := lon_max tile;
                  frame_count := agg_count g "frame_id";
                  timestamp_min_ns := tmin;
                  timestamp_max_ns := tmax;
                  bandpower_mean_db := bandpower_mean;
                  bandpower_max_db := bandpower_max;
                  occupancy_mean_pct := occupancy_mean;
                  anomaly_score_max := anomaly |})
  end.

(** [TileAggregator.aggregate]: the value returned or the exception
    raised, and the aggregator after the call. *)
Definition aggregate (a : TileAggregator)
    : result (list TileMetrics) * TileAggregator :=
  let df := frame_buffer a in
  if (length df =? 0)%nat then (Ok [], a)
  else if negb (has_column df "tile_id") then (Raise KeyError, a)
  else if negb (forallb (has_column df) (agg_columns (num_bands a) df))
  then (Raise KeyError, a)
  else
    match mapM (summarise a df) (group_keys df) with
    | Raise e => (Raise e, a)
    | Ok ms => (Ok (omap (fun m => m) ms), set_frame_buffer a [])
    end.

(** [TileAggregator.flush] *)
Definition flush (a : TileAggregator)
    : result (list TileMetrics) * TileAggregator :=
  aggregate a.

(** The columns every aggregation reads are present in the row, with the
    type [add_frame] gave them. *)
Definition row_ok (n : Z) (r : gmap string cell) : Prop :=
  is_Some (get_int r "frame_id")
  /\ is_Some (get_int r "timestamp_ns")
  /\ is_Some (get_int r "tile_x")
  /\ is_Some (get_int r "tile_y")
  /\ is_Some (get_str r "tile_id")
  /\ forall i, (0 <= i < n)%Z ->
       is_Some (r !! bandpower_key i) /\ is_Some (r !! occupancy_key i).

(** A record that honours the data-model invariant for [n] bands. *)
Definition valid_record (n : Z) (f : FrameFeatures F) : Prop :=
  Z.of_nat (length (bandpower_db f)) = n
  /\ Z.of_nat (length (occupancy_pct f)) = n.

(** The states of an aggregator in use: built by the constructor, fed
    records that honour the band count, aggregated and flushed in any
    order. *)
Inductive reachable (g : TileGrid F) (window n : Z) : TileAggregator -> Prop :=
| reach_init :
    reachable g window n (TileAggregator_init g window n)
| reach_add_frame (a : TileAggregator) (f : FrameFeatures F) :
    reachable g window n a -> valid_record n f ->
    reachable g window n (add_frame a f)
| reach_aggregate (a : TileAggregator) :
    reachable g window n a -> reachable g window n (aggregate a).2
| reach_flush (a : TileAggregator) :
    reachable g window n a -> reachable g window n (flush a).2.

End WithArith.
Arguments TileMetrics F : clear implicits.
Arguments TileAggregator F : clear implicits.
Arguments cell F : clear implicits.
Arguments reachable {F} {_} g window n _.
End Aggregate.

(** ** Signal processing, over exact reals *)

Local Open Scope R_scope.
Local Open Scope list_scope.

(** [Band] and [GPSFix] of [src/common/types.py] *)
Module Band.
Record t : Type := mk { name : string; start_hz : R; end_hz : R }.
End Band.

Module GPSFix.
Record t : Type := mk {
  gps_timestamp_ns : Z;
  lat_deg : R;
  lon_deg : R;
  alt_m : option R;
  heading_deg : option R;
  speed_mps : option R
}.
End GPSFix.

Module DSP.

(** *** Arrays *)

(** Element-wise binary operation under the broadcasting rule for two
    one-dimensional arrays: equal lengths pair up, a length-1 array is
    stretched, anything else raises [ValueError]. *)
Definition broadcast {A B C : Type} (f : A -> B -> C)
    (xs : list A) (ys : list B) : result (list C) :=
  if (length xs =? length ys)%nat then Ok (zip_with f xs ys)
  else match xs, ys with
       | [x], _ => Ok (map (f x) ys)
       | _, [y] => Ok (map (fun x => f x y) xs)
       | _, _ => Raise ValueError
       end.

Definition Rsum (xs : list R) : R := foldr Rplus 0 xs.

(** Complex samples as pairs. *)
Definition C : Type := R * R.
Definition Cadd (a b : C) : C := (a.1 + b.1, a.2 + b.2).
Definition Cmul (a b : C) : C :=
  (a.1 * b.1 - a.2 * b.2, a.1 * b.2 + a.2 * b.1).
Definition Cscale (a : C) (w : R) : C := (a.1 * w, a.2 * w).
Definition Cabs (a : C) : R := R_sqrt.sqrt (a.1 * a.1 + a.2 * a.2).
Definition Csum (xs : list C) : C := foldr Cadd (0, 0) xs.

Definition log10 (x : R) : R := ln x / ln 10.

(** *** [src/dsp/windows.py] *)

(** The generalised cosine window of the signal library, periodic form
    ([sym=False]): [sum_k a_k cos(k (-pi + 2 pi j / M))] for [j < M], and
    all ones for [M <= 1].  In exact arithmetic: on doubles a sum of
    coefficients such as [0.42 - 0.5 + 0.08] need not be 0. *)
Definition general_cosine (M : nat) (a : list R) : list R :=
  if (M <=? 1)%nat then repeat 1 M
  else map (fun j =>
              let fac := - PI + 2 * PI * INR j / INR M in
              Rsum (map (fun ka => ka.2 * cos (INR ka.1 * fac))
                        (zip (seq 0 (length a)) a)))
           (seq 0 M).

Definition hann (size : nat) : list R := general_cosine size [0.5; 0.5].
Definition hamming (size : nat) : list R := general_cosine size [0.54; 0.46].
Definition blackman (size : nat) : list R :=
  general_cosine size [0.42; 0.50; 0.08].

(** [get_window] *)
Definition get_window (window_type : string) (size : nat)
    : result (list R) :=
  if String.eqb window_type "hann" then Ok (hann size)
  else if String.eqb window_type "hamming" then Ok (hamming size)
  else if String.eqb window_type "blackman" then Ok (blackman size)
  else Raise ValueError.

(** [apply_window] *)
Definition apply_window (signal : list C) (window : list R)
    : result (list C) :=
  broadcast Cscale signal window.

(** *** [src/dsp/fft_psd.py] *)

(** [IQFrame] of [src/common/types.py] *)
Record IQFrame : Type := mkIQFrame {
  iq_frame_id : Z;
  iq_timestamp_ns : Z;
  center_freq_hz : R;
  sample_rate_sps : R;
  gain_db : option R;
  iq : list C
}.

(** The discrete Fourier transform
    [X[k] = sum_n x[n] exp(-2 pi i k n / N)]. *)
Definition dft (x : list C) : list C :=
  let N := length x in
  map (fun k =>
         Csum (map (fun nx =>
                      let theta := - (2 * PI * INR k * INR nx.1 / INR N) in
                      Cmul nx.2 (cos theta, sin theta))
                   (zip (seq 0 N) x)))
      (seq 0 N).

(** [compute_fft]: the library refuses an empty array. *)
Definition compute_fft (signal : list C) : result (list C) :=
  match signal with
  | [] => Raise ValueError
  | _ => Ok (dft signal)
  end.

(** [fft.fftfreq(n, d)]: the integers [0 .. (n-1)//2] then
    [-(n//2) .. -1], each divided by [n * d]. *)
Definition fftfreq_indices (n : nat) : list Z :=
  let n := Z.of_nat n in
  map Z.of_nat (seq 0 (Z.to_nat ((n - 1) / 2 + 1)))
  ++ map (fun j => (Z.of_nat j - n / 2)%Z) (seq 0 (Z.to_nat (n / 2))).

Definition fftfreq (n : nat) (d : R) : list R :=
  map (fun k => IZR k / (INR n * d)) (fftfreq_indices n).

(** [fft.fftshift]: rotate right by [n // 2]. *)
Definition fftshift {A : Type} (x : list A) : list A :=
  let n := length x in
  let shift := (n / 2)%nat in
  drop (n - shift) x ++ take (n - shift) x.

(** [compute_psd].  [1.0 / sample_rate_sps] divides two Python numbers and
    raises on zero.  The code rounds the frequency bins to single precision
    ([astype(float32)]); they are kept exact here, and the statements that
    depend on it quantify over the cast. *)
Definition compute_psd (fft_result : list C) (sample_rate_sps0 : R)
    (window_power_correction : R) : result (list R * list R) :=
  let N := length fft_result in
  let power := map (fun z => Cabs z ^ 2) fft_result in
  let psd_linear :=
    map (fun p => p / (INR N * sample_rate_sps0 * window_power_correction))
        power in
  if Exact.eqb sample_rate_sps0 0 then Raise ZeroDivisionError
  else
    let freq_bins := fftfreq N (1 / sample_rate_sps0) in
    let psd_linear := fftshift psd_linear in
    let freq_bins := fftshift freq_bins in
    Ok (freq_bins, psd_linear).

(** [linear_to_db], in exact arithmetic; [Single.linear_to_db] below reads
    it on singles. *)
Definition linear_to_db (linear : list R) (floor_db : R) : list R :=
  let floor_linear := Rpower 10 (floor_db / 10) in
  let linear_clipped := map (fun x => Rmax x floor_linear) linear in
  map (fun x => 10 * log10 x) linear_clipped.

Definition default_floor_db : R := -120.

(** [compute_fft_psd] *)
Definition compute_fft_psd (frame : IQFrame) (window : list R)
    (window_power_correction : R) : result (list R * list R * list R) :=
  windowed ← broadcast Cscale (iq frame) window;
  fft_result ← compute_fft windowed;
  '(freq_bins, psd_linear) ←
    compute_psd fft_result (sample_rate_sps frame) window_power_correction;
  let psd_db := linear_to_db psd_linear default_floor_db in
  Ok (freq_bins, psd_db, psd_linear).

(** *** [src/dsp/smoothing.py] *)

Record EMAFilter : Type := mkEMAFilter {
  alpha : R;
  size : nat;
  _state : option (list R)
}.

(** [EMAFilter.__init__] *)
Definition EMAFilter_init (alpha0 : R) (size0 : nat) : EMAFilter :=
  {| alpha := alpha0; size := size0; _state := None |}.

Definition set_state (f : EMAFilter) (s : option (list R)) : EMAFilter :=
  {| alpha := alpha f; size := size f; _state := s |}.

(** [EMAFilter.update], on array values: the value returned or the
    exception raised, and the filter after the call.  The arithmetic is
    exact; [Single.update] below reads the smoothing step on singles. *)
Definition update (f : EMAFilter) (new_value : list R)
    : result (list R) * EMAFilter :=
  match _state f with
  | None => (Ok new_value, set_state f (Some new_value))
  | Some s =>
      match broadcast Rplus (map (Rmult (alpha f)) new_value)
                            (map (Rmult (1 - alpha f)) s) with
      | Ok s' => (Ok s', set_state f (Some s'))
      | Raise e => (Raise e, f)
      end
  end.

(** [EMAFilter.reset] *)
Definition reset_filter (f : EMAFilter) : EMAFilter := set_state f None.

(** [EMAFilter.get_state] *)
Definition get_state (f : EMAFilter) : option (list R) := _state f.

(** *** [src/dsp/features.py] *)

(** The library's percentile: [ValueError] for a [q] outside [0, 100],
    otherwise the linear interpolation between the two nearest ranks of the
    sorted array (meant for a non-empty array). *)
Fixpoint insert_sorted (x : R) (l : list R) : list R :=
  match l with
  | [] => [x]
  | y :: l' => if Exact.leb x y then x :: l else y :: insert_sorted x l'
  end.

Definition sort (l : list R) : list R := foldr insert_sorted [] l.

Definition percentile (a : list R) (q : R) : result R :=
  if Exact.leb 0 q && Exact.leb q 100 then
    let s := sort a in
    let idx := q / 100 * (INR (length s) - 1) in
    let lo := Zfloor idx in
    let hi := Zceil idx in
    let below := nth (Z.to_nat lo) s 0 in
    let above := nth (Z.to_nat hi) s 0 in
    Ok (below + (idx - IZR lo) * (above - below))
  else Raise ValueError.

(** [estimate_noise_floor] *)
Definition estimate_noise_floor (psd_db : list R) (percentile0 : R)
    : result R :=
  percentile psd_db percentile0.

(** [(freq_bins >= lo) & (freq_bins <= hi)] *)
Definition band_mask (freq_bins : list R) (lo hi : R) : list bool :=
  map (fun f => Exact.leb lo f && Exact.leb f hi) freq_bins.

(** [x[mask]]; the mask and the array have one length in every call. *)
Definition select {A : Type} (mask : list bool) (x : list A) : list A :=
  map snd (filter (fun bx => bx.1 = true) (zip mask x)).

(** [compute_bandpower] *)
Definition compute_bandpower (freq_bins psd_linear : list R) (band : Band.t)
    (center_freq_hz0 : R) : R :=
  let band_start_baseband := Band.start_hz band - center_freq_hz0 in
  let band_end_baseband := Band.end_hz band - center_freq_hz0 in
  let mask := band_mask freq_bins band_start_baseband band_end_baseband in
  let bin_width :=
    match freq_bins with
    | f0 :: f1 :: _ => f1 - f0
    | _ => 1
    end in
  let power_linear := Rsum (select mask psd_linear) * bin_width in
  10 * log10 (Rmax power_linear (1 / 10 ^ 12)).

Definition default_threshold_db : R := 6.

(** [compute_occupancy] *)
Definition compute_occupancy (freq_bins psd_db : list R) (band : Band.t)
    (center_freq_hz0 noise_floor_db0 threshold_db : R) : R :=
  let band_start_baseband := Band.start_hz band - center_freq_hz0 in
  let band_end_baseband := Band.end_hz band - center_freq_hz0 in
  let mask := band_mask freq_bins band_start_baseband band_end_baseband in
  let psd_in_band := select mask psd_db in
  if (length psd_in_band =? 0)%nat then 0
  else
    let occupied :=
      length (filter (fun x => Exact.ltb (noise_floor_db0 + threshold_db) x = true)
                     psd_in_band) in
    let total := length psd_in_band in
    INR occupied / INR total * 100.

(** [extract_band_features] *)
Definition extract_band_features (freq_bins psd_db psd_linear : list R)
    (bands : list Band.t) (center_freq_hz0 noise_floor_db0 : R)
    : list R * list R :=
  (map (fun band => compute_bandpower freq_bins psd_linear band center_freq_hz0)
       bands,
   map (fun band => compute_occupancy freq_bins psd_db band center_freq_hz0
                      noise_floor_db0 default_threshold_db)
       bands).

(** *** [src/dsp/pipeline.py] *)

Record DSPPipeline : Type := mkDSPPipeline {
  fft_size : nat;
  window_type : string;
  smoothing_factor : R;
  noise_floor_percentile : R;
  bands : list Band.t;
  window : list R;
  window_power_correction : R;
  ema_filter : EMAFilter;
  gps_fixes : list GPSFix.t
}.

Definition set_ema_filter (p : DSPPipeline) (f : EMAFilter) : DSPPipeline :=
  {| fft_size := fft_size p;
     window_type := window_type p;
     smoothing_factor := smoothing_factor p;
     noise_floor_percentile := noise_floor_percentile p;
     bands := bands p;
     window := window p;
     window_power_correction := window_power_correction p;
     ema_filter := f;
     gps_fixes := gps_fixes p |}.

Definition set_gps_fixes (p : DSPPipeline) (l : list GPSFix.t) : DSPPipeline :=
  {| fft_size := fft_size p;
     window_type := window_type p;
     smoothing_factor := smoothing_factor p;
     noise_floor_percentile := noise_floor_percentile p;
     bands := bands p;
     window := window p;
     window_power_correction := window_power_correction p;
     ema_filter := ema_filter p;
     gps_fixes := l |}.

(** [DSPPipeline.__init__] *)
Definition DSPPipeline_init (fft_size0 : nat) (window_type0 : string)
    (smoothing_factor0 noise_floor_percentile0 : R) (bands0 : list Band.t)
    : result DSPPipeline :=
  window0 ← get_window window_type0 fft_size0;
  Ok {| fft_size := fft_size0;
        window_type := window_type0;
        smoothing_factor := smoothing_factor0;
        noise_floor_percentile := noise_floor_percentile0;
        bands := bands0;
        window := window0;
        window_power_correction := Rsum (map (fun w => w ^ 2) window0);
        ema_filter := EMAFilter_init smoothing_factor0 fft_size0;
        gps_fixes := [] |}.

(** [DSPPipeline.add_gps_fix] *)
Definition add_gps_fix (p : DSPPipeline) (fix_ : GPSFix.t) : DSPPipeline :=
  let fixes := (gps_fixes p ++ [fix_])%list in
  if (100 <? length fixes)%nat
  then set_gps_fixes p (drop (length fixes - 100) fixes)
  else set_gps_fixes p fixes.

(** [DSPPipeline.process_frame]: the record returned or the exception
    raised, and the pipeline after the call.  The filter is updated before
    the noise floor is estimated: when the percentile raises, the new filter
    state is already stored. *)
Definition process_frame (p : DSPPipeline) (frame : IQFrame)
    : result (FrameFeatures R) * DSPPipeline :=
  match compute_fft_psd frame (window p) (window_power_correction p) with
  | Raise e => (Raise e, p)
  | Ok (freq_bins, psd_db0, psd_linear) =>
      match update (ema_filter p) psd_db0 with
      | (Raise e, f) => (Raise e, set_ema_filter p f)
      | (Ok psd_smoothed_db0, f) =>
          let p := set_ema_filter p f in
          match estimate_noise_floor psd_smoothed_db0
                  (noise_floor_percentile p) with
          | Raise e => (Raise e, p)
          | Ok noise_floor_db0 =>
              let '(bandpower_db0, occupancy_pct0) :=
                extract_band_features freq_bins psd_db0 psd_linear (bands p)
                  (center_freq_hz frame) noise_floor_db0 in
              let '(lat_deg0, lon_deg0) :=
                match last (gps_fixes p) with
                | Some gps_fix =>
                    (Some (GPSFix.lat_deg gps_fix),
                     Some (GPSFix.lon_deg gps_fix))
                | None => (None, None)
                end in
              (Ok {| frame_id := iq_frame_id frame;
                     timestamp_ns := iq_timestamp_ns frame;
                     lat_deg := lat_deg0;
                     lon_deg := lon_deg0;
                     freq_bins_hz := freq_bins;
                     psd_db := psd_db0;
                     psd_smoothed_db := psd_smoothed_db0;
                     noise_floor_db := noise_floor_db0;
                     bandpower_db := bandpower_db0;
                     occupancy_pct := occupancy_pct0;
                     anomaly_score := None |},
               p)
          end
      end
  end.

(** [DSPPipeline.reset] *)
Definition reset (p : DSPPipeline) : DSPPipeline :=
  set_gps_fixes (set_ema_filter p (reset_filter (ema_filter p))) [].

End DSP.

(** *** [EMAFilter] with arrays by reference

    [update] stores [new_value.copy()] and returns the stored array itself.
    To speak about which arrays are shared, arrays live in a store and the
    filter holds a location.  Temporaries of an expression are not recorded,
    only the array bound to [self._state]. *)

Module EMAFilterRef.

Abbreviation loc := positive.

Record t : Type := mk {
  alpha : R;
  size : nat;
  _state : option loc
}.

Definition init (alpha0 : R) (size0 : nat) : t :=
  {| alpha := alpha0; size := size0; _state := None |}.

Definition set_state (f : t) (s : option loc) : t :=
  {| alpha := alpha f; size := size f; _state := s |}.

(** A new array object holding [v]. *)
Definition alloc (h : gmap loc (list R)) (v : list R)
    : loc * gmap loc (list R) :=
  let l := fresh (dom h) in (l, <[l := v]> h).

(** [ndarray.copy()] *)
Definition copy (h : gmap loc (list R)) (l : loc)
    : loc * gmap loc (list R) :=
  alloc h (h !!! l).

(** [EMAFilter.update] *)
Definition update (f : t) (h : gmap loc (list R)) (new_value : loc)
    : result loc * t * gmap loc (list R) :=
  match _state f with
  | None =>
      let '(l, h') := copy h new_value in
      (Ok l, set_state f (Some l), h')
  | Some s =>
      match DSP.broadcast Rplus (map (Rmult (alpha f)) (h !!! new_value))
                                (map (Rmult (1 - alpha f)) (h !!! s)) with
      | Ok v =>
          let '(l, h') := alloc h v in
          (Ok l, set_state f (Some l), h')
      | Raise e => (Raise e, f, h)
      end
  end.

(** [EMAFilter.reset] *)
Definition reset (f : t) : t := set_state f None.

(** The filter on array values that a filter on references stands for. *)
Definition contents (h : gmap loc (list R)) (f : t) : DSP.EMAFilter :=
  {| DSP.alpha := alpha f;
     DSP.size := size f;
     DSP._state := (fun l => h !!! l) <$> _state f |}.

End EMAFilterRef.

(** *** Single precision

    The arrays of the DSP code hold single-precision numbers, and the
    operations on them round to single precision.  Above, they are read over
    the reals.  Where the rounding decides, the code is read here on singles,
    a single being held as the double of the same value.

    [of_double] is the cast [astype(float32)], round to nearest, ties to
    even, for a double in the normal range of singles: the 53-bit mantissa is
    cut to 24 bits.  The product and the sum of two singles are the double
    product and sum, cast: a double has more than twice the digits of a
    single, so the double result rounds to the correctly rounded single. *)

Module Single.

Definition of_double (x : float) : float :=
  match Prim2SF x with
  | S754_finite s m e =>
      let q := Z.shiftr (Zpos m) 29 in
      let r := Z.land (Zpos m) (Z.ones 29) in
      let half := Z.shiftl 1 28 in
      let q' :=
        if (half <? r)%Z || ((r =? half)%Z && Z.odd q) then (q + 1)%Z
        else q in
      let y := Z.ldexp (Binary64.of_int q') (e + 29) in
      if s then PrimFloat.opp y else y
  | _ => x
  end.

Definition add (x y : float) : float := of_double (PrimFloat.add x y).
Definition mul (x y : float) : float := of_double (PrimFloat.mul x y).

(** [cp.maximum] *)
Definition maximum (x y : float) : float :=
  if PrimFloat.ltb x y then y else x.



(** [linear_to_db] on an array of singles.  [floor_linear] is the value of
    [10 ** (floor_db / 10)], a double; against an array of singles
    [cp.maximum] takes it as a single.  [log10] is the library's logarithm
    on singles, and the product with 10 is a product of singles. *)
Definition linear_to_db (log10 : float -> float) (linear : list float)
    (floor_linear : float) : list float :=
  let linear_clipped :=
    map (fun x => maximum x (of_double floor_linear)) linear in
  map (fun x => mul 10%float (log10 x)) linear_clipped.

(** [EMAFilter.update] on arrays of singles, for a filter that holds a
    state as long as the new array: the state it stores and returns.
    [alpha] and [1 - alpha] are Python floats; an array of singles times a
    Python float is an array of singles, the float taken as a single. *)
Definition update (alpha : float) (_state new_value : list float)
    : list float :=
  zip_with add
    (map (mul (of_double alpha)) new_value)
    (map (mul (of_double (PrimFloat.sub 1%float alpha))) _state).

End Single.

(** ** [src/common/timebase.py] *)

Module Timebase.

(** [align_gps_to_iq]: the index of the fix nearest in time to the frame,
    if it is within the tolerance.  [None] as running minimum is the
    initial [float('inf')].  The pipeline imports this function and does
    not call it. *)
Definition align_gps_to_iq (iq_timestamp_ns : Z) (gps_fixes : list GPSFix.t)
    (tolerance_ns : Z) : option nat :=
  let '(min_delta, min_idx) :=
    foldl (fun (acc : option Z * option nat) (e : nat * GPSFix.t) =>
             let delta := Z.abs (GPSFix.gps_timestamp_ns e.2 - iq_timestamp_ns) in
             match acc.1 with
             | Some m => if (delta <? m)%Z then (Some delta, Some e.1) else acc
             | None => (Some delta, Some e.1)
             end)
          (None, None)
          (zip (seq 0 (length gps_fixes)) gps_fixes) in
  match min_delta with
  | Some m => if (m <=? tolerance_ns)%Z then min_idx else None
  | None => None
  end.

Definition default_tolerance_ns : Z := 1000000000.

End Timebase.

(** ** [src/common/config.py] *)

Module Configuration.

Record RFConfig : Type := mkRFConfig {
  center_freq_hz : R;
  sample_rate_sps : R;
  bandwidth_hz : R;
  gain_db : R;
  fft_size : Z;
  window_type : string
}.

Record DSPConfig : Type := mkDSPConfig {
  frames_per_batch : Z;
  smoothing_factor : R;
  welch_segments : Z;
  noise_floor_percentile : R;
  bands : list Band.t
}.

Record GeoConfig : Type := mkGeoConfig {
  map_center_lat : R;
  map_center_lon : R;
  tile_size_meters : R;
  grid_extent_meters : R;
  aggregate_window_frames : Z
}.

Record PerformanceConfig : Type := mkPerformanceConfig {
  update_rate_hz : R;
  max_frames_buffer : Z;
  frames_per_refresh : Z
}.

(** The sections [validate] and the pipeline read. *)
Record Config : Type := mkConfig {
  rf : RFConfig;
  dsp : DSPConfig;
  geo : GeoConfig;
  performance : PerformanceConfig
}.

(** [Config.validate] *)
Definition validate (c : Config) : result unit :=
  if negb (Z.land (fft_size (rf c)) (fft_size (rf c) - 1) =? 0)%Z
  then Raise ValueError
  else if negb (bool_decide (window_type (rf c) ∈ ["hann"; "hamming"; "blackman"]))
  then Raise ValueError
  else if negb (Exact.ltb 0 (smoothing_factor (dsp c))
                && Exact.leb (smoothing_factor (dsp c)) 1)
  then Raise ValueError
  else if Exact.leb (tile_size_meters (geo c)) 0
  then Raise ValueError
  else if Exact.leb (update_rate_hz (performance c)) 0
  then Raise ValueError
  else Ok tt.

(** [load_config], from the parsed file on. *)
Definition load_config (parsed : Config) : result Config :=
  _ ← validate parsed;
  Ok parsed.

(** [create_pipeline_from_config] of [src/dsp/pipeline.py] *)
Definition create_pipeline_from_config (c : Config)
    : result DSP.DSPPipeline :=
  DSP.DSPPipeline_init (Z.to_nat (fft_size (rf c))) (window_type (rf c))
    (smoothing_factor (dsp c)) (noise_floor_percentile (dsp c))
    (bands (dsp c)).

End Configuration.

(** ** Concrete grids, on doubles

    [cos37] is [cos(radians(37.0))] in binary64. *)

Definition cos37 : float := 0x1.98e6c0ea27a14p-1%float.

(** Scenario B of the specification:
    [TileGrid(37.0, -122.0, tile_size_meters=100, grid_extent_meters=1000)]. *)
Definition scenario_B : result (Tiling.TileGrid float) :=
  Tiling.TileGrid_init cos37 37%float (-122)%float 100%float 1000%float.

(** A grid whose extent is not a multiple of its tile size:
    [TileGrid(37.0, -122.0, tile_size_meters=300, grid_extent_meters=1000)]. *)
Definition grid_300_1000 : result (Tiling.TileGrid float) :=
  Tiling.TileGrid_init cos37 37%float (-122)%float 300%float 1000%float.

Definition on_grid {F A : Type} (g : result (Tiling.TileGrid F))
    (k : Tiling.TileGrid F -> A) : option A :=
  match g with Ok g => Some (k g) | Raise _ => None end.

(** ** Concrete feature records, on doubles *)

(** A record at the centre of scenario B that carries three bands. *)
Definition three_band_record : FrameFeatures float :=
  {| frame_id := 7;
     timestamp_ns := 1000;
     lat_deg := Some 37%float;
     lon_deg := Some (-122)%float;
     freq_bins_hz := [];
     psd_db := [];
     psd_smoothed_db := [];
     noise_floor_db := (-100)%float;
     bandpower_db := [(-50)%float; (-60)%float; (-70)%float];
     occupancy_pct := [10%float; 20%float; 30%float];
     anomaly_score := None |}.


(** A record whose two band lists differ in length. *)
Definition ragged_record : FrameFeatures float :=
  {| frame_id := 8;
     timestamp_ns := 2000;
     lat_deg := Some 37%float;
     lon_deg := Some (-122)%float;
     freq_bins_hz := [];
     psd_db := [];
     psd_smoothed_db := [];
     noise_floor_db := (-100)%float;
     bandpower_db := [(-50)%float; (-60)%float; (-70)%float];
     occupancy_pct := [10%float];
     anomaly_score := None |}.

(** ** The linear PSD of a windowed signal, as [compute_psd] returns it *)

Definition psd_linear_of (w : list DSP.C) (sample_rate wpc : R) : list R :=
  DSP.fftshift
    (map (fun p => p / (INR (length w) * sample_rate * wpc))
         (map (fun z => DSP.Cabs z ^ 2) (DSP.dft w))).

(** ** Successive calls of [EMAFilter.update], with the outputs in order *)

Fixpoint feed (f : DSP.EMAFilter) (xs : list (list R))
    : list (result (list R)) * DSP.EMAFilter :=
  match xs with
  | [] => ([], f)
  | x :: xs' =>
      let '(y, f') := DSP.update f x in
      let '(ys, f'') := feed f' xs' in
      (y :: ys, f'')
  end.

(** ** Histories of calls on a pipeline *)

Inductive call : Type :=
| AddFix (fix_ : GPSFix.t)
| Process (frame : DSP.IQFrame)
| Reset.

(** The pipeline after a history of calls; a call that raises is caught by
    the caller, who goes on with the object as the call left it. *)
Definition run (p : DSP.DSPPipeline) (history : list call) : DSP.DSPPipeline :=
  foldl (fun p c =>
           match c with
           | AddFix fix_ => DSP.add_gps_fix p fix_
           | Process frame => (DSP.process_frame p frame).2
           | Reset => DSP.reset p
           end)
        p history.

(** The fix added last in a history, if one was added since the last
    [reset] (or since construction). *)
Definition latest_fix (history : list call) : option GPSFix.t :=
  foldl (fun acc c =>
           match c with
           | AddFix fix_ => Some fix_
           | Process _ => acc
           | Reset => None
           end)
        None history.

(** ** Orderings of a sequence of bins *)


Definition nondecreasing (l : list R) : Prop :=
  forall (i j : nat) (x y : R),
    (i <= j)%nat -> l !! i = Some x -> l !! j = Some y -> x <= y.

(** [m, m+1, ..., m+len-1] *)
Definition consecutive (m : Z) (len : nat) : list Z :=
  map (fun j => (m + Z.of_nat j)%Z) (seq 0 len).

(** ** Concrete frames *)

(** A frame of four samples at 1 MS/s. *)
Definition frame4 : DSP.IQFrame :=
  {| DSP.iq_frame_id := 1;
     DSP.iq_timestamp_ns := 1000;
     DSP.center_freq_hz := 150000000;
     DSP.sample_rate_sps := 1000000;
     DSP.gain_db := None;
     DSP.iq := [(1, 0); (0, 1); (-1, 0); (0, -1)] |}.

(** A frame of a single sample. *)
Definition frame1 : DSP.IQFrame :=
  {| DSP.iq_frame_id := 2;
     DSP.iq_timestamp_ns := 2000;
     DSP.center_freq_hz := 150000000;
     DSP.sample_rate_sps := 1000000;
     DSP.gain_db := None;
     DSP.iq := [(1, 0)] |}.

(** A frame of three samples. *)
Definition frame3 : DSP.IQFrame :=
  {| DSP.iq_frame_id := 3;
     DSP.iq_timestamp_ns := 3000;
     DSP.center_freq_hz := 150000000;
     DSP.sample_rate_sps := 1000000;
     DSP.gain_db := None;
     DSP.iq := [(1, 0); (0, 1); (-1, 0)] |}.

Definition vhf : Band.t :=
  {| Band.name := "VHF"; Band.start_hz := 30000000; Band.end_hz := 300000000 |}.

(** ** A concrete pipeline

    [DSPPipeline(4, 'hann', 0.5, 10, [vhf])] as its constructor leaves it. *)

Definition pipeline4 : DSP.DSPPipeline :=
  {| DSP.fft_size := 4;
     DSP.window_type := "hann";
     DSP.smoothing_factor := 1 / 2;
     DSP.noise_floor_percentile := 10;
     DSP.bands := [vhf];
     DSP.window := DSP.hann 4;
     DSP.window_power_correction := DSP.Rsum (map (fun w => w ^ 2) (DSP.hann 4));
     DSP.ema_filter := DSP.EMAFilter_init (1 / 2) 4;
     DSP.gps_fixes := [] |}.

Definition fix_a : GPSFix.t :=
  {| GPSFix.gps_timestamp_ns := 5;
     GPSFix.lat_deg := 37;
     GPSFix.lon_deg := -122;
     GPSFix.alt_m := None;
     GPSFix.heading_deg := None;
     GPSFix.speed_mps := None |}.

(** A fix an hour older than [frame4]. *)
Definition fix_b : GPSFix.t :=
  {| GPSFix.gps_timestamp_ns := 1000 - 3600000000000;
     GPSFix.lat_deg := 38;
     GPSFix.lon_deg := -121;
     GPSFix.alt_m := None;
     GPSFix.heading_deg := None;
     GPSFix.speed_mps := None |}.

(** ** Python slices *)

(** [l[-n:]] for a positive [n] *)
Definition last_n {A : Type} (n : nat) (l : list A) : list A :=
  drop (length l - n) l.

(** ** The fixes a history of calls hands to the pipeline since the last
    [reset] (or since construction), in order of arrival *)

Definition fixes_since_reset (history : list call) : list GPSFix.t :=
  foldl (fun acc c =>
           match c with
           | AddFix fix_ => acc ++ [fix_]
           | Process _ => acc
           | Reset => []
           end)
        [] history.

(** A frame of four samples of silence. *)
Definition silence4 : DSP.IQFrame :=
  {| DSP.iq_frame_id := 4;
     DSP.iq_timestamp_ns := 4000;
     DSP.center_freq_hz := 150000000;
     DSP.sample_rate_sps := 1000000;
     DSP.gain_db := None;
     DSP.iq := [(0, 0); (0, 0); (0, 0); (0, 0)] |}.

(** ** The frame loop of the application's main page, on the aggregator

    Each pass of the loop hands the record of the frame to
    [tile_aggregator.add_frame], and, when [should_aggregate()] holds, extends
    the session's list of tile summaries with the result of [aggregate()],
    cut to its last 100 entries.  An exception is caught by the loop, which
    goes on with the objects as the failed call left them. *)

Module FrameLoop.
Import Aggregate.
Section WithArith.
Context {F : Type} `{Arith F}.

Record Session : Type := mkSession {
  tile_aggregator : TileAggregator F;
  tile_metrics : list (TileMetrics F)
}.

Definition aggregate_step (s : Session) (features : FrameFeatures F)
    : Session :=
  let a := add_frame (tile_aggregator s) features in
  if should_aggregate a then
    match aggregate a with
    | (Ok new_tiles, a') =>
        match new_tiles with
        | [] => {| tile_aggregator := a'; tile_metrics := tile_metrics s |}
        | _ =>
            let tm := tile_metrics s ++ new_tiles in
            {| tile_aggregator := a';
               tile_metrics := if (100 <? length tm)%nat then last_n 100 tm
                               else tm |}
        end
    | (Raise _, a') =>
        {| tile_aggregator := a'; tile_metrics := tile_metrics s |}
    end
  else {| tile_aggregator := a; tile_metrics := tile_metrics s |}.

End WithArith.
Arguments Session F : clear implicits.
End FrameLoop.

(** ** Bounded queues: [collections.deque(maxlen=n)]

    [append] adds at the right end and, when that makes the queue longer
    than [maxlen], drops the entry at the left end; with [maxlen = 0] the
    queue stays empty.  The constructor raises [ValueError] for a negative
    [maxlen]. *)

Definition deque_append {A : Type} (maxlen : nat) (d : list A) (x : A)
    : list A :=
  let d' := d ++ [x] in
  if (maxlen <? length d')%nat then drop 1 d' else d'.

(** ** [src/perf/ring_buffer.py] *)

Module RingBuffer.

Record t : Type := mk {
  max_size : nat;
  timestamps : list R;
  values : list (option R)
}.

(** [RingBuffer.__init__] *)
Definition init (max_size0 : Z) : result t :=
  if (max_size0 <? 0)%Z then Raise ValueError
  else Ok {| max_size := Z.to_nat max_size0; timestamps := []; values := [] |}.

(** [RingBuffer.append]; [now] is what [time.time()] reads when the call is
    made. *)
Definition append (b : t) (now : R) (value : option R) (timestamp : option R)
    : t :=
  let timestamp := match timestamp with None => now | Some ts => ts end in
  {| max_size := max_size b;
     timestamps := deque_append (max_size b) (timestamps b) timestamp;
     values := deque_append (max_size b) (values b) value |}.

(** [RingBuffer.get_arrays] *)
Definition get_arrays (b : t) : list R * list (option R) :=
  (timestamps b, values b).

(** [RingBuffer.get_latest]: [self.values[-1] if self.values else None] *)
Definition get_latest (b : t) : option R :=
  match last (values b) with
  | Some v => v
  | None => None
  end.

(** [RingBuffer.clear] *)
Definition clear (b : t) : t :=
  {| max_size := max_size b; timestamps := []; values := [] |}.

(** [RingBuffer.__len__] *)
Definition len (b : t) : nat := length (values b).

(** One call of [append]: the clock reading, the value and the timestamp
    argument. *)
Definition entry : Type := R * option R * option R.

Definition append_all (b : t) (entries : list entry) : t :=
  foldl (fun b e => append b e.1.1 e.1.2 e.2) b entries.

(** The timestamp [append] stores for an entry. *)
Definition stamp (e : entry) : R :=
  match e.2 with None => e.1.1 | Some ts => ts end.

End RingBuffer.

(** ** [src/ui/spectrogram.py]: [WaterfallBuffer] *)

Module WaterfallBuffer.

Record t : Type := mk {
  max_frames : nat;
  fft_size : nat;
  buffer : list (list R);
  freq_bins_mhz : option (list R)
}.

(** [WaterfallBuffer.__init__] *)
Definition init (max_frames0 : Z) (fft_size0 : nat) : result t :=
  if (max_frames0 <? 0)%Z then Raise ValueError
  else Ok {| max_frames := Z.to_nat max_frames0;
             fft_size := fft_size0;
             buffer := [];
             freq_bins_mhz := None |}.

(** [WaterfallBuffer.add_frame] *)
Definition add_frame (b : t) (features : FrameFeatures R)
    (center_freq_hz : R) : t :=
  let psd_db0 := psd_db features in
  let bins :=
    match freq_bins_mhz b with
    | None =>
        Some (map (fun f => (center_freq_hz + f) / 1000000)
                  (freq_bins_hz features))
    | Some bins => Some bins
    end in
  {| max_frames := max_frames b;
     fft_size := fft_size b;
     buffer := deque_append (max_frames b) (buffer b) psd_db0;
     freq_bins_mhz := bins |}.


(** [WaterfallBuffer.clear] *)
Definition clear (b : t) : t :=
  {| max_frames := max_frames b;
     fft_size := fft_size b;
     buffer := [];
     freq_bins_mhz := None |}.


End WaterfallBuffer.

(** ** [src/perf/metrics.py]: [PerformanceMonitor]

    [time.perf_counter()] is an argument of the two calls that read it. *)

Module PerformanceMonitor.

Record t : Type := mk {
  window_size : nat;
  frame_times : list R;
  latencies : list R;
  dropped_frames : Z;
  total_frames : Z;
  _last_time : option R
}.

(** [PerformanceMonitor.__init__] *)
Definition init (window_size0 : Z) : result t :=
  if (window_size0 <? 0)%Z then Raise ValueError
  else Ok {| window_size := Z.to_nat window_size0;
             frame_times := [];
             latencies := [];
             dropped_frames := 0;
             total_frames := 0;
             _last_time := None |}.

(** [PerformanceMonitor.start_frame] *)
Definition start_frame (m : t) (now : R) : t :=
  {| window_size := window_size m;
     frame_times := frame_times m;
     latencies := latencies m;
     dropped_frames := dropped_frames m;
     total_frames := total_frames m;
     _last_time := Some now |}.

(** [PerformanceMonitor.end_frame] *)
Definition end_frame (m : t) (now : R) : t :=
  match _last_time m with
  | None => m
  | Some last_time =>
      let latency_ms := (now - last_time) * 1000 in
      {| window_size := window_size m;
         frame_times := deque_append (window_size m) (frame_times m) now;
         latencies := deque_append (window_size m) (latencies m) latency_ms;
         dropped_frames := dropped_frames m;
         total_frames := (total_frames m + 1)%Z;
         _last_time := None |}
  end.

(** [PerformanceMonitor.get_fps] *)
Definition get_fps (m : t) : R :=
  if (length (frame_times m) <? 2)%nat then 0
  else
    let elapsed := List.last (frame_times m) 0 - hd 0 (frame_times m) in
    if Exact.eqb elapsed 0 then 0
    else (INR (length (frame_times m)) - 1) / elapsed.

Inductive call : Type :=
| StartFrame (now : R)
| EndFrame (now : R).

Definition run (m : t) (calls : list call) : t :=
  foldl (fun m c =>
           match c with
           | StartFrame now => start_frame m now
           | EndFrame now => end_frame m now
           end)
        m calls.

(** The clock readings of a history of calls, in order. *)
Definition readings (calls : list call) : list R :=
  map (fun c => match c with StartFrame now => now | EndFrame now => now end)
      calls.

End PerformanceMonitor.

(** ** [src/dsp/smoothing.py]: [welch_psd] *)

Module Welch.
Import DSP.

(** [None / num_segments] raises [TypeError]; the other exceptions are
    those of the calls made in the loop. *)
Inductive error : Type :=
| TypeError
| Raised (e : exn).

(** The body of the loop up to the PSD of one row:
    [compute_psd(compute_fft(signals[i] * window), sample_rate_sps)[1]],
    with the default correction of [1.0]. *)
Definition segment_psd (window : list R) (sample_rate_sps0 : R)
    (row : list C) : result (list R) :=
  windowed ← broadcast Cscale row window;
  fft_result ← compute_fft windowed;
  '(_, psd_linear) ← compute_psd fft_result sample_rate_sps0 1;
  Ok psd_linear.

(** [acc += x] on arrays: [x] must have the length of [acc], or length 1. *)
Definition iadd (acc x : list R) : result (list R) :=
  if (length x =? length acc)%nat then Ok (zip_with Rplus acc x)
  else match x with
       | [v] => Ok (map (fun a => a + v) acc)
       | _ => Raise ValueError
       end.

Definition accumulate (window : list R) (sample_rate_sps0 : R)
    (acc : result (option (list R))) (row : list C)
    : result (option (list R)) :=
  acc ← acc;
  psd_linear ← segment_psd window sample_rate_sps0 row;
  match acc with
  | None => Ok (Some psd_linear)
  | Some a => a' ← iadd a psd_linear; Ok (Some a')
  end.

(** [welch_psd]; [signals] is the list of the rows of the 2D array. *)
Definition welch_psd (signals : list (list C)) (window : list R)
    (sample_rate_sps0 : R) (num_segments : Z) : list R + error :=
  let count := Z.to_nat (Z.min num_segments (Z.of_nat (length signals))) in
  match foldl (accumulate window sample_rate_sps0) (Ok None)
              (take count signals) with
  | Raise e => inr (Raised e)
  | Ok None => inr TypeError
  | Ok (Some psd_accumulator) =>
      inl (map (fun v => v / IZR num_segments) psd_accumulator)
  end.

End Welch.

(** ** [src/geo/geometry.py] *)

Module Geometry.
Import Aggregate.
Section WithArith.
Context {F : Type} `{Arith F}.

(** [tile_to_polygon]: the ring of [[lon, lat]] pairs *)
Definition tile_to_polygon (tm : TileMetrics F) : list (list F) :=
  [ [tm_lon_min tm; tm_lat_min tm];
    [tm_lon_max tm; tm_lat_min tm];
    [tm_lon_max tm; tm_lat_max tm];
    [tm_lon_min tm; tm_lat_max tm];
    [tm_lon_min tm; tm_lat_min tm] ].

(** The properties of a GeoJSON feature *)
Record Properties : Type := mkProperties {
  p_tile_id : string;
  p_tile_x : Z;
  p_tile_y : Z;
  p_frame_count : Z;
  p_timestamp_min_ns : Z;
  p_timestamp_max_ns : Z;
  p_bandpower_mean_db : list F;
  p_bandpower_max_db : list F;
  p_occupancy_mean_pct : list F;
  p_anomaly_score_max : option F
}.

(** A GeoJSON feature with a polygon geometry *)
Record Feature : Type := mkFeature {
  properties : Properties;
  coordinates : list (list (list F))
}.

(** [tiles_to_geojson]: the features of the collection, in order *)
Definition tiles_to_geojson (tile_metrics : list (TileMetrics F))
    : list Feature :=
  map (fun tm =>
         let polygon_coords := tile_to_polygon tm in
         {| properties :=
              {| p_tile_id := tm_tile_id tm;
                 p_tile_x := tm_tile_x tm;
                 p_tile_y := tm_tile_y tm;
                 p_frame_count := frame_count tm;
                 p_timestamp_min_ns := timestamp_min_ns tm;
                 p_timestamp_max_ns := timestamp_max_ns tm;
                 p_bandpower_mean_db := bandpower_mean_db tm;
                 p_bandpower_max_db := bandpower_max_db tm;
                 p_occupancy_mean_pct := occupancy_mean_pct tm;
                 p_anomaly_score_max := anomaly_score_max tm |};
            coordinates := [polygon_coords] |})
      tile_metrics.

End WithArith.
Arguments Properties F : clear implicits.
Arguments Feature F : clear implicits.
End Geometry.

(** ** A concrete configuration *)

Definition config4 : Configuration.Config :=
  {| Configuration.rf :=
       {| Configuration.center_freq_hz := 150000000;
          Configuration.sample_rate_sps := 1000000;
          Configuration.bandwidth_hz := 1000000;
          Configuration.gain_db := 20;
          Configuration.fft_size := 4;
          Configuration.window_type := "hann" |};
     Configuration.dsp :=
       {| Configuration.frames_per_batch := 1;
          Configuration.smoothing_factor := 1 / 2;
          Configuration.welch_segments := 1;
          Configuration.noise_floor_percentile := 10;
          Configuration.bands := [vhf] |};
     Configuration.geo :=
       {| Configuration.map_center_lat := 37;
          Configuration.map_center_lon := -122;
          Configuration.tile_size_meters := 100;
          Configuration.grid_extent_meters := 1000;
          Configuration.aggregate_window_frames := 5 |};
     Configuration.performance :=
       {| Configuration.update_rate_hz := 10;
          Configuration.max_frames_buffer := 100;
          Configuration.frames_per_refresh := 5 |} |}.

(** ** The specification's wording of the noise floor and of the occupancy

    Two definitions that follow the words of the specification rather than
    the code, to compare the code with. *)

Module Spec.

#[export] Instance Rle_decision (x y : R) : Decision (x <= y) := Rle_dec x y.
#[export] Instance Rlt_decision (x y : R) : Decision (x < y) := Rlt_dec x y.

(** "The given percentile (0-100, interpolated) of the PSD-dB vector": [v]
    is the [q]-th percentile of [a] when [q] lies in [0, 100] and, in the
    ascending rearrangement of [a], [v] is the entry at rank
    [q / 100 * (n - 1)], interpolated linearly between the two neighbouring
    entries when the rank is not whole. *)
Definition is_percentile (a : list R) (q v : R) : Prop :=
  0 <= q <= 100
  /\ exists s,
       s ≡ₚ a /\ Sorted Rle s
       /\ let h := q / 100 * (INR (length a) - 1) in
          exists below above,
            s !! Z.to_nat (Zfloor h) = Some below
            /\ s !! Z.to_nat (Zceil h) = Some above
            /\ v = below + (h - IZR (Zfloor h)) * (above - below).

(** "Convert band edges to baseband-relative frequency by subtracting the
    center frequency"; a bin is selected when its "baseband frequency lies
    within [band_start, band_end] inclusive". *)
Definition in_band (band : Band.t) (center_freq_hz f : R) : Prop :=
  Band.start_hz band - center_freq_hz <= f
  <= Band.end_hz band - center_freq_hz.

#[export] Instance in_band_decision (band : Band.t) (center_freq_hz f : R)
  : Decision (in_band band center_freq_hz f).
Proof. unfold in_band. apply _. Defined.

(** "Fraction (as a percentage) of selected PSD-dB bins exceeding
    [noise_floor_db + threshold_db].  Zero selected bins: occupancy 0." *)
Definition occupancy (freq_bins psd_db : list R) (band : Band.t)
    (center_freq_hz noise_floor_db threshold_db : R) : R :=
  let selected :=
    filter (fun b : R * R => in_band band center_freq_hz b.1)
           (zip freq_bins psd_db) in
  let exceeding :=
    filter (fun b : R * R => noise_floor_db + threshold_db < b.2) selected in
  match selected with
  | [] => 0
  | _ => 100 * (INR (length exceeding) / INR (length selected))
  end.

End Spec.

Definition uhf : Band.t :=
  {| Band.name := "UHF"; Band.start_hz := 300000000; Band.end_hz := 3000000000 |}.

(** [DSPPipeline(4, 'hann', 0.5, 10, [vhf, uhf])] as its constructor leaves
    it. *)
Definition pipeline4_two_bands : DSP.DSPPipeline :=
  {| DSP.fft_size := 4;
     DSP.window_type := "hann";
     DSP.smoothing_factor := 1 / 2;
     DSP.noise_floor_percentile := 10;
     DSP.bands := [vhf; uhf];
     DSP.window := DSP.hann 4;
     DSP.window_power_correction := DSP.Rsum (map (fun w => w ^ 2) (DSP.hann 4));
     DSP.ema_filter := DSP.EMAFilter_init (1 / 2) 4;
     DSP.gps_fixes := [] |}.

(** A frame of four samples at 1.5 MS/s, all zero but the third: an impulse
    where the Hann window is 1.  Its spectrum is flat, at 1 W/Hz, 0 dB. *)
Definition impulse4 : DSP.IQFrame :=
  {| DSP.iq_frame_id := 5;
     DSP.iq_timestamp_ns := 5000;
     DSP.center_freq_hz := 150000000;
     DSP.sample_rate_sps := 1500000;
     DSP.gain_db := None;
     DSP.iq := [(0, 0); (0, 0); (3000, 0); (0, 0)] |}.

(** * Properties *)

(** ** Comparisons of exact reals *)

Module ExactFacts.

Lemma exact_eqb_false (x y : R) : x <> y -> Exact.eqb x y = false.
Proof. intros Hxy. unfold Exact.eqb. destruct (Req_dec_T x y); congruence. Qed.

Lemma exact_leb_true_iff (x y : R) : Exact.leb x y = true <-> x <= y.
Proof. unfold Exact.leb. destruct (Rle_dec x y); split; (congruence || tauto). Qed.

Lemma exact_leb_true (x y : R) : x <= y -> Exact.leb x y = true.
Proof. apply exact_leb_true_iff. Qed.

Lemma exact_ltb_true_iff (x y : R) : Exact.ltb x y = true <-> x < y.
Proof. unfold Exact.ltb. destruct (Rlt_dec x y); split; (congruence || tauto). Qed.

End ExactFacts.

(** ** Tile grid *)

Module TilingFacts.
Import Tiling ExactFacts.

(** *** Scenario B on doubles *)

(** The intermediate values of [get_tile(37.0, -122.0)]: the subtraction
    [37.0 - lat_min] cancels the low bits of the half extent, and the
    quotient falls just below [5]. *)
Lemma scenario_B_latitude_quotient :
  on_grid scenario_B (fun g =>
    (grid_lat_min g, tile_size_lat g,
     (37 - grid_lat_min g)%float,
     ((37 - grid_lat_min g) / tile_size_lat g)%float))
  = Some (0x1.27f6c657a3bf7p+5, 0x1.d854df401d855p-11,
          0x1.27350b8812000p-8, 0x1.3fffffffff830p+2)%float.
Proof. vm_compute. reflexivity. Qed.

Lemma scenario_B_longitude_quotient :
  on_grid scenario_B (fun g =>
    ((-122) - grid_lon_min g) / tile_size_lon g)%float
  = Some 0x1.4000000001060p+2%float.
Proof. vm_compute. reflexivity. Qed.

(** C8, as stated, fails: on the scenario-B grid the centre is not located
    at indices (5, 5). *)
Lemma scenario_B_center_not_5_5 :
  ~ (exists g id, scenario_B = Ok g
       /\ num_tiles_x g = 10%Z /\ num_tiles_y g = 10%Z
       /\ get_tile g 37%float (-122)%float = (5%Z, 5%Z, id)).
Proof.
  intros (g & id & Hg & _ & _ & Hloc).
  assert (E : on_grid scenario_B (fun g => get_tile g 37%float (-122)%float)
              = Some (5%Z, 4%Z, "tile_x5_y4")) by (vm_compute; reflexivity).
  rewrite Hg in E. simpl in E. rewrite Hloc in E. discriminate E.
Qed.

(** C8 (amended): the scenario-B grid has 10 x 10 tiles, the count per axis
    being [ceil(extent / tile_size)]; on doubles its centre is located at
    indices (5, 4), in tile [tile_x5_y4], and that tile's closed bounds
    contain the centre. *)
Theorem scenario_B_center_tile :
  on_grid scenario_B (fun g =>
    (num_tiles_x g, num_tiles_y g,
     ceil (1000 / 100)%float,
     length (tiles g),
     get_tile g 37%float (-122)%float,
     (fun t => contains t 37%float (-122)%float) <$> tile_lookup g !! "tile_x5_y4"))
  = Some (10%Z, 10%Z, 10%Z, 100%nat, (5%Z, 4%Z, "tile_x5_y4"), Some true).
Proof. vm_compute. reflexivity. Qed.

(** The row index does not depend on the cosine the library returned:
    whatever double it is, the centre is located in row 4, or nowhere. *)
Lemma scenario_B_row_for_any_cosine (c : float) :
  on_grid (TileGrid_init c 37%float (-122)%float 100%float 1000%float)
    (fun g => (num_tiles_y g, (get_tile g 37%float (-122)%float).1.2))
  = Some (10%Z, 4%Z)
  \/ on_grid (TileGrid_init c 37%float (-122)%float 100%float 1000%float)
       (fun g => (get_tile g 37%float (-122)%float))
     = Some out_of_bounds.
Proof.
  unfold on_grid, TileGrid_init.
  change (Feqb 100%float (of_int 0)) with false. cbv iota.
  unfold get_tile.
  match goal with
  | |- context [negb (in_grid_bounds ?g ?a ?b)] =>
      destruct (in_grid_bounds g a b)
  end.
  - left. cbn [negb]. cbv iota.
    cbn [fst snd num_tiles_y num_tiles_x grid_lat_min grid_lon_min
         tile_size_lat tile_size_lon].
    vm_compute. reflexivity.
  - right. reflexivity.
Qed.

(** The column index is the same for the neighbouring doubles of [cos37]. *)
Lemma scenario_B_center_tile_nearby_cosines :
  map (fun c =>
         on_grid (TileGrid_init c 37%float (-122)%float 100%float 1000%float)
           (fun g => get_tile g 37%float (-122)%float))
      [PrimFloat.next_down cos37; cos37; PrimFloat.next_up cos37]
  = [Some (5%Z, 4%Z, "tile_x5_y4"); Some (5%Z, 4%Z, "tile_x5_y4");
     Some (5%Z, 4%Z, "tile_x5_y4")].
Proof. vm_compute. reflexivity. Qed.

(** *** A grid whose extent is not a multiple of the tile size *)

(** C7, as stated, fails: the last tile of a 4 x 4 grid over an extent of
    3 1/3 tiles has its midpoint beyond the grid bounds, and [get_tile]
    answers out of bounds there. *)
Lemma midpoint_of_last_tile_out_of_bounds :
  on_grid grid_300_1000 (fun g =>
    (num_tiles_x g, num_tiles_y g,
     (fun t => (tile_id t, midpoint t,
                in_grid_bounds g (midpoint t).1 (midpoint t).2,
                get_tile g (midpoint t).1 (midpoint t).2))
     <$> tiles g !! 15%nat))
  = Some (4%Z, 4%Z,
          Some ("tile_x3_y3",
                (0x1.280a25d2cbe0bp+5, -0x1.e7f7fc803d73ap+6)%float,
                false,
                ((-1)%Z, (-1)%Z, "out_of_bounds"))).
Proof. vm_compute. reflexivity. Qed.

(** On the scenario-B grid, whose extent is ten tiles, every one of the
    hundred midpoints is located in its own tile, on doubles too. *)
Lemma scenario_B_midpoints :
  on_grid scenario_B (fun g =>
    forallb (fun t =>
               match get_tile g (midpoint t).1 (midpoint t).2 with
               | (ix, iy, id) =>
                   (ix =? tile_x t)%Z && (iy =? tile_y t)%Z
                   && String.eqb id (tile_id t)
               end)
            (tiles g))
  = Some true.
Proof. vm_compute. reflexivity. Qed.

(** *** Tile identifiers *)

Lemma pretty_N_char_not_underscore (x : N) : pretty_N_char x <> "_"%char.
Proof. unfold pretty_N_char. repeat case_match; discriminate. Qed.

Lemma pretty_N_go_free (x : N) (s : string) :
  free_of "_" s -> free_of "_" (pretty_N_go x s).
Proof.
  revert s. induction (N.lt_wf_0 x) as [x _ IH]. intros s Hs.
  destruct (decide (x = 0%N)) as [->|Hx].
  - rewrite pretty_N_go_0. exact Hs.
  - rewrite pretty_N_go_step by lia. apply IH.
    + apply N.div_lt; lia.
    + split; [apply pretty_N_char_not_underscore | exact Hs].
Qed.

Lemma pretty_N_free (x : N) : free_of "_" (pretty x).
Proof.
  unfold pretty, pretty_N. case_decide.
  - simpl. split; [discriminate | exact I].
  - apply pretty_N_go_free. exact I.
Qed.

Lemma pretty_Z_free (z : Z) : free_of "_" (pretty z).
Proof.
  destruct z as [|q|q]; unfold pretty, pretty_Z.
  - simpl. split; [discriminate | exact I].
  - apply pretty_N_free.
  - simpl. split; [discriminate | apply pretty_N_free].
Qed.

Lemma app_empty (t : string) : "" +:+ t = t.
Proof. reflexivity. Qed.

Lemma app_String (a : ascii) (s t : string) :
  String a s +:+ t = String a (s +:+ t).
Proof. reflexivity. Qed.

Lemma split_at_underscore (s1 s2 t1 t2 : string) :
  free_of "_" s1 -> free_of "_" s2 ->
  s1 +:+ String "_" t1 = s2 +:+ String "_" t2 -> s1 = s2 /\ t1 = t2.
Proof.
  revert s2. induction s1 as [|a s1 IH]; intros [|b s2] H1 H2 E;
    rewrite ?app_empty, ?app_String in E; simpl in H1, H2.
  - injection E as ->. split; reflexivity.
  - injection E as E _. destruct H2 as [H2 _]. congruence.
  - injection E as E _. destruct H1 as [H1 _]. congruence.
  - injection E as -> E. destruct H1 as [_ H1], H2 as [_ H2].
    destruct (IH s2 H1 H2 E) as [-> ->]. split; reflexivity.
Qed.

Lemma format_tile_id_inj (ix iy ix' iy' : Z) :
  format_tile_id ix iy = format_tile_id ix' iy' -> ix = ix' /\ iy = iy'.
Proof.
  unfold format_tile_id. intros E.
  apply (inj (String.app "tile_x")) in E.
  change (pretty ix +:+ String "_" ("y" +:+ pretty iy)
          = pretty ix' +:+ String "_" ("y" +:+ pretty iy')) in E.
  apply split_at_underscore in E; try apply pretty_Z_free.
  destruct E as [E1 E2]. apply (inj (String.app "y")) in E2.
  split; eapply (inj pretty); eassumption.
Qed.

Lemma format_tile_id_in_bounds (ix iy : Z) :
  String.eqb (format_tile_id ix iy) "out_of_bounds" = false.
Proof. reflexivity. Qed.

(** *** The generated tiles, over any arithmetic *)

Section Generic.
Context {F : Type} `{Arith F}.

Lemma elem_of_range (n k : Z) : k ∈ range n <-> (0 <= k < n)%Z.
Proof.
  unfold range. rewrite list_elem_of_fmap. split.
  - intros (j & -> & Hj). apply elem_of_seq in Hj. lia.
  - intros Hk. exists (Z.to_nat k). split; [lia|]. apply elem_of_seq. lia.
Qed.

Lemma elem_of_generate_tiles (lon0 lat0 sl sa : F) (nx ny : Z) (t : Tile F) :
  t ∈ _generate_tiles lon0 lat0 sl sa nx ny <->
  exists ix iy, (0 <= ix < nx)%Z /\ (0 <= iy < ny)%Z
                /\ t = tile_at lon0 lat0 sl sa ix iy.
Proof.
  unfold _generate_tiles. rewrite list_elem_of_bind. split.
  - intros (ix & Ht & Hix). apply list_elem_of_bind in Ht as (iy & Ht & Hiy).
    apply list_elem_of_singleton in Ht.
    exists ix, iy. rewrite <- !elem_of_range. auto.
  - intros (ix & iy & Hix & Hiy & ->). exists ix. split.
    + apply list_elem_of_bind. exists iy. split.
      * apply list_elem_of_singleton. reflexivity.
      * apply elem_of_range, Hiy.
    + apply elem_of_range, Hix.
Qed.

(** Tiles of one grid with the same id are the same tile. *)
Lemma generate_tiles_id_inj (lon0 lat0 sl sa : F) (nx ny : Z) (t t' : Tile F) :
  t ∈ _generate_tiles lon0 lat0 sl sa nx ny ->
  t' ∈ _generate_tiles lon0 lat0 sl sa nx ny ->
  tile_id t = tile_id t' -> t = t'.
Proof.
  rewrite !elem_of_generate_tiles.
  intros (ix & iy & _ & _ & ->) (ix' & iy' & _ & _ & ->) E.
  apply format_tile_id_inj in E as [-> ->]. reflexivity.
Qed.

Lemma build_lookup_snoc (ts : list (Tile F)) (t : Tile F) :
  build_lookup (ts ++ [t]) = <[tile_id t := t]> (build_lookup ts).
Proof. unfold build_lookup. rewrite foldl_app. reflexivity. Qed.

Lemma build_lookup_Some (ts : list (Tile F)) (t : Tile F) :
  (forall t1 t2, t1 ∈ ts -> t2 ∈ ts -> tile_id t1 = tile_id t2 -> t1 = t2) ->
  t ∈ ts -> build_lookup ts !! tile_id t = Some t.
Proof.
  induction ts as [|t0 ts IH] using rev_ind; intros Hinj Ht.
  - inversion Ht.
  - rewrite build_lookup_snoc.
    destruct (decide (tile_id t0 = tile_id t)) as [E|E].
    + rewrite E, lookup_insert_eq. f_equal. apply Hinj; try assumption.
      apply elem_of_app. right. apply list_elem_of_singleton. reflexivity.
    + rewrite lookup_insert_ne by exact E. apply IH.
      * intros t1 t2 H1 H2. apply Hinj; apply elem_of_app; left; assumption.
      * apply elem_of_app in Ht as [Ht|Ht]; [exact Ht|].
        apply list_elem_of_singleton in Ht. congruence.
Qed.

Lemma build_lookup_elem_of (ts : list (Tile F)) (k : string) (t : Tile F) :
  build_lookup ts !! k = Some t -> t ∈ ts /\ tile_id t = k.
Proof.
  induction ts as [|t0 ts IH] using rev_ind.
  - unfold build_lookup. simpl. rewrite lookup_empty. discriminate.
  - rewrite build_lookup_snoc.
    destruct (decide (tile_id t0 = k)) as [E|E].
    + rewrite E, lookup_insert_eq. intros [= <-]. split; [|exact E].
      apply elem_of_app. right. apply list_elem_of_singleton. reflexivity.
    + rewrite lookup_insert_ne by exact E. intros Hk.
      destruct (IH Hk) as [Ht Hid]. split; [|exact Hid].
      apply elem_of_app. left. exact Ht.
Qed.

Lemma TileGrid_init_well_formed (c clat clon T E : F) (g : TileGrid F) :
  TileGrid_init c clat clon T E = Ok g -> well_formed g.
Proof.
  unfold TileGrid_init. destruct (Feqb T (of_int 0)); [discriminate|].
  intros [= <-]. split; reflexivity.
Qed.

(** Every in-bounds coordinate is located in exactly one tile of the grid,
    at indices within [0, n-1]. *)
Lemma get_tile_in_bounds (g : TileGrid F) (lat lon : F) :
  well_formed g ->
  (1 <= num_tiles_x g)%Z -> (1 <= num_tiles_y g)%Z ->
  in_grid_bounds g lat lon = true ->
  exists t, get_tile g lat lon = (tile_x t, tile_y t, tile_id t)
    /\ (0 <= tile_x t <= num_tiles_x g - 1)%Z
    /\ (0 <= tile_y t <= num_tiles_y g - 1)%Z
    /\ t ∈ tiles g
    /\ tile_lookup g !! tile_id t = Some t
    /\ (forall t', t' ∈ tiles g -> tile_id t' = tile_id t -> t' = t).
Proof.
  intros [Hts Hlk] Hx Hy Hin. unfold get_tile. rewrite Hin. simpl.
  set (ix := Z.max 0 (Z.min _ (num_tiles_x g - 1))).
  set (iy := Z.max 0 (Z.min _ (num_tiles_y g - 1))).
  exists (tile_at (grid_lon_min g) (grid_lat_min g)
            (tile_size_lon g) (tile_size_lat g) ix iy).
  assert (Hix : (0 <= ix <= num_tiles_x g - 1)%Z) by (subst ix; lia).
  assert (Hiy : (0 <= iy <= num_tiles_y g - 1)%Z) by (subst iy; lia).
  assert (Hel : tile_at (grid_lon_min g) (grid_lat_min g)
                  (tile_size_lon g) (tile_size_lat g) ix iy ∈ tiles g).
  { rewrite Hts. apply elem_of_generate_tiles. exists ix, iy.
    repeat split; lia. }
  split; [reflexivity|]. split; [exact Hix|]. split; [exact Hiy|].
  split; [exact Hel|]. split.
  - rewrite Hlk. apply build_lookup_Some; [|exact Hel].
    rewrite Hts. apply generate_tiles_id_inj.
  - intros t' Ht' E. revert Ht' Hel E. rewrite Hts.
    apply generate_tiles_id_inj.
Qed.

(** A coordinate outside the grid bounds gets the sentinel. *)
Lemma get_tile_out_of_bounds (g : TileGrid F) (lat lon : F) :
  in_grid_bounds g lat lon = false -> get_tile g lat lon = out_of_bounds.
Proof. intros Hout. unfold get_tile. rewrite Hout. reflexivity. Qed.

End Generic.

(** *** The grid in exact arithmetic *)

Section ExactGrid.
Variables (c clat clon T E : R) (g : TileGrid R).
Hypothesis Hc : 0 < c.
Hypothesis HT : 0 < T.
Hypothesis Hg : TileGrid_init c clat clon T E = Ok g.

Let lodm : R := 1 / (88000 * c).
Let ladm : R := 1 / 111000.

Lemma lodm_pos : 0 < lodm.
Proof.
  unfold lodm. apply Rdiv_lt_0_compat; [lra|]. apply Rmult_lt_0_compat; lra.
Qed.

Lemma ladm_pos : 0 < ladm.
Proof. unfold ladm. lra. Qed.

Lemma exact_grid_fields :
  grid_lat_min g = clat - E / 2 * ladm
  /\ grid_lat_max g = clat + E / 2 * ladm
  /\ grid_lon_min g = clon - E / 2 * lodm
  /\ grid_lon_max g = clon + E / 2 * lodm
  /\ tile_size_lat g = T * ladm
  /\ tile_size_lon g = T * lodm
  /\ num_tiles_x g = Zceil (E / T)
  /\ num_tiles_y g = Zceil (E / T).
Proof.
  revert Hg. unfold TileGrid_init. simpl.
  rewrite exact_eqb_false by lra. intros [= <-]. simpl.
  repeat split; reflexivity.
Qed.

Lemma exact_trunc_half (k : Z) (x : R) :
  (0 <= k)%Z -> x = IZR k + 1 / 2 -> Exact.trunc x = k.
Proof.
  intros Hk ->. unfold Exact.trunc.
  assert (0 <= IZR k) by (apply IZR_le; exact Hk).
  destruct (Rle_dec 0 (IZR k + 1 / 2)); [|lra].
  apply Zfloor_eq. lra.
Qed.

(** The midpoint of a tile that lies inside the grid bounds is located in
    that tile. *)
Lemma locate_midpoint_exact (t : Tile R) :
  t ∈ tiles g ->
  in_grid_bounds g (midpoint t).1 (midpoint t).2 = true ->
  get_tile g (midpoint t).1 (midpoint t).2 = (tile_x t, tile_y t, tile_id t).
Proof.
  intros Ht Hin.
  destruct (TileGrid_init_well_formed _ _ _ _ _ _ Hg) as [Hts _].
  rewrite Hts in Ht. apply elem_of_generate_tiles in Ht
    as (ix & iy & Hix & Hiy & ->).
  unfold get_tile. rewrite Hin. simpl.
  destruct exact_grid_fields as (_ & _ & _ & _ & Esa & Esl & _ & _).
  pose proof lodm_pos as Hlo. pose proof ladm_pos as Hla.
  rewrite Esa, Esl.
  assert (Hsl : T * lodm <> 0) by (apply Rgt_not_eq, Rmult_lt_0_compat; lra).
  assert (Hsa : T * ladm <> 0) by (apply Rgt_not_eq, Rmult_lt_0_compat; lra).
  rewrite (exact_trunc_half ix), (exact_trunc_half iy); try lia.
  - f_equal; [f_equal|]; try lia.
    replace (Z.max 0 (Z.min ix (num_tiles_x g - 1))) with ix by lia.
    replace (Z.max 0 (Z.min iy (num_tiles_y g - 1))) with iy by lia.
    reflexivity.
  - field. split; lra.
  - field. split; lra.
Qed.

(** When the extent is a whole number of tiles, every tile's midpoint lies
    inside the grid bounds. *)
Lemma midpoint_in_bounds_exact (k : Z) (t : Tile R) :
  E = IZR k * T ->
  t ∈ tiles g ->
  in_grid_bounds g (midpoint t).1 (midpoint t).2 = true.
Proof.
  intros HE Ht.
  destruct (TileGrid_init_well_formed _ _ _ _ _ _ Hg) as [Hts _].
  rewrite Hts in Ht. apply elem_of_generate_tiles in Ht
    as (ix & iy & Hix & Hiy & ->).
  destruct exact_grid_fields
    as (Ea & Eb & Ec & Ed & Esa & Esl & Enx & Eny).
  assert (Hk : Zceil (E / T) = k).
  { rewrite HE. replace (IZR k * T / T) with (IZR k) by (field; lra).
    apply Zceil_eq. lra. }
  rewrite Enx, Hk in Hix. rewrite Eny, Hk in Hiy.
  pose proof lodm_pos as Hlo. pose proof ladm_pos as Hla.
  assert (Hsl : 0 < T * lodm) by (apply Rmult_lt_0_compat; lra).
  assert (Hsa : 0 < T * ladm) by (apply Rmult_lt_0_compat; lra).
  assert (Hx0 : 0 <= IZR ix) by (apply IZR_le; lia).
  assert (Hx1 : IZR ix + 1 <= IZR k) by (rewrite <- plus_IZR; apply IZR_le; lia).
  assert (Hy0 : 0 <= IZR iy) by (apply IZR_le; lia).
  assert (Hy1 : IZR iy + 1 <= IZR k) by (rewrite <- plus_IZR; apply IZR_le; lia).
  unfold in_grid_bounds. simpl. rewrite Ea, Eb, Ec, Ed, Esa, Esl, HE.
  rewrite !andb_true_iff, !exact_leb_true_iff.
  set (sl := T * lodm) in *. set (sa := T * ladm) in *.
  replace (IZR k * T / 2 * ladm) with (IZR k * sa / 2) by (unfold sa; field).
  replace (IZR k * T / 2 * lodm) with (IZR k * sl / 2) by (unfold sl; field).
  assert (0 <= IZR ix * sl) by (apply Rmult_le_pos; lra).
  assert (0 <= IZR iy * sa) by (apply Rmult_le_pos; lra).
  assert ((IZR ix + 1) * sl <= IZR k * sl) by (apply Rmult_le_compat_r; lra).
  assert ((IZR iy + 1) * sa <= IZR k * sa) by (apply Rmult_le_compat_r; lra).
  repeat split; lra.
Qed.

End ExactGrid.

(** Without that, the last tile's midpoint falls outside the bounds in
    exact arithmetic as well: an extent of 1000 with tiles of 300. *)
Lemma midpoint_of_last_tile_out_of_bounds_exact (c : R) (g : TileGrid R) :
  0 < c ->
  TileGrid_init c 37 (-122) 300 1000 = Ok g ->
  exists t, t ∈ tiles g /\ tile_id t = "tile_x3_y3"
    /\ get_tile g (midpoint t).1 (midpoint t).2 = out_of_bounds.
Proof.
  intros Hc Hg.
  destruct (exact_grid_fields c 37 (-122) 300 1000 g ltac:(lra) Hg)
    as (Ea & Eb & Ec & Ed & Esa & Esl & Enx & Eny).
  assert (Hn : Zceil (1000 / 300) = 4%Z) by (apply Zceil_eq; lra).
  rewrite Hn in Enx, Eny.
  destruct (TileGrid_init_well_formed _ _ _ _ _ _ Hg) as [Hts _].
  exists (tile_at (grid_lon_min g) (grid_lat_min g)
            (tile_size_lon g) (tile_size_lat g) 3 3).
  split.
  { rewrite Hts. apply elem_of_generate_tiles. exists 3%Z, 3%Z.
    rewrite Enx, Eny. repeat split; lia. }
  split; [reflexivity|].
  apply get_tile_out_of_bounds. unfold in_grid_bounds. simpl.
  rewrite Ea, Eb, Esa.
  assert (Hout : Exact.leb
            ((37 - 1000 / 2 * (1 / 111000) + 3 * (300 * (1 / 111000))
              + (37 - 1000 / 2 * (1 / 111000) + 3 * (300 * (1 / 111000))
                 + 300 * (1 / 111000))) / 2)
            (37 + 1000 / 2 * (1 / 111000)) = false).
  { unfold Exact.leb. destruct (Rle_dec _ _) as [Hle|_]; [lra | reflexivity]. }
  rewrite Hout. rewrite andb_false_r. reflexivity.
Qed.

Lemma exact_num_tiles_pos (c clat clon T E : R) (g : TileGrid R) :
  0 < c -> 0 < T -> 0 < E ->
  TileGrid_init c clat clon T E = Ok g ->
  (1 <= num_tiles_x g)%Z /\ (1 <= num_tiles_y g)%Z.
Proof.
  intros Hc HT HE Hg.
  destruct (exact_grid_fields c clat clon T E g HT Hg)
    as (_ & _ & _ & _ & _ & _ & -> & ->).
  assert (0 < E / T) by (apply Rdiv_lt_0_compat; lra).
  pose proof (Zceil_bound (E / T)) as [_ Hb].
  assert (0 < IZR (Zceil (E / T))) by lra.
  apply lt_IZR in H0. lia.
Qed.

Lemma exact_init_ok (c clat clon T E : R) :
  T <> 0 -> exists g, TileGrid_init c clat clon T E = Ok g.
Proof.
  intros HT. unfold TileGrid_init. simpl.
  rewrite exact_eqb_false by exact HT. eexists. reflexivity.
Qed.

(** C7 (amended).  In exact arithmetic, for a grid built with a positive
    tile size at a latitude of positive cosine:
    - a tile whose bounds midpoint lies inside the grid bounds is the tile
      [get_tile] returns for that midpoint;
    - when the extent is a whole multiple of the tile size this covers
      every tile of the grid;
    - every coordinate inside the bounds of a grid of positive extent is
      located in exactly one tile of the grid, whose indices lie in
      [0, n-1] on each axis, and a coordinate outside them gets the
      out-of-bounds sentinel.
    The last point holds in any arithmetic, doubles included, for a grid
    with at least one tile per axis.  [get_tile] is a function of the grid
    record and the coordinate alone. *)
Theorem locate_left_inverse (c clat clon T E : R) (g : TileGrid R) :
  0 < c -> 0 < T ->
  TileGrid_init c clat clon T E = Ok g ->
  (forall t, t ∈ tiles g ->
     in_grid_bounds g (midpoint t).1 (midpoint t).2 = true ->
     get_tile g (midpoint t).1 (midpoint t).2 = (tile_x t, tile_y t, tile_id t))
  /\ (forall k t, E = IZR k * T -> t ∈ tiles g ->
     get_tile g (midpoint t).1 (midpoint t).2 = (tile_x t, tile_y t, tile_id t))
  /\ (forall lat lon, 0 < E ->
     in_grid_bounds g lat lon = true ->
     exists t, get_tile g lat lon = (tile_x t, tile_y t, tile_id t)
       /\ (0 <= tile_x t <= num_tiles_x g - 1)%Z
       /\ (0 <= tile_y t <= num_tiles_y g - 1)%Z
       /\ t ∈ tiles g
       /\ tile_lookup g !! tile_id t = Some t
       /\ (forall t', t' ∈ tiles g -> tile_id t' = tile_id t -> t' = t))
  /\ (forall lat lon, in_grid_bounds g lat lon = false ->
     get_tile g lat lon = out_of_bounds)
  /\ (forall (F : Type) (A : Arith F) (c' clat' clon' T' E' : F)
            (g' : TileGrid F) (lat lon : F),
     TileGrid_init c' clat' clon' T' E' = Ok g' ->
     (1 <= num_tiles_x g')%Z -> (1 <= num_tiles_y g')%Z ->
     in_grid_bounds g' lat lon = true ->
     exists t, get_tile g' lat lon = (tile_x t, tile_y t, tile_id t)
       /\ (0 <= tile_x t <= num_tiles_x g' - 1)%Z
       /\ (0 <= tile_y t <= num_tiles_y g' - 1)%Z
       /\ t ∈ tiles g'
       /\ tile_lookup g' !! tile_id t = Some t
       /\ (forall t', t' ∈ tiles g' -> tile_id t' = tile_id t -> t' = t)).
Proof.
  intros Hc HT Hg.
  split; [|split; [|split; [|split]]].
  - intros t. apply (locate_midpoint_exact c clat clon T E g Hc HT Hg).
  - intros k t HE Ht.
    apply (locate_midpoint_exact c clat clon T E g Hc HT Hg t Ht).
    apply (midpoint_in_bounds_exact c clat clon T E g Hc HT Hg k t HE Ht).
  - intros lat lon HE Hin.
    destruct (exact_num_tiles_pos c clat clon T E g Hc HT HE Hg) as [Hx Hy].
    apply get_tile_in_bounds; try assumption.
    eapply TileGrid_init_well_formed; eassumption.
  - intros lat lon. apply get_tile_out_of_bounds.
  - intros F A c' clat' clon' T' E' g' lat lon Hg' Hx Hy Hin.
    apply get_tile_in_bounds; try assumption.
    eapply TileGrid_init_well_formed; eassumption.
Qed.

(** The theorem at the grid of scenario B on the equator, where the cosine
    is 1. *)
Lemma locate_left_inverse_witness :
  exists g : TileGrid R,
    TileGrid_init 1 0 0 100 1000 = Ok g
    /\ (forall k t, 1000 = IZR k * 100 -> t ∈ tiles g ->
          get_tile g (midpoint t).1 (midpoint t).2
          = (tile_x t, tile_y t, tile_id t)).
Proof.
  destruct (exact_init_ok 1 0 0 100 1000) as [g Hg]; [lra|].
  exists g. split; [exact Hg|].
  apply (locate_left_inverse 1 0 0 100 1000 g); [lra | lra | exact Hg].
Defined.

(** Scenario B in exact arithmetic, at any latitude of positive cosine: the
    centre lies on the common edge of rows 4 and 5 and of columns 4 and 5,
    both quotients are exactly 5, and the indices are (5, 5).  The doubles
    differ in the row only because the latitude quotient rounds below 5. *)
Lemma scenario_B_exact (c : R) (g : TileGrid R) :
  0 < c ->
  TileGrid_init c 37 (-122) 100 1000 = Ok g ->
  num_tiles_x g = 10%Z /\ num_tiles_y g = 10%Z
  /\ get_tile g 37 (-122) = (5%Z, 5%Z, "tile_x5_y5").
Proof.
  intros Hc Hg.
  destruct (exact_grid_fields c 37 (-122) 100 1000 g ltac:(lra) Hg)
    as (Ea & Eb & Ec & Ed & Esa & Esl & Enx & Eny).
  assert (Hn : Zceil (1000 / 100) = 10%Z) by (apply Zceil_eq; lra).
  rewrite Hn in Enx, Eny.
  pose proof (lodm_pos c Hc) as Hlo.
  set (lodm := 1 / (88000 * c)) in *.
  split; [exact Enx|]. split; [exact Eny|].
  unfold get_tile, in_grid_bounds. simpl.
  rewrite Ea, Eb, Ec, Ed, Esa, Esl, Enx, Eny.
  rewrite !exact_leb_true by lra. simpl.
  assert (Q1 : (-122 - (-122 - 1000 / 2 * lodm)) / (100 * lodm) = IZR 5)
    by (field; lra).
  assert (Q2 : (37 - (37 - 1000 / 2 * (1 / 111000))) / (100 * (1 / 111000))
               = IZR 5) by field.
  rewrite Q1, Q2. unfold Exact.trunc.
  destruct (Rle_dec 0 (IZR 5)) as [_|Hn0]; [|exfalso; apply Hn0; lra].
  rewrite ZfloorZ. reflexivity.
Qed.

End TilingFacts.

(** ** Tile aggregator *)

Module AggregateFacts.
Import Tiling Aggregate TilingFacts.

(** *** Column names *)

Lemma bandpower_key_inj (i j : Z) : bandpower_key i = bandpower_key j -> i = j.
Proof.
  unfold bandpower_key. intros E.
  apply (inj (String.app "bandpower_db_")) in E. apply (inj pretty) in E. exact E.
Qed.

Lemma occupancy_key_inj (i j : Z) : occupancy_key i = occupancy_key j -> i = j.
Proof.
  unfold occupancy_key. intros E.
  apply (inj (String.app "occupancy_pct_")) in E. apply (inj pretty) in E. exact E.
Qed.

Lemma bandpower_key_head (i : Z) :
  exists s, bandpower_key i = String "b" s.
Proof. eexists. reflexivity. Qed.

Lemma occupancy_key_head (i : Z) :
  exists s, occupancy_key i = String "o" s.
Proof. eexists. reflexivity. Qed.

Lemma bandpower_occupancy_ne (i j : Z) : bandpower_key i <> occupancy_key j.
Proof.
  destruct (bandpower_key_head i) as [s ->].
  destruct (occupancy_key_head j) as [s' ->]. discriminate.
Qed.

Lemma plain_ne_bandpower (k : string) (i : Z) : plain k -> bandpower_key i <> k.
Proof.
  destruct (bandpower_key_head i) as [s ->].
  destruct k; simpl; [discriminate|]. intros [Hb _] [= E _]. congruence.
Qed.

Lemma plain_ne_occupancy (k : string) (i : Z) : plain k -> occupancy_key i <> k.
Proof.
  destruct (occupancy_key_head i) as [s ->].
  destruct k; simpl; [discriminate|]. intros [_ Ho] [= E _]. congruence.
Qed.

Section Generic.
Context {F : Type} `{Arith F}.

(** *** The row [add_frame] builds *)

Lemma enumerate_snoc {A : Type} (l : list A) (x : A) :
  enumerate (l ++ [x]) = enumerate l ++ [(Z.of_nat (length l), x)].
Proof.
  unfold enumerate. rewrite length_app. simpl.
  rewrite Nat.add_1_r, seq_S, map_app. simpl.
  rewrite zip_with_app by (rewrite length_map, length_seq; reflexivity).
  reflexivity.
Qed.

Lemma add_bands_plain (r : gmap string (cell F)) (l : list (Z * (F * F)))
    (k : string) :
  plain k -> foldl add_band r l !! k = r !! k.
Proof.
  intros Hk. revert r. induction l as [|e l IH]; intros r; [reflexivity|].
  simpl. rewrite IH. unfold add_band.
  rewrite lookup_insert_ne by (apply plain_ne_occupancy, Hk).
  rewrite lookup_insert_ne by (apply plain_ne_bandpower, Hk).
  reflexivity.
Qed.

Lemma add_bands_bandpower (r : gmap string (cell F)) (l : list (F * F))
    (i : nat) :
  (forall j, r !! bandpower_key j = None) ->
  foldl add_band r (enumerate l) !! bandpower_key (Z.of_nat i)
  = (fun e => CFloat e.1) <$> l !! i.
Proof.
  intros Hr. induction l as [|x l IH] using rev_ind.
  - simpl. rewrite Hr. reflexivity.
  - rewrite enumerate_snoc, foldl_app. simpl. unfold add_band at 1. simpl.
    rewrite lookup_insert_ne by (apply not_eq_sym, bandpower_occupancy_ne).
    destruct (decide (i = length l)) as [->|Hi].
    + rewrite lookup_insert_eq.
      rewrite lookup_app_r by lia. rewrite Nat.sub_diag. reflexivity.
    + rewrite lookup_insert_ne
        by (intros E; apply bandpower_key_inj in E; lia).
      rewrite IH. destruct (decide (i < length l)%nat).
      * rewrite lookup_app_l by assumption. reflexivity.
      * rewrite !lookup_ge_None_2; [reflexivity | | lia].
        rewrite length_app. simpl. lia.
Qed.

Lemma add_bands_occupancy (r : gmap string (cell F)) (l : list (F * F))
    (i : nat) :
  (forall j, r !! occupancy_key j = None) ->
  foldl add_band r (enumerate l) !! occupancy_key (Z.of_nat i)
  = (fun e => CFloat e.2) <$> l !! i.
Proof.
  intros Hr. induction l as [|x l IH] using rev_ind.
  - simpl. rewrite Hr. reflexivity.
  - rewrite enumerate_snoc, foldl_app. simpl. unfold add_band at 1. simpl.
    destruct (decide (i = length l)) as [->|Hi].
    + rewrite lookup_insert_eq.
      rewrite lookup_app_r by lia. rewrite Nat.sub_diag. reflexivity.
    + rewrite lookup_insert_ne
        by (intros E; apply occupancy_key_inj in E; lia).
      rewrite lookup_insert_ne by apply bandpower_occupancy_ne.
      rewrite IH. destruct (decide (i < length l)%nat).
      * rewrite lookup_app_l by assumption. reflexivity.
      * rewrite !lookup_ge_None_2; [reflexivity | | lia].
        rewrite length_app. simpl. lia.
Qed.

Lemma plain_anomaly : plain "anomaly_score".
Proof. simpl. split; discriminate. Qed.

Lemma make_row_bandpower (f : FrameFeatures F) (lat lon : F) (tx ty : Z)
    (tid : string) (i : nat) :
  make_row f lat lon tx ty tid !! bandpower_key (Z.of_nat i)
  = (fun e => CFloat e.1) <$> zip (bandpower_db f) (occupancy_pct f) !! i.
Proof.
  unfold make_row.
  assert (Hb : forall (r : gmap string (cell F)),
             (match anomaly_score f with
              | Some s => <["anomaly_score" := CFloat s]> r
              | None => r
              end) !! bandpower_key (Z.of_nat i) = r !! bandpower_key (Z.of_nat i)).
  { intros r. destruct (anomaly_score f); [|reflexivity].
    apply lookup_insert_ne, not_eq_sym, plain_ne_bandpower, plain_anomaly. }
  rewrite Hb. apply add_bands_bandpower. intros j.
  rewrite !lookup_insert_ne
    by (apply not_eq_sym, plain_ne_bandpower; simpl; split; discriminate).
  apply lookup_empty.
Qed.

Lemma make_row_occupancy (f : FrameFeatures F) (lat lon : F) (tx ty : Z)
    (tid : string) (i : nat) :
  make_row f lat lon tx ty tid !! occupancy_key (Z.of_nat i)
  = (fun e => CFloat e.2) <$> zip (bandpower_db f) (occupancy_pct f) !! i.
Proof.
  unfold make_row.
  assert (Hb : forall (r : gmap string (cell F)),
             (match anomaly_score f with
              | Some s => <["anomaly_score" := CFloat s]> r
              | None => r
              end) !! occupancy_key (Z.of_nat i) = r !! occupancy_key (Z.of_nat i)).
  { intros r. destruct (anomaly_score f); [|reflexivity].
    apply lookup_insert_ne, not_eq_sym, plain_ne_occupancy, plain_anomaly. }
  rewrite Hb. apply add_bands_occupancy. intros j.
  rewrite !lookup_insert_ne
    by (apply not_eq_sym, plain_ne_occupancy; simpl; split; discriminate).
  apply lookup_empty.
Qed.

Lemma make_row_plain (f : FrameFeatures F) (lat lon : F) (tx ty : Z)
    (tid : string) (k : string) :
  plain k -> k <> "anomaly_score" ->
  make_row f lat lon tx ty tid !! k
  = (<["noise_floor_db" := CFloat (noise_floor_db f)]>
     (<["tile_y" := CInt ty]>
     (<["tile_x" := CInt tx]>
     (<["tile_id" := CStr tid]>
     (<["lon_deg" := CFloat lon]>
     (<["lat_deg" := CFloat lat]>
     (<["timestamp_ns" := CInt (timestamp_ns f)]>
     (<["frame_id" := CInt (frame_id f)]> (∅ : gmap string (cell F)))))))))) !! k.
Proof.
  intros Hk Hne. unfold make_row.
  destruct (anomaly_score f).
  - rewrite lookup_insert_ne by (apply not_eq_sym, Hne).
    apply add_bands_plain, Hk.
  - apply add_bands_plain, Hk.
Qed.

Lemma make_row_ok (n : Z) (f : FrameFeatures F) (lat lon : F) (tx ty : Z)
    (tid : string) :
  (n <= Z.of_nat (length (bandpower_db f)))%Z ->
  (n <= Z.of_nat (length (occupancy_pct f)))%Z ->
  row_ok n (make_row f lat lon tx ty tid).
Proof.
  intros Hb Ho. unfold row_ok, get_int, get_str.
  rewrite !make_row_plain by (simpl; (split; discriminate) || discriminate).
  repeat split; try (eexists; reflexivity).
  - replace i with (Z.of_nat (Z.to_nat i)) by lia.
    rewrite make_row_bandpower.
    destruct (lookup_lt_is_Some_2 (zip (bandpower_db f) (occupancy_pct f))
                (Z.to_nat i)) as [e ->]; [|eexists; reflexivity].
    rewrite length_zip_with. lia.
  - replace i with (Z.of_nat (Z.to_nat i)) by lia.
    rewrite make_row_occupancy.
    destruct (lookup_lt_is_Some_2 (zip (bandpower_db f) (occupancy_pct f))
                (Z.to_nat i)) as [e ->]; [|eexists; reflexivity].
    rewrite length_zip_with. lia.
Qed.

(** *** [add_frame] *)

Lemma add_frame_located (a : TileAggregator F) (f : FrameFeatures F)
    (lat lon : F) :
  lat_deg f = Some lat -> lon_deg f = Some lon ->
  in_grid_bounds (tile_grid a) lat lon = true ->
  exists tx ty tid,
    get_tile (tile_grid a) lat lon = (tx, ty, tid)
    /\ add_frame a f
       = set_frame_buffer a (frame_buffer a ++ [make_row f lat lon tx ty tid]).
Proof.
  intros Hlat Hlon Hin. unfold add_frame. rewrite Hlat, Hlon.
  unfold get_tile. rewrite Hin. simpl. eauto.
Qed.

Lemma add_frame_skips (a : TileAggregator F) (f : FrameFeatures F) :
  lat_deg f = None \/ lon_deg f = None
  \/ (exists lat lon, lat_deg f = Some lat /\ lon_deg f = Some lon
        /\ in_grid_bounds (tile_grid a) lat lon = false) ->
  add_frame a f = a.
Proof.
  unfold add_frame. intros [E|[E|(lat & lon & E1 & E2 & E3)]].
  - rewrite E. reflexivity.
  - rewrite E. destruct (lat_deg f); reflexivity.
  - rewrite E1, E2. rewrite (get_tile_out_of_bounds _ _ _ E3). reflexivity.
Qed.

(** *** [aggregate] *)

Lemma set_frame_buffer_same (a : TileAggregator F) :
  set_frame_buffer a (frame_buffer a) = a.
Proof. destruct a. reflexivity. Qed.

Lemma aggregate_empty (a : TileAggregator F) :
  frame_buffer a = [] -> aggregate a = (Ok [], a).
Proof. intros E. unfold aggregate. rewrite E. reflexivity. Qed.

Lemma aggregate_returns (a a' : TileAggregator F) (ms : list (TileMetrics F)) :
  aggregate a = (Ok ms, a') ->
  a' = set_frame_buffer a [] /\ frame_buffer a' = [].
Proof.
  unfold aggregate.
  destruct (frame_buffer a) as [|r b] eqn:Eb.
  - simpl. intros [= <- <-]. rewrite <- Eb, set_frame_buffer_same. auto.
  - simpl length. cbv iota beta.
    replace (S (length b) =? 0)%nat with false by reflexivity.
    destruct (negb (has_column (r :: b) "tile_id")); [discriminate|].
    destruct (negb (forallb _ _)); [discriminate|].
    destruct (mapM _ _); [|discriminate].
    intros [= <- <-]. auto.
Qed.

Lemma aggregate_raises (a a' : TileAggregator F) (e : exn) :
  aggregate a = (Raise e, a') -> a' = a.
Proof.
  unfold aggregate.
  destruct (length (frame_buffer a) =? 0)%nat; [discriminate|].
  destruct (negb (has_column _ "tile_id")); [intros [= _ <-]; reflexivity|].
  destruct (negb (forallb _ _)); [intros [= _ <-]; reflexivity|].
  destruct (mapM _ _); [discriminate|].
  intros [= _ <-]. reflexivity.
Qed.

Lemma mapM_ok {A B : Type} (f : A -> result B) (l : list A) :
  (forall x, x ∈ l -> exists y, f x = Ok y) ->
  exists ys, mapM f l = Ok ys.
Proof.
  induction l as [|x l IH]; intros Hl.
  - exists []. reflexivity.
  - destruct (Hl x) as [y Hy]; [left|].
    destruct IH as [ys Hys]; [intros x' Hx'; apply Hl; right; exact Hx'|].
    exists (y :: ys). simpl. rewrite Hy. simpl. rewrite Hys. reflexivity.
Qed.

Lemma mapM_ok_inv {A B : Type} (f : A -> result B) (l : list A) (ys : list B) :
  mapM f l = Ok ys -> Forall2 (fun x y => f x = Ok y) l ys.
Proof.
  revert ys. induction l as [|x l IH]; intros ys.
  - simpl. intros [= <-]. constructor.
  - simpl. destruct (f x) as [y|e] eqn:Ey; [|discriminate]. simpl.
    destruct (mapM f l) as [ys'|e]; [|discriminate]. simpl.
    intros [= <-]. constructor; [exact Ey | apply IH; reflexivity].
Qed.

Lemma has_column_intro (df : list (gmap string (cell F)))
    (r : gmap string (cell F)) (c : string) :
  r ∈ df -> is_Some (r !! c) -> has_column df c = true.
Proof.
  intros Hr Hc. unfold has_column, columns. apply bool_decide_eq_true.
  apply elem_of_union_list. exists (dom r). split.
  - apply list_elem_of_fmap. exists r. auto.
  - apply elem_of_dom, Hc.
Qed.

Lemma get_int_is_Some (r : gmap string (cell F)) (c : string) :
  is_Some (get_int r c) -> is_Some (r !! c).
Proof. unfold get_int. destruct (r !! c); [eauto | intros [? [=]]]. Qed.

Lemma get_str_is_Some (r : gmap string (cell F)) (c : string) :
  is_Some (get_str r c) -> is_Some (r !! c).
Proof. unfold get_str. destruct (r !! c); [eauto | intros [? [=]]]. Qed.

Lemma omap_is_cons {A B : Type} (f : A -> option B) (l : list A) (x : A) :
  x ∈ l -> is_Some (f x) -> exists y ys, omap f l = y :: ys.
Proof.
  intros Hx [y Hy].
  assert (Hel : y ∈ omap f l) by (apply list_elem_of_omap; eauto).
  destruct (omap f l) as [|y' ys]; [inversion Hel | eauto].
Qed.

Lemma summarise_ok (a : TileAggregator F) (df : list (gmap string (cell F)))
    (k : string) :
  Forall (row_ok (num_bands a)) df ->
  k ∈ group_keys df ->
  exists m, summarise a df k = Ok m.
Proof.
  intros Hok Hk. unfold summarise.
  destruct (tile_lookup (tile_grid a) !! k) as [tile|]; [|eauto].
  apply elem_of_remove_dups, list_elem_of_omap in Hk as (r & Hr & Hrk).
  assert (Hg : r ∈ group df k)
    by (apply list_elem_of_filter; split; assumption).
  rewrite Forall_forall in Hok.
  destruct (Hok r Hr) as (_ & Hts & Htx & Hty & _).
  destruct (omap_is_cons (fun r => get_int r "tile_x") _ r Hg Htx)
    as (x & xs & Ex).
  destruct (omap_is_cons (fun r => get_int r "tile_y") _ r Hg Hty)
    as (y & ys & Ey).
  destruct (omap_is_cons (fun r => get_int r "timestamp_ns") _ r Hg Hts)
    as (t & ts & Et).
  unfold agg_first_int, agg_min_int, agg_max_int.
  rewrite Ex, Ey, Et. simpl. eauto.
Qed.

(** With the columns in place, [aggregate] returns. *)
Lemma aggregate_total (a : TileAggregator F) :
  Forall (row_ok (num_bands a)) (frame_buffer a) ->
  exists ms, aggregate a = (Ok ms, set_frame_buffer a []).
Proof.
  intros Hok.
  destruct (frame_buffer a) as [|r b] eqn:Eb.
  { exists []. rewrite (aggregate_empty a Eb).
    rewrite <- Eb, set_frame_buffer_same. reflexivity. }
  assert (Hr : r ∈ r :: b) by left.
  pose proof Hok as Hok'. rewrite Forall_forall in Hok'.
  destruct (Hok' r Hr) as (Hid & Hts & Htx & Hty & Htid & Hbands).
  assert (Htile : negb (has_column (r :: b) "tile_id") = false).
  { rewrite (has_column_intro _ r "tile_id" Hr (get_str_is_Some _ _ Htid)).
    reflexivity. }
  assert (Hcols : negb (forallb (has_column (r :: b))
                          (agg_columns (num_bands a) (r :: b))) = false).
  { apply negb_false_iff, forallb_forall. intros c Hc. unfold agg_columns in Hc.
    apply in_app_or in Hc as [Hc|Hc].
    - simpl in Hc.
      destruct Hc as [<-|[<-|[<-|[<-|[]]]]];
        apply (has_column_intro _ r _ Hr), get_int_is_Some; assumption.
    - apply in_app_or in Hc as [Hc|Hc].
      + apply list_elem_of_In, list_elem_of_bind in Hc as (i & Hc & Hi).
        apply elem_of_range in Hi. destruct (Hbands i Hi) as [Hb Ho].
        apply elem_of_cons in Hc as [->|Hc];
          [exact (has_column_intro _ r _ Hr Hb)|].
        apply list_elem_of_singleton in Hc as ->.
        exact (has_column_intro _ r _ Hr Ho).
      + destruct (has_column (r :: b) "anomaly_score") eqn:Ea;
          [|destruct Hc].
        destruct Hc as [<-|[]]. exact Ea. }
  destruct (mapM_ok (summarise a (r :: b)) (group_keys (r :: b)))
    as [ms Hms].
  { intros k Hk. apply summarise_ok; assumption. }
  exists (omap (fun m => m) ms).
  unfold aggregate. rewrite Eb. cbv zeta.
  replace (length (r :: b) =? 0)%nat with false by reflexivity.
  rewrite Htile, Hcols, Hms. reflexivity.
Qed.

(** Every summary carries exactly [num_bands] entries per band list. *)
Lemma summarise_lengths (a : TileAggregator F)
    (df : list (gmap string (cell F))) (k : string) (m : TileMetrics F) :
  summarise a df k = Ok (Some m) ->
  length (bandpower_mean_db m) = Z.to_nat (num_bands a)
  /\ length (bandpower_max_db m) = Z.to_nat (num_bands a)
  /\ length (occupancy_mean_pct m) = Z.to_nat (num_bands a).
Proof.
  unfold summarise.
  destruct (tile_lookup (tile_grid a) !! k) as [tile|]; [|discriminate].
  destruct (to_int (agg_first_int _ "tile_x")); [|discriminate]. simpl.
  destruct (to_int (agg_first_int _ "tile_y")); [|discriminate]. simpl.
  destruct (to_int_from_float (agg_min_int _ _)); [|discriminate]. simpl.
  destruct (to_int_from_float (agg_max_int _ _)); [|discriminate]. simpl.
  intros [= <-]. simpl.
  unfold range. rewrite !length_map, !length_seq. auto.
Qed.

Lemma aggregate_lengths (a a' : TileAggregator F) (ms : list (TileMetrics F))
    (m : TileMetrics F) :
  aggregate a = (Ok ms, a') -> m ∈ ms ->
  length (bandpower_mean_db m) = Z.to_nat (num_bands a)
  /\ length (bandpower_max_db m) = Z.to_nat (num_bands a)
  /\ length (occupancy_mean_pct m) = Z.to_nat (num_bands a).
Proof.
  unfold aggregate.
  destruct (length (frame_buffer a) =? 0)%nat.
  { intros [= <- _] Hm. inversion Hm. }
  destruct (negb (has_column _ "tile_id")); [discriminate|].
  destruct (negb (forallb _ _)); [discriminate|].
  destruct (mapM _ _) as [oms|] eqn:Em; [|discriminate].
  intros [= <- _] Hm.
  apply list_elem_of_omap in Hm as (om & Hom & ->).
  apply mapM_ok_inv in Em.
  apply list_elem_of_lookup_1 in Hom as [i Hi].
  destruct (Forall2_lookup_r _ _ _ _ _ Em Hi) as (k & _ & Hk).
  eapply summarise_lengths. exact Hk.
Qed.

Lemma add_frame_keeps_ok (a : TileAggregator F) (f : FrameFeatures F) :
  (num_bands a <= Z.of_nat (length (bandpower_db f)))%Z ->
  (num_bands a <= Z.of_nat (length (occupancy_pct f)))%Z ->
  Forall (row_ok (num_bands a)) (frame_buffer a) ->
  Forall (row_ok (num_bands a)) (frame_buffer (add_frame a f)).
Proof.
  intros Hb Ho Hok. unfold add_frame.
  destruct (lat_deg f) as [lat|]; [|exact Hok].
  destruct (lon_deg f) as [lon|]; [|exact Hok].
  destruct (get_tile (tile_grid a) lat lon) as [[tx ty] tid].
  destruct (String.eqb tid "out_of_bounds"); [exact Hok|].
  simpl. apply Forall_app. split; [exact Hok|].
  constructor; [|constructor]. apply make_row_ok; assumption.
Qed.

Lemma add_frame_fields (a : TileAggregator F) (f : FrameFeatures F) :
  num_bands (add_frame a f) = num_bands a
  /\ tile_grid (add_frame a f) = tile_grid a
  /\ aggregate_window_frames (add_frame a f) = aggregate_window_frames a.
Proof.
  unfold add_frame.
  destruct (lat_deg f) as [lat|]; [|auto].
  destruct (lon_deg f) as [lon|]; [|auto].
  destruct (get_tile (tile_grid a) lat lon) as [[tx ty] tid].
  destruct (String.eqb tid "out_of_bounds"); auto.
Qed.

Lemma reachable_invariant (g : TileGrid F) (window n : Z)
    (a : TileAggregator F) :
  reachable g window n a ->
  num_bands a = n /\ tile_grid a = g
  /\ Forall (row_ok n) (frame_buffer a).
Proof.
  induction 1 as [|a f _ (Hn & Hg & Hok) [Hb Ho]|a _ (Hn & Hg & Hok)
                  |a _ (Hn & Hg & Hok)].
  - simpl. repeat split. constructor.
  - destruct (add_frame_fields a f) as (En & Eg & _).
    rewrite En, Eg. split; [exact Hn|]. split; [exact Hg|].
    rewrite <- Hn. apply add_frame_keeps_ok; [lia | lia |].
    rewrite Hn. exact Hok.
  - destruct (aggregate a) as [[ms|e] a'] eqn:Ea; simpl.
    + apply aggregate_returns in Ea as [-> _]. simpl.
      split; [exact Hn|]. split; [exact Hg|]. constructor.
    + apply aggregate_raises in Ea as ->. auto.
  - unfold flush. destruct (aggregate a) as [[ms|e] a'] eqn:Ea; simpl.
    + apply aggregate_returns in Ea as [-> _]. simpl.
      split; [exact Hn|]. split; [exact Hg|]. constructor.
    + apply aggregate_raises in Ea as ->. auto.
Qed.


(** C5 (amended).  The aggregator does not compare a record's band lists
    with the configured band count.  [add_frame], which cannot raise, appends
    a located record whatever the lengths of its band lists; the row holds
    the pairs [zip] yields, that is one bandpower and one occupancy cell for
    every index below the shorter length and none from there on.
    [aggregate] reads the columns of the first [num_bands] indices only, so
    each summary it returns has band lists of length [num_bands], and it
    returns whenever the buffered rows and the new record have at least
    [num_bands] band entries: the surplus is dropped without an error. *)
Theorem band_count_is_not_validated (a : TileAggregator F)
    (f : FrameFeatures F) (lat lon : F) :
  lat_deg f = Some lat -> lon_deg f = Some lon ->
  in_grid_bounds (tile_grid a) lat lon = true ->
  exists row,
    frame_buffer (add_frame a f) = frame_buffer a ++ [row]
    /\ (forall (i : nat) b o,
          bandpower_db f !! i = Some b -> occupancy_pct f !! i = Some o ->
          row !! bandpower_key (Z.of_nat i) = Some (CFloat b)
          /\ row !! occupancy_key (Z.of_nat i) = Some (CFloat o))
    /\ (forall i : nat,
          (length (bandpower_db f) <= i)%nat
          \/ (length (occupancy_pct f) <= i)%nat ->
          row !! bandpower_key (Z.of_nat i) = None
          /\ row !! occupancy_key (Z.of_nat i) = None)
    /\ (forall ms a' m,
          aggregate (add_frame a f) = (Ok ms, a') -> m ∈ ms ->
          length (bandpower_mean_db m) = Z.to_nat (num_bands a)
          /\ length (bandpower_max_db m) = Z.to_nat (num_bands a)
          /\ length (occupancy_mean_pct m) = Z.to_nat (num_bands a))
    /\ ((num_bands a <= Z.of_nat (length (bandpower_db f)))%Z ->
        (num_bands a <= Z.of_nat (length (occupancy_pct f)))%Z ->
        Forall (row_ok (num_bands a)) (frame_buffer a) ->
        exists ms,
          aggregate (add_frame a f) = (Ok ms, set_frame_buffer a [])).
Proof.
  intros Hlat Hlon Hin.
  destruct (add_frame_located a f lat lon Hlat Hlon Hin)
    as (tx & ty & tid & _ & Hadd).
  exists (make_row f lat lon tx ty tid).
  split; [rewrite Hadd; reflexivity|]. split.
  { intros i b o Hb Ho.
    rewrite make_row_bandpower, make_row_occupancy.
    assert (E : zip (bandpower_db f) (occupancy_pct f) !! i = Some (b, o)).
    { apply lookup_zip_with_Some. eauto. }
    rewrite E. auto. }
  split.
  { intros i Hi. rewrite make_row_bandpower, make_row_occupancy.
    rewrite lookup_ge_None_2; [auto|].
    rewrite length_zip_with. lia. }
  split.
  { intros ms a' m Ha Hm.
    destruct (add_frame_fields a f) as (<- & _ & _).
    eapply aggregate_lengths; eassumption. }
  intros Hb Ho Hok.
  pose proof (add_frame_keeps_ok a f Hb Ho Hok) as Hok'.
  destruct (add_frame_fields a f) as (En & _ & _).
  rewrite <- En in Hok'.
  destruct (aggregate_total _ Hok') as [ms Hms].
  exists ms. rewrite Hms. f_equal. rewrite Hadd. reflexivity.
Qed.

End Generic.

(** *** On doubles *)

Lemma scenario_B_center_in_bounds :
  on_grid scenario_B (fun g => in_grid_bounds g 37%float (-122)%float)
  = Some true.
Proof. vm_compute. reflexivity. Qed.

(** C5, as stated, fails: with two bands configured, a record that carries
    three is buffered by [add_frame] and aggregated without any error, its
    third band gone from the summary. *)
Lemma surplus_band_is_dropped_silently :
  on_grid scenario_B (fun g =>
    let a := add_frame (TileAggregator_init g 5 2) three_band_record in
    (length (frame_buffer a),
     match aggregate a with
     | (Ok ms, a') =>
         Some (map (fun m => (tm_tile_id m, frame_count m, bandpower_mean_db m,
                              bandpower_max_db m, occupancy_mean_pct m)) ms,
               length (frame_buffer a'))
     | (Raise _, _) => None
     end))
  = Some (1%nat,
          Some ([("tile_x5_y4", 1%Z,
                  [(-50)%float; (-60)%float], [(-50)%float; (-60)%float],
                  [10%float; 20%float])],
                0%nat)).
Proof. vm_compute. reflexivity. Qed.

(** A record whose bandpower and occupancy lists differ in length is
    buffered too, cut to the shorter list. *)
Lemma ragged_record_is_truncated :
  on_grid scenario_B (fun g =>
    let a := add_frame (TileAggregator_init g 5 1) ragged_record in
    (fun r => (r !! bandpower_key 0, r !! occupancy_key 0,
               r !! bandpower_key 1, r !! occupancy_key 1,
               r !! bandpower_key 2))
    <$> frame_buffer a)
  = Some [(Some (CFloat (-50)%float), Some (CFloat 10%float), None, None, None)].
Proof. vm_compute. reflexivity. Qed.


(** The theorem on the scenario-B grid, with two bands configured and the
    three-band record. *)
Lemma band_count_is_not_validated_witness :
  match scenario_B with
  | Ok g =>
      exists row,
        frame_buffer (add_frame (TileAggregator_init g 5 2) three_band_record)
        = [row]
        /\ row !! bandpower_key 2 = Some (CFloat (-70)%float)
        /\ exists ms,
             aggregate (add_frame (TileAggregator_init g 5 2) three_band_record)
             = (Ok ms, TileAggregator_init g 5 2)
  | Raise _ => False
  end.
Proof.
  pose proof scenario_B_center_in_bounds as Hin.
  destruct scenario_B as [g|e]; [|discriminate Hin].
  simpl in Hin. injection Hin as Hin.
  destruct (band_count_is_not_validated (TileAggregator_init g 5 2)
              three_band_record 37%float (-122)%float eq_refl eq_refl Hin)
    as (row & Hrow & Hcells & _ & _ & Hagg).
  exists row. split; [exact Hrow|]. split.
  - apply (Hcells 2%nat (-70)%float 30%float); reflexivity.
  - apply Hagg; [simpl; lia | simpl; lia | constructor].
Defined.


(** The same history, evaluated: two rows are buffered, one summary of two
    frames comes out, and the buffer is empty afterwards. *)
Lemma aggregate_clears_buffer_evaluated :
  on_grid scenario_B (fun g =>
    let a := add_frame (add_frame (TileAggregator_init g 5 3)
                          three_band_record) three_band_record in
    (length (frame_buffer a), should_aggregate a,
     match aggregate a with
     | (Ok ms, a') =>
         Some (map (fun m => (tm_tile_id m, frame_count m)) ms,
               length (frame_buffer a'), is_ok (aggregate a').1)
     | (Raise _, _) => None
     end))
  = Some (2%nat, false, Some ([("tile_x5_y4", 2%Z)], 0%nat, true)).
Proof. vm_compute. reflexivity. Qed.

End AggregateFacts.

(** ** Spectral estimation *)

Module SpectralFacts.
Import DSP ExactFacts.

(** *** Broadcasting *)

Lemma broadcast_same_length {A B C : Type} (f : A -> B -> C)
    (xs : list A) (ys : list B) :
  length xs = length ys -> broadcast f xs ys = Ok (zip_with f xs ys).
Proof.
  intros E. unfold broadcast. rewrite E, Nat.eqb_refl. reflexivity.
Qed.

Lemma broadcast_mismatch {A B C : Type} (f : A -> B -> C)
    (xs : list A) (ys : list B) :
  length xs <> length ys -> length xs <> 1%nat -> length ys <> 1%nat ->
  broadcast f xs ys = Raise ValueError.
Proof.
  intros Hne Hx Hy. unfold broadcast.
  apply Nat.eqb_neq in Hne. rewrite Hne.
  destruct xs as [|x [|x' xs]]; destruct ys as [|y [|y' ys]];
    simpl in *; congruence.
Qed.

Lemma broadcast_length {A B C : Type} (f : A -> B -> C)
    (xs : list A) (ys : list B) (zs : list C) :
  broadcast f xs ys = Ok zs ->
  length zs = if (length xs =? 1)%nat then length ys else length xs.
Proof.
  unfold broadcast. destruct (length xs =? length ys)%nat eqn:E.
  - apply Nat.eqb_eq in E. intros [= <-].
    rewrite length_zip_with. destruct (length xs =? 1)%nat; lia.
  - apply Nat.eqb_neq in E.
    destruct xs as [|x [|x' xs]]; destruct ys as [|y [|y' ys]];
      try discriminate; intros [= <-]; simpl in *;
      rewrite ?length_map; simpl; lia.
Qed.

(** *** Lengths *)

Lemma dft_length (x : list C) : length (dft x) = length x.
Proof. unfold dft. rewrite length_map, length_seq. reflexivity. Qed.

Lemma fftshift_length {A : Type} (x : list A) : length (fftshift x) = length x.
Proof.
  unfold fftshift. rewrite length_app, length_drop, length_take.
  assert (length x / 2 <= length x)%nat by (apply Nat.Div0.div_le_upper_bound; lia).
  lia.
Qed.

Lemma fftfreq_indices_length (n : nat) : length (fftfreq_indices n) = n.
Proof.
  unfold fftfreq_indices. rewrite length_app, !length_map, !length_seq.
  destruct n as [|n]; [reflexivity|].
  assert (H : (Z.of_nat (S n) - 1 = 2 * ((Z.of_nat (S n) - 1) / 2)
                                   + (Z.of_nat (S n) - 1) mod 2)%Z)
    by (apply Z.div_mod; lia).
  assert (H' : (Z.of_nat (S n) = 2 * (Z.of_nat (S n) / 2)
                                 + Z.of_nat (S n) mod 2)%Z)
    by (apply Z.div_mod; lia).
  pose proof (Z.mod_pos_bound (Z.of_nat (S n) - 1) 2 ltac:(lia)).
  pose proof (Z.mod_pos_bound (Z.of_nat (S n)) 2 ltac:(lia)).
  lia.
Qed.

Lemma fftfreq_length (n : nat) (d : R) : length (fftfreq n d) = n.
Proof. unfold fftfreq. rewrite length_map. apply fftfreq_indices_length. Qed.

Lemma linear_to_db_length (linear : list R) (floor_db : R) :
  length (linear_to_db linear floor_db) = length linear.
Proof. unfold linear_to_db. rewrite !length_map. reflexivity. Qed.

(** *** Frequency bins *)


Lemma fftshift_map {A B : Type} (f : A -> B) (l : list A) :
  fftshift (map f l) = map f (fftshift l).
Proof.
  unfold fftshift. rewrite length_map, map_app, skipn_map, firstn_map.
  reflexivity.
Qed.

Lemma half_of_nat (n : nat) : Z.to_nat (Z.of_nat n / 2) = (n / 2)%nat.
Proof.
  change 2%Z with (Z.of_nat 2). rewrite <- Nat2Z.inj_div. apply Nat2Z.id.
Qed.

Lemma upper_half_of_nat (n : nat) :
  Z.to_nat ((Z.of_nat n - 1) / 2 + 1) = (n - n / 2)%nat.
Proof.
  destruct n as [|n]; [reflexivity|].
  pose proof (fftfreq_indices_length (S n)) as Hl.
  unfold fftfreq_indices in Hl.
  rewrite length_app, !length_map, !length_seq, half_of_nat in Hl.
  assert (S n / 2 <= S n)%nat by (apply Nat.Div0.div_le_upper_bound; lia).
  lia.
Qed.

Lemma fftshift_fftfreq_indices (n : nat) :
  fftshift (fftfreq_indices n) = consecutive (- Z.of_nat (n / 2)) n.
Proof.
  unfold fftshift. rewrite fftfreq_indices_length.
  unfold fftfreq_indices. rewrite half_of_nat, upper_half_of_nat.
  assert (Hh : (n / 2 <= n)%nat) by (apply Nat.Div0.div_le_upper_bound; lia).
  rewrite drop_app_length', take_app_length'
    by (rewrite length_map, length_seq; reflexivity).
  unfold consecutive.
  assert (Hs : seq 0 n = seq 0 (n / 2) ++ seq (0 + n / 2) (n - n / 2))
    by (rewrite <- seq_app; f_equal; lia).
  rewrite Hs, map_app. f_equal.
  - apply map_ext_in. intros j _. rewrite Nat2Z.inj_div. simpl. lia.
  - replace (0 + n / 2)%nat with (n / 2 + 0)%nat by lia.
    rewrite <- (fmap_add_seq (n / 2) 0).
    change (map ?f (?g <$> ?l)) with (map f (map g l)). rewrite map_map.
    apply map_ext_in. intros j _. lia.
Qed.




(** *** The dB floor *)

Lemma ln_10_pos : 0 < ln 10.
Proof. rewrite <- ln_1. apply ln_increasing; lra. Qed.

Lemma log10_Rpower (y : R) : log10 (Rpower 10 y) = y.
Proof.
  unfold log10, Rpower. rewrite ln_exp. field.
  apply Rgt_not_eq, ln_10_pos.
Qed.

Lemma log10_le (x y : R) : 0 < x -> x <= y -> log10 x <= log10 y.
Proof.
  intros Hx Hxy. unfold log10.
  apply Rmult_le_compat_r; [apply Rlt_le, Rinv_0_lt_compat, ln_10_pos|].
  destruct Hxy as [Hlt | ->]; [|lra].
  apply Rlt_le, ln_increasing; assumption.
Qed.


(** Silence is clamped to the floor exactly. *)
Lemma linear_to_db_zero (floor_db : R) :
  linear_to_db [0] floor_db = [floor_db].
Proof.
  unfold linear_to_db. simpl.
  assert (Hfl : 0 < Rpower 10 (floor_db / 10)) by (unfold Rpower; apply exp_pos).
  rewrite Rmax_right by lra. rewrite log10_Rpower. f_equal. field.
Qed.

(** *** [compute_fft_psd] *)

Lemma compute_fft_psd_eq (frame : IQFrame) (window : list R) (wpc : R) :
  compute_fft_psd frame window wpc
  = match broadcast Cscale (iq frame) window with
    | Raise e => Raise e
    | Ok [] => Raise ValueError
    | Ok w =>
        if Exact.eqb (sample_rate_sps frame) 0 then Raise ZeroDivisionError
        else
          let lin := psd_linear_of w (sample_rate_sps frame) wpc in
          Ok (fftshift (fftfreq (length w) (1 / sample_rate_sps frame)),
              linear_to_db lin default_floor_db, lin)
    end.
Proof.
  unfold compute_fft_psd, mbind, result_bind.
  destruct (broadcast Cscale (iq frame) window) as [w|e]; [|reflexivity].
  destruct w as [|z w]; [reflexivity|].
  unfold compute_fft, compute_psd, psd_linear_of. rewrite dft_length.
  destruct (Exact.eqb (sample_rate_sps frame) 0); reflexivity.
Qed.

Lemma compute_fft_psd_inv (frame : IQFrame) (window : list R) (wpc : R)
    (fb db lin : list R) :
  compute_fft_psd frame window wpc = Ok (fb, db, lin) ->
  exists w,
    broadcast Cscale (iq frame) window = Ok w
    /\ w <> []
    /\ sample_rate_sps frame <> 0
    /\ fb = fftshift (fftfreq (length w) (1 / sample_rate_sps frame))
    /\ lin = psd_linear_of w (sample_rate_sps frame) wpc
    /\ db = linear_to_db lin default_floor_db.
Proof.
  rewrite compute_fft_psd_eq.
  destruct (broadcast Cscale (iq frame) window) as [w|e]; [|discriminate].
  destruct w as [|z w]; [discriminate|].
  destruct (Exact.eqb (sample_rate_sps frame) 0) eqn:Esr; [discriminate|].
  cbv zeta. intros [= <- <- <-].
  exists (z :: w). repeat split; try reflexivity; try discriminate.
  intros E0. unfold Exact.eqb in Esr.
  destruct (Req_dec_T (sample_rate_sps frame) 0); [discriminate|contradiction].
Qed.

Lemma psd_linear_of_length (w : list C) (sr wpc : R) :
  length (psd_linear_of w sr wpc) = length w.
Proof.
  unfold psd_linear_of. rewrite fftshift_length, !length_map, dft_length.
  reflexivity.
Qed.

Lemma compute_fft_psd_total (frame : IQFrame) (window : list R) (wpc : R)
    (w : list C) :
  broadcast Cscale (iq frame) window = Ok w ->
  w <> [] -> sample_rate_sps frame <> 0 ->
  exists fb db lin,
    compute_fft_psd frame window wpc = Ok (fb, db, lin)
    /\ length db = length w.
Proof.
  intros Hw Hne Hsr. rewrite compute_fft_psd_eq, Hw.
  destruct w as [|z w]; [congruence|].
  rewrite (exact_eqb_false _ _ Hsr). cbv zeta.
  do 3 eexists. split; [reflexivity|].
  rewrite linear_to_db_length, psd_linear_of_length. reflexivity.
Qed.


(** *** The clamp in single precision *)






End SpectralFacts.

(** ** The EMA filter *)

Module SmoothingFacts.
Import DSP SpectralFacts.

Lemma update_fresh (f : EMAFilter) (x : list R) :
  _state f = None -> update f x = (Ok x, set_state f (Some x)).
Proof. intros E. unfold update. rewrite E. reflexivity. Qed.

Lemma update_same_length (f : EMAFilter) (s x : list R) :
  _state f = Some s -> length s = length x ->
  update f x
  = (Ok (zip_with Rplus (map (Rmult (alpha f)) x) (map (Rmult (1 - alpha f)) s)),
     set_state f (Some (zip_with Rplus (map (Rmult (alpha f)) x)
                                       (map (Rmult (1 - alpha f)) s)))).
Proof.
  intros E Hl. unfold update. rewrite E.
  rewrite broadcast_same_length by (rewrite !length_map; lia). reflexivity.
Qed.

Lemma update_raises (f f' : EMAFilter) (x : list R) (e : exn) :
  update f x = (Raise e, f') -> f' = f.
Proof.
  unfold update. destruct (_state f); [|discriminate].
  destruct (broadcast _ _ _); [discriminate|].
  intros [= _ <-]. reflexivity.
Qed.

Lemma update_returns (f f' : EMAFilter) (x y : list R) :
  update f x = (Ok y, f') ->
  _state f' = Some y /\ alpha f' = alpha f /\ size f' = size f.
Proof.
  unfold update. destruct (_state f).
  - destruct (broadcast _ _ _); [|discriminate].
    intros [= <- <-]. auto.
  - intros [= <- <-]. auto.
Qed.

Lemma ema_alpha_one (x s : list R) :
  length s = length x ->
  zip_with Rplus (map (Rmult 1) x) (map (Rmult (1 - 1)) s) = x.
Proof.
  revert s. induction x as [|a x IH]; intros [|b s] Hl; try discriminate Hl.
  - reflexivity.
  - simpl. f_equal; [lra|]. apply IH. simpl in Hl. lia.
Qed.

(** With [alpha = 1] a call returns its input and leaves it as the state. *)
Lemma update_alpha_one (f : EMAFilter) (x : list R) :
  alpha f = 1 ->
  (forall s, _state f = Some s -> length s = length x) ->
  update f x = (Ok x, set_state f (Some x)).
Proof.
  intros Ha Hs. destruct (_state f) as [s|] eqn:E.
  - rewrite (update_same_length f s x E (Hs s eq_refl)).
    rewrite Ha, ema_alpha_one by (apply Hs; reflexivity). reflexivity.
  - apply update_fresh, E.
Qed.

Lemma feed_alpha_one (f : EMAFilter) (n : nat) (xs : list (list R)) :
  alpha f = 1 ->
  (forall s, _state f = Some s -> length s = n) ->
  Forall (fun x => length x = n) xs ->
  (feed f xs).1 = map Ok xs.
Proof.
  intros Ha Hs Hxs. revert f Ha Hs.
  induction Hxs as [|x xs Hx _ IH]; intros f Ha Hs; [reflexivity|].
  simpl. rewrite update_alpha_one; [|exact Ha|].
  2:{ intros s E. rewrite Hx. apply Hs, E. }
  specialize (IH (set_state f (Some x)) Ha).
  destruct (feed (set_state f (Some x)) xs) as [ys f''].
  simpl in *. f_equal. apply IH. intros s [= <-]. exact Hx.
Qed.

(** *** Arrays by reference *)

Lemma ref_update_first_call (f : EMAFilterRef.t)
    (h : gmap positive (list R)) (new_value : positive) (v : list R) :
  EMAFilterRef._state f = None ->
  h !! new_value = Some v ->
  exists l,
    EMAFilterRef.update f h new_value
    = (Ok l, EMAFilterRef.set_state f (Some l), <[l := v]> h)
    /\ l <> new_value
    /\ h !! l = None.
Proof.
  intros Ef Hv. exists (fresh (dom h)).
  assert (Hfresh : fresh (dom h) ∉ dom h) by apply is_fresh.
  split; [|split].
  - unfold EMAFilterRef.update, EMAFilterRef.copy, EMAFilterRef.alloc.
    rewrite Ef. rewrite (lookup_total_correct _ _ _ Hv). reflexivity.
  - intros E. apply Hfresh. rewrite E. apply elem_of_dom. eauto.
  - apply not_elem_of_dom, Hfresh.
Qed.

(** On every call that returns, the array returned and stored is a new
    one: it is not the caller's array, whose contents are untouched. *)
Lemma ref_update_returns (f f' : EMAFilterRef.t)
    (h h' : gmap positive (list R)) (new_value l : positive) :
  is_Some (h !! new_value) ->
  EMAFilterRef.update f h new_value = (Ok l, f', h') ->
  l <> new_value
  /\ h !! l = None
  /\ EMAFilterRef._state f' = Some l
  /\ h' !! new_value = h !! new_value
  /\ (forall v', <[new_value := v']> h' !! l = h' !! l).
Proof.
  intros Hv.
  assert (Hfresh : fresh (dom h) ∉ dom h) by apply is_fresh.
  assert (Hne : fresh (dom h) <> new_value).
  { intros E. apply Hfresh. rewrite E. apply elem_of_dom, Hv. }
  unfold EMAFilterRef.update, EMAFilterRef.copy, EMAFilterRef.alloc.
  destruct (EMAFilterRef._state f) as [s|].
  - destruct (broadcast Rplus _ _) as [y|e]; [|discriminate].
    intros [= <- <- <-]. split; [exact Hne|].
    split; [apply not_elem_of_dom, Hfresh|]. split; [reflexivity|].
    split; [apply lookup_insert_ne, Hne|].
    intros v'. apply lookup_insert_ne, not_eq_sym, Hne.
  - intros [= <- <- <-]. split; [exact Hne|].
    split; [apply not_elem_of_dom, Hfresh|]. split; [reflexivity|].
    split; [apply lookup_insert_ne, Hne|].
    intros v'. apply lookup_insert_ne, not_eq_sym, Hne.
Qed.

(** The filter on references does what the filter on values does. *)
Lemma ref_update_refines (f : EMAFilterRef.t)
    (h : gmap positive (list R)) (new_value : positive) :
  match EMAFilterRef.update f h new_value,
        update (EMAFilterRef.contents h f) (h !!! new_value) with
  | (Ok l, f', h'), (Ok y, g') =>
      h' !! l = Some y /\ EMAFilterRef.contents h' f' = g'
      /\ (forall l', is_Some (h !! l') -> h' !! l' = h !! l')
  | (Raise e, f', h'), (Raise e', g') =>
      e = e' /\ f' = f /\ h' = h /\ g' = EMAFilterRef.contents h f
  | _, _ => False
  end.
Proof.
  assert (Hfresh : fresh (dom h) ∉ dom h) by apply is_fresh.
  assert (Hkeep : forall (y : list R) l', is_Some (h !! l') ->
            <[fresh (dom h) := y]> h !! l' = h !! l').
  { intros y l' Hl'. apply lookup_insert_ne. intros E. apply Hfresh.
    rewrite E. apply elem_of_dom, Hl'. }
  unfold EMAFilterRef.update, update, EMAFilterRef.contents,
    EMAFilterRef.copy, EMAFilterRef.alloc.
  destruct (EMAFilterRef._state f) as [s|]; simpl.
  - destruct (broadcast Rplus _ _) as [y|e]; simpl.
    + rewrite lookup_insert_eq. split; [reflexivity|]. split; [|apply Hkeep].
      unfold set_state. simpl. rewrite lookup_total_insert_eq. reflexivity.
    + auto.
  - rewrite lookup_insert_eq. split; [reflexivity|]. split; [|apply Hkeep].
    unfold set_state. simpl. rewrite lookup_total_insert_eq. reflexivity.
Qed.

(** C9.  With [alpha = 1] the filter returns its input on every call of a
    run of equally long inputs.  On the first call after construction or
    after [reset] it returns its input, for any [alpha], and the state it
    stores is a new array with the input's contents: it is not the caller's
    array, and writing to the caller's array afterwards does not change it.
    On every later call too the state is a new array, never the caller's. *)
Theorem ema_identity_and_first_call :
  (forall (f : EMAFilter) (n : nat) (xs : list (list R)),
     alpha f = 1 ->
     (forall s, _state f = Some s -> length s = n) ->
     Forall (fun x => length x = n) xs ->
     (feed f xs).1 = map Ok xs)
  /\ (forall (a : R) (n : nat) (x : list R),
       update (EMAFilter_init a n) x
       = (Ok x, set_state (EMAFilter_init a n) (Some x)))
  /\ (forall (f : EMAFilter) (x : list R),
       update (reset_filter f) x = (Ok x, set_state f (Some x)))
  /\ (forall (a : R) (n : nat),
       EMAFilterRef._state (EMAFilterRef.init a n) = None)
  /\ (forall f : EMAFilterRef.t,
       EMAFilterRef._state (EMAFilterRef.reset f) = None)
  /\ (forall (f : EMAFilterRef.t) (h : gmap positive (list R))
            (new_value : positive) (v : list R),
       EMAFilterRef._state f = None ->
       h !! new_value = Some v ->
       exists l,
         EMAFilterRef.update f h new_value
         = (Ok l, EMAFilterRef.set_state f (Some l), <[l := v]> h)
         /\ l <> new_value
         /\ h !! l = None
         /\ <[l := v]> h !! l = Some v
         /\ <[l := v]> h !! new_value = Some v
         /\ (forall v', <[new_value := v']> (<[l := v]> h) !! l = Some v))
  /\ (forall (f f' : EMAFilterRef.t) (h h' : gmap positive (list R))
            (new_value l : positive),
       is_Some (h !! new_value) ->
       EMAFilterRef.update f h new_value = (Ok l, f', h') ->
       l <> new_value
       /\ h !! l = None
       /\ EMAFilterRef._state f' = Some l
       /\ h' !! new_value = h !! new_value
       /\ (forall v', <[new_value := v']> h' !! l = h' !! l)).
Proof.
  split; [exact feed_alpha_one|].
  split; [intros a n x; apply update_fresh; reflexivity|].
  split; [intros f x; exact (update_fresh (reset_filter f) x eq_refl)|].
  split; [reflexivity|]. split; [reflexivity|].
  split; [|exact ref_update_returns].
  intros f h new_value v Ef Hv.
  destruct (ref_update_first_call f h new_value v Ef Hv) as (l & Hu & Hne & Hl).
  exists l. split; [exact Hu|]. split; [exact Hne|]. split; [exact Hl|].
  split; [apply lookup_insert_eq|]. split.
  - rewrite lookup_insert_ne by exact Hne. exact Hv.
  - intros v'. rewrite lookup_insert_ne by (apply not_eq_sym, Hne).
    apply lookup_insert_eq.
Qed.

(** Two calls with [alpha = 1], and a first call through the store. *)
Lemma ema_identity_example :
  (feed (EMAFilter_init 1 2) [[1; 2]; [3; 4]]).1 = [Ok [1; 2]; Ok [3; 4]]
  /\ exists l,
       (EMAFilterRef.update (EMAFilterRef.init (1 / 2) 2) {[ 1%positive := [1; 2] ]}
          1%positive).1.1 = Ok l
       /\ l <> 1%positive.
Proof.
  destruct ema_identity_and_first_call as (Hfeed & _ & _ & _ & _ & Href & _).
  split.
  - apply (Hfeed (EMAFilter_init 1 2) 2%nat); [reflexivity | discriminate |].
    repeat constructor.
  - destruct (Href (EMAFilterRef.init (1 / 2) 2) {[ 1%positive := [1; 2] ]}
                1%positive [1; 2] eq_refl (lookup_singleton_eq _ _))
      as (l & Hu & Hne & _).
    exists l. rewrite Hu. auto.
Defined.

End SmoothingFacts.

(** ** The pipeline *)

Module PipelineFacts.
Import DSP ExactFacts SpectralFacts SmoothingFacts.

Lemma set_ema_filter_same (p : DSPPipeline) :
  set_ema_filter p (ema_filter p) = p.
Proof. destruct p. reflexivity. Qed.

(** *** Construction *)

Lemma general_cosine_length (M : nat) (a : list R) :
  length (general_cosine M a) = M.
Proof.
  unfold general_cosine. destruct (M <=? 1)%nat.
  - apply repeat_length.
  - rewrite length_map, length_seq. reflexivity.
Qed.

Lemma get_window_length (window_type0 : string) (n : nat) (w : list R) :
  get_window window_type0 n = Ok w -> length w = n.
Proof.
  unfold get_window.
  destruct (String.eqb window_type0 "hann");
    [intros [= <-]; apply general_cosine_length|].
  destruct (String.eqb window_type0 "hamming");
    [intros [= <-]; apply general_cosine_length|].
  destruct (String.eqb window_type0 "blackman");
    [intros [= <-]; apply general_cosine_length|].
  discriminate.
Qed.

Lemma get_window_unknown (window_type0 : string) (n : nat) :
  window_type0 ∉ ["hann"; "hamming"; "blackman"] ->
  get_window window_type0 n = Raise ValueError.
Proof.
  intros Hw. unfold get_window.
  destruct (String.eqb_spec window_type0 "hann") as [->|_].
  { exfalso. apply Hw. set_solver. }
  destruct (String.eqb_spec window_type0 "hamming") as [->|_].
  { exfalso. apply Hw. set_solver. }
  destruct (String.eqb_spec window_type0 "blackman") as [->|_].
  { exfalso. apply Hw. set_solver. }
  reflexivity.
Qed.

Lemma get_window_known (window_type0 : string) (n : nat) :
  window_type0 ∈ ["hann"; "hamming"; "blackman"] ->
  exists w, get_window window_type0 n = Ok w.
Proof.
  intros Hw. unfold get_window.
  destruct (String.eqb_spec window_type0 "hann") as [->|H1]; [eauto|].
  destruct (String.eqb_spec window_type0 "hamming") as [->|H2]; [eauto|].
  destruct (String.eqb_spec window_type0 "blackman") as [->|H3]; [eauto|].
  exfalso. revert Hw. rewrite !elem_of_cons, elem_of_nil. tauto.
Qed.

Lemma DSPPipeline_init_inv (n : nat) (wt : string) (sf pct : R)
    (bs : list Band.t) (p : DSPPipeline) :
  DSPPipeline_init n wt sf pct bs = Ok p ->
  fft_size p = n /\ length (window p) = n
  /\ smoothing_factor p = sf /\ alpha (ema_filter p) = sf
  /\ _state (ema_filter p) = None /\ gps_fixes p = []
  /\ noise_floor_percentile p = pct /\ bands p = bs.
Proof.
  unfold DSPPipeline_init, mbind, result_bind.
  destruct (get_window wt n) as [w|e] eqn:Ew; [|discriminate].
  intros [= <-]. simpl. repeat split; try reflexivity.
  eapply get_window_length, Ew.
Qed.

(** *** [process_frame] *)

Lemma process_frame_returns (p p' : DSPPipeline) (frame : IQFrame)
    (feat : FrameFeatures R) :
  process_frame p frame = (Ok feat, p') ->
  exists lin f',
    compute_fft_psd frame (window p) (window_power_correction p)
    = Ok (freq_bins_hz feat, psd_db feat, lin)
    /\ update (ema_filter p) (psd_db feat) = (Ok (psd_smoothed_db feat), f')
    /\ p' = set_ema_filter p f'
    /\ estimate_noise_floor (psd_smoothed_db feat) (noise_floor_percentile p)
       = Ok (noise_floor_db feat)
    /\ (bandpower_db feat, occupancy_pct feat)
       = extract_band_features (freq_bins_hz feat) (psd_db feat) lin (bands p)
           (center_freq_hz frame) (noise_floor_db feat)
    /\ lat_deg feat = GPSFix.lat_deg <$> last (gps_fixes p)
    /\ lon_deg feat = GPSFix.lon_deg <$> last (gps_fixes p)
    /\ frame_id feat = iq_frame_id frame
    /\ timestamp_ns feat = iq_timestamp_ns frame
    /\ anomaly_score feat = None.
Proof.
  unfold process_frame.
  destruct (compute_fft_psd frame (window p) (window_power_correction p))
    as [[[fb db] lin]|e]; [|discriminate].
  destruct (update (ema_filter p) db) as [[sm|e] f'] eqn:Eu; [|discriminate].
  simpl.
  destruct (estimate_noise_floor sm (noise_floor_percentile p))
    as [nf|e] eqn:En; [|discriminate].
  destruct (last (gps_fixes p)) as [g|]; intros [= <- <-]; simpl;
    exists lin, f'; repeat split; reflexivity || exact Eu || exact En.
Qed.

(** The records of a pipeline honour the band count of its band list, the
    invariant the aggregator relies on. *)
Lemma process_frame_band_lengths (p p' : DSPPipeline) (frame : IQFrame)
    (feat : FrameFeatures R) :
  process_frame p frame = (Ok feat, p') ->
  Aggregate.valid_record (Z.of_nat (length (bands p))) feat.
Proof.
  intros Hproc.
  apply process_frame_returns in Hproc
    as (lin & f' & _ & _ & _ & _ & Hbands & _).
  unfold extract_band_features in Hbands. injection Hbands as Hbp Hocc.
  unfold Aggregate.valid_record. rewrite Hbp, Hocc, !length_map. auto.
Qed.

(** The percentile raises for a rank outside [0, 100] and for nothing
    else. *)
Lemma percentile_returns_iff (a : list R) (q : R) :
  (exists v, percentile a q = Ok v) <-> 0 <= q <= 100.
Proof.
  unfold percentile. destruct (Exact.leb 0 q) eqn:E0; simpl.
  - destruct (Exact.leb q 100) eqn:E1.
    + apply exact_leb_true_iff in E0, E1. split; [lra | eauto].
    + split; [intros [v [=]] | intros [_ H]].
      apply exact_leb_true_iff in H. congruence.
  - split; [intros [v [=]] | intros [H _]].
    apply exact_leb_true_iff in H. congruence.
Qed.

Lemma percentile_raises (a : list R) (q : R) (e : exn) :
  percentile a q = Raise e -> e = ValueError /\ ~ 0 <= q <= 100.
Proof.
  intros Hp. split.
  - unfold percentile in Hp.
    destruct (Exact.leb 0 q && Exact.leb q 100); congruence.
  - intros Hq. apply (percentile_returns_iff a) in Hq as [v Hv]. congruence.
Qed.

Lemma percentile_out_of_range (a : list R) (q : R) :
  ~ 0 <= q <= 100 -> percentile a q = Raise ValueError.
Proof.
  intros Hq. destruct (percentile a q) as [v|e] eqn:E.
  - exfalso. apply Hq. eapply percentile_returns_iff. eauto.
  - apply percentile_raises in E as [-> _]. reflexivity.
Qed.

(** A call that raises leaves the pipeline as it was, apart from the state
    of the filter.  The filter is as it was, too, unless the exception is
    the percentile's: that one is raised after the update, with the new
    state stored. *)
Lemma process_frame_raises (p p' : DSPPipeline) (frame : IQFrame) (e : exn) :
  process_frame p frame = (Raise e, p') ->
  p' = p
  \/ exists fb db lin sm f',
       compute_fft_psd frame (window p) (window_power_correction p)
       = Ok (fb, db, lin)
       /\ update (ema_filter p) db = (Ok sm, f')
       /\ estimate_noise_floor sm (noise_floor_percentile p) = Raise e
       /\ p' = set_ema_filter p f'.
Proof.
  unfold process_frame.
  destruct (compute_fft_psd frame (window p) (window_power_correction p))
    as [[[fb db] lin]|e0]; [|intros [= _ <-]; left; reflexivity].
  destruct (update (ema_filter p) db) as [[sm|e1] f'] eqn:Eu.
  - simpl.
    destruct (estimate_noise_floor sm (noise_floor_percentile p))
      as [nf|e1] eqn:En.
    + destruct (last (gps_fixes p)); discriminate.
    + intros [= <- <-]. right. exists fb, db, lin, sm, f'. auto.
  - intros [= _ <-]. left. apply update_raises in Eu as ->.
    apply set_ema_filter_same.
Qed.

Lemma process_frame_raises_filter (p p' : DSPPipeline) (frame : IQFrame)
    (e : exn) :
  process_frame p frame = (Raise e, p') ->
  exists f, p' = set_ema_filter p f.
Proof.
  intros [->|(fb & db & lin & sm & f' & _ & _ & _ & ->)]%process_frame_raises.
  - exists (ema_filter p). symmetry. apply set_ema_filter_same.
  - eauto.
Qed.

Lemma process_frame_raises_in_range (p p' : DSPPipeline) (frame : IQFrame)
    (e : exn) :
  0 <= noise_floor_percentile p <= 100 ->
  process_frame p frame = (Raise e, p') -> p' = p.
Proof.
  intros Hq [->|(fb & db & lin & sm & f' & _ & _ & Hn & _)]%process_frame_raises;
    [reflexivity|].
  apply percentile_raises in Hn as [_ Hn]. contradiction.
Qed.

Lemma process_frame_gps_fixes (p : DSPPipeline) (frame : IQFrame) :
  gps_fixes (process_frame p frame).2 = gps_fixes p.
Proof.
  destruct (process_frame p frame) as [[feat|e] p'] eqn:E; simpl.
  - apply process_frame_returns in E as (lin & f' & _ & _ & -> & _).
    reflexivity.
  - apply process_frame_raises_filter in E as [f ->]. reflexivity.
Qed.

Lemma process_frame_total (p : DSPPipeline) (frame : IQFrame) (w : list C) :
  broadcast Cscale (iq frame) (window p) = Ok w ->
  w <> [] -> sample_rate_sps frame <> 0 ->
  (forall s, _state (ema_filter p) = Some s -> length s = length w) ->
  0 <= noise_floor_percentile p <= 100 ->
  exists feat p',
    process_frame p frame = (Ok feat, p')
    /\ length (psd_db feat) = length w.
Proof.
  intros Hw Hne Hsr Hs Hq.
  destruct (compute_fft_psd_total frame (window p) (window_power_correction p)
              w Hw Hne Hsr) as (fb & db & lin & Hc & Hl).
  unfold process_frame. rewrite Hc.
  destruct (_state (ema_filter p)) as [s|] eqn:Es.
  - rewrite (update_same_length _ s db Es) by (rewrite Hl; apply Hs; reflexivity).
    simpl. unfold estimate_noise_floor.
    destruct (proj2 (percentile_returns_iff
                       (zip_with Rplus (map (Rmult (alpha (ema_filter p))) db)
                          (map (Rmult (1 - alpha (ema_filter p))) s))
                       (noise_floor_percentile p)) Hq) as [nf ->].
    destruct (last (gps_fixes p)); do 2 eexists;
      (split; [reflexivity | exact Hl]).
  - rewrite (update_fresh _ db Es).
    simpl. unfold estimate_noise_floor.
    destruct (proj2 (percentile_returns_iff db (noise_floor_percentile p)) Hq)
      as [nf ->].
    destruct (last (gps_fixes p)); do 2 eexists;
      (split; [reflexivity | exact Hl]).
Qed.

(** With a percentile outside [0, 100] the same frame makes the call raise
    [ValueError], once the filter has stored its new state. *)
Lemma process_frame_percentile_raises (p : DSPPipeline) (frame : IQFrame)
    (w : list C) :
  broadcast Cscale (iq frame) (window p) = Ok w ->
  w <> [] -> sample_rate_sps frame <> 0 ->
  (forall s, _state (ema_filter p) = Some s -> length s = length w) ->
  ~ 0 <= noise_floor_percentile p <= 100 ->
  exists p' s,
    process_frame p frame = (Raise ValueError, p')
    /\ _state (ema_filter p') = Some s
    /\ length s = length w.
Proof.
  intros Hw Hne Hsr Hs Hq.
  destruct (compute_fft_psd_total frame (window p) (window_power_correction p)
              w Hw Hne Hsr) as (fb & db & lin & Hc & Hl).
  unfold process_frame. rewrite Hc.
  destruct (_state (ema_filter p)) as [s|] eqn:Es.
  - rewrite (update_same_length _ s db Es) by (rewrite Hl; apply Hs; reflexivity).
    simpl. unfold estimate_noise_floor.
    rewrite (percentile_out_of_range _ _ Hq).
    do 2 eexists. split; [reflexivity|]. split; [reflexivity|].
    rewrite length_zip_with, !length_map, Hl, (Hs s eq_refl). lia.
  - rewrite (update_fresh _ db Es).
    simpl. unfold estimate_noise_floor.
    rewrite (percentile_out_of_range _ _ Hq).
    do 2 eexists. split; [reflexivity|]. split; [reflexivity | exact Hl].
Qed.

Lemma pipeline4_init :
  DSPPipeline_init 4 "hann" (1 / 2) 10 [vhf] = Ok pipeline4.
Proof. reflexivity. Qed.

(** *** Position fixes *)

Lemma add_gps_fix_last (p : DSPPipeline) (fix_ : GPSFix.t) :
  last (gps_fixes (add_gps_fix p fix_)) = Some fix_.
Proof.
  unfold add_gps_fix. destruct (100 <? length (gps_fixes p ++ [fix_]))%nat eqn:E.
  - simpl. rewrite length_app in *. simpl in *.
    apply Nat.ltb_lt in E.
    rewrite drop_app_le by lia. apply last_snoc.
  - simpl. apply last_snoc.
Qed.

Lemma add_gps_fix_bounded (p : DSPPipeline) (fix_ : GPSFix.t) :
  (length (gps_fixes p) <= 100)%nat ->
  (length (gps_fixes (add_gps_fix p fix_)) <= 100)%nat.
Proof.
  intros Hl. unfold add_gps_fix.
  destruct (100 <? length (gps_fixes p ++ [fix_]))%nat eqn:E; simpl.
  - rewrite length_drop. rewrite length_app in *. simpl in *. lia.
  - apply Nat.ltb_ge in E. exact E.
Qed.

Lemma run_snoc (p : DSPPipeline) (history : list call) (c : call) :
  run p (history ++ [c])
  = match c with
    | AddFix fix_ => add_gps_fix (run p history) fix_
    | Process frame => (process_frame (run p history) frame).2
    | Reset => reset (run p history)
    end.
Proof. unfold run. rewrite foldl_app. reflexivity. Qed.

Lemma latest_fix_snoc (history : list call) (c : call) :
  latest_fix (history ++ [c])
  = match c with
    | AddFix fix_ => Some fix_
    | Process _ => latest_fix history
    | Reset => None
    end.
Proof. unfold latest_fix. rewrite foldl_app. reflexivity. Qed.

Lemma run_latest_fix (p : DSPPipeline) (history : list call) :
  gps_fixes p = [] ->
  last (gps_fixes (run p history)) = latest_fix history.
Proof.
  intros Hp. induction history as [|c history IH] using rev_ind.
  - simpl. rewrite Hp. reflexivity.
  - rewrite run_snoc, latest_fix_snoc. destruct c as [fix_|frame|].
    + apply add_gps_fix_last.
    + rewrite process_frame_gps_fixes. exact IH.
    + reflexivity.
Qed.

(** The static configuration is the same after any history. *)
Lemma run_static (p : DSPPipeline) (history : list call) :
  window (run p history) = window p
  /\ window_power_correction (run p history) = window_power_correction p
  /\ fft_size (run p history) = fft_size p
  /\ bands (run p history) = bands p
  /\ noise_floor_percentile (run p history) = noise_floor_percentile p.
Proof.
  induction history as [|c history IH] using rev_ind; [auto|].
  rewrite run_snoc. destruct IH as (<- & <- & <- & <- & <-).
  destruct c as [fix_|frame|].
  - unfold add_gps_fix. destruct (100 <? _)%nat; auto.
  - destruct (process_frame (run p history) frame) as [[feat|e] p'] eqn:E;
      simpl.
    + apply process_frame_returns in E as (lin & f' & _ & _ & -> & _). auto.
    + apply process_frame_raises_filter in E as [f ->]. auto.
  - auto.
Qed.

(** C2.  After any history of calls on a pipeline that started without
    fixes (as the constructor leaves it), a frame that is processed gets
    the latitude and longitude of the fix added last since the last
    [reset], whatever the timestamps of that fix and of the frame; if no fix
    was added since construction or since the last [reset], both are
    absent. *)
Theorem latest_fix_is_attached (p0 : DSPPipeline) (history : list call)
    (frame : IQFrame) (feat : FrameFeatures R) (p' : DSPPipeline) :
  gps_fixes p0 = [] ->
  process_frame (run p0 history) frame = (Ok feat, p') ->
  lat_deg feat = GPSFix.lat_deg <$> latest_fix history
  /\ lon_deg feat = GPSFix.lon_deg <$> latest_fix history
  /\ (forall fix_, latest_fix history = Some fix_ ->
        lat_deg feat = Some (GPSFix.lat_deg fix_)
        /\ lon_deg feat = Some (GPSFix.lon_deg fix_))
  /\ (latest_fix history = None ->
        lat_deg feat = None /\ lon_deg feat = None)
  /\ (forall h fix_, latest_fix (h ++ [AddFix fix_]) = Some fix_)
  /\ (forall h fr, latest_fix (h ++ [Process fr]) = latest_fix h)
  /\ (forall h, latest_fix (h ++ [Reset]) = None)
  /\ latest_fix [] = None
  /\ gps_fixes (reset p0) = []
  /\ gps_fixes p' = gps_fixes (run p0 history).
Proof.
  intros Hp Hproc.
  pose proof (process_frame_gps_fixes (run p0 history) frame) as Hkeep.
  rewrite Hproc in Hkeep. simpl in Hkeep.
  apply process_frame_returns in Hproc
    as (lin & f' & _ & _ & _ & _ & _ & Hlat & Hlon & _).
  rewrite (run_latest_fix p0 history Hp) in Hlat, Hlon.
  split; [exact Hlat|]. split; [exact Hlon|]. split.
  { intros fix_ E. rewrite Hlat, Hlon, E. auto. }
  split.
  { intros E. rewrite Hlat, Hlon, E. auto. }
  split; [intros h fix_; apply latest_fix_snoc|].
  split; [intros h fr; apply latest_fix_snoc|].
  split; [intros h; apply latest_fix_snoc|].
  split; [reflexivity|]. split; [reflexivity|exact Hkeep].
Qed.

(** The theorem on the four-sample pipeline: two fixes, the later one an
    hour older than the frame. *)
Lemma latest_fix_is_attached_witness :
  exists feat p',
    process_frame (run pipeline4 [AddFix fix_a; Reset; AddFix fix_a; AddFix fix_b])
      frame4 = (Ok feat, p')
    /\ lat_deg feat = Some 38 /\ lon_deg feat = Some (-121).
Proof.
  destruct (process_frame_total
              (run pipeline4 [AddFix fix_a; Reset; AddFix fix_a; AddFix fix_b])
              frame4 (zip_with Cscale (iq frame4) (hann 4)))
    as (feat & p' & Hproc & _).
  - reflexivity.
  - discriminate.
  - simpl. lra.
  - discriminate.
  - simpl. lra.
  - exists feat, p'. split; [exact Hproc|].
    destruct (latest_fix_is_attached pipeline4
                [AddFix fix_a; Reset; AddFix fix_a; AddFix fix_b]
                frame4 feat p' eq_refl Hproc) as (_ & _ & Hfix & _).
    apply (Hfix fix_b). reflexivity.
Defined.

(** The time-based alignment of [src/common/timebase.py] would reject that
    fix, an hour away from the frame; the pipeline attaches it all the
    same. *)
Lemma stale_fix_is_outside_the_tolerance :
  Timebase.align_gps_to_iq (iq_timestamp_ns frame4) [fix_a; fix_b]
    Timebase.default_tolerance_ns = Some 0%nat
  /\ Timebase.align_gps_to_iq (iq_timestamp_ns frame4) [fix_b]
       Timebase.default_tolerance_ns = None.
Proof. split; reflexivity. Qed.

(** *** Frames of the wrong length *)

(** C3, as stated, fails: a frame of one sample is stretched over the
    four-sample window by the element-wise multiply; the call returns a
    record with four bins and stores them as the EMA state. *)
Lemma one_sample_frame_is_processed :
  exists feat p',
    DSPPipeline_init 4 "hann" (1 / 2) 10 [vhf] = Ok pipeline4
    /\ fft_size pipeline4 = 4%nat
    /\ length (iq frame1) = 1%nat
    /\ process_frame pipeline4 frame1 = (Ok feat, p')
    /\ length (psd_db feat) = 4%nat
    /\ _state (ema_filter pipeline4) = None
    /\ _state (ema_filter p') = Some (psd_smoothed_db feat).
Proof.
  destruct (process_frame_total pipeline4 frame1
              (map (Cscale (1, 0)) (hann 4)))
    as (feat & p' & Hproc & Hlen).
  - reflexivity.
  - discriminate.
  - simpl. lra.
  - discriminate.
  - simpl. lra.
  - exists feat, p'. repeat split; try reflexivity; try assumption.
    apply process_frame_returns in Hproc as (lin & f' & _ & Hu & -> & _).
    apply update_returns in Hu as (Hs & _). exact Hs.
Qed.

(** C3 (amended).  On a pipeline whose window has the configured FFT size,
    a frame whose sample count differs from the FFT size, neither of the two
    being 1, makes [process_frame] raise [ValueError], from the element-wise
    multiply by the window, before anything is stored: the pipeline (EMA
    state and fix buffer included) is as before, and a later frame is
    processed as if the failed call had not been made.  No call that raises
    touches the fix buffer; a call that raises for another reason leaves the
    whole pipeline as it was when the configured percentile lies in
    [0, 100] (a percentile outside that range makes every call raise after
    the filter has stored its new state). *)
Theorem process_frame_length_mismatch (p : DSPPipeline) (frame : IQFrame) :
  length (window p) = fft_size p ->
  length (iq frame) <> fft_size p ->
  length (iq frame) <> 1%nat -> fft_size p <> 1%nat ->
  process_frame p frame = (Raise ValueError, p)
  /\ ema_filter (process_frame p frame).2 = ema_filter p
  /\ gps_fixes (process_frame p frame).2 = gps_fixes p
  /\ (forall frame',
        process_frame (process_frame p frame).2 frame' = process_frame p frame')
  /\ (forall frame0 e p',
        process_frame p frame0 = (Raise e, p') ->
        gps_fixes p' = gps_fixes p
        /\ (0 <= noise_floor_percentile p <= 100 -> p' = p)).
Proof.
  intros Hw Hne H1 H2.
  assert (E : process_frame p frame = (Raise ValueError, p)).
  { unfold process_frame. rewrite compute_fft_psd_eq.
    rewrite broadcast_mismatch by (rewrite ?Hw; assumption). reflexivity. }
  rewrite E. simpl. repeat split; try reflexivity.
  - apply process_frame_raises_filter in H as [f ->]. reflexivity.
  - intros Hq. eapply process_frame_raises_in_range; eassumption.
Qed.

(** The theorem on the four-sample pipeline and a three-sample frame,
    followed by a frame of the right length. *)
Lemma process_frame_length_mismatch_witness :
  process_frame pipeline4 frame3 = (Raise ValueError, pipeline4)
  /\ process_frame (process_frame pipeline4 frame3).2 frame4
     = process_frame pipeline4 frame4.
Proof.
  destruct (process_frame_length_mismatch pipeline4 frame3)
    as (Hraise & _ & _ & Hnext & _);
    [reflexivity | discriminate | discriminate | discriminate |].
  split; [exact Hraise | apply Hnext].
Defined.

(** A pipeline keeps a window of the configured FFT size: the constructor
    builds it so and no call changes it. *)
Lemma window_has_fft_size (n : nat) (wt : string) (sf pct : R)
    (bs : list Band.t) (p : DSPPipeline) (history : list call) :
  DSPPipeline_init n wt sf pct bs = Ok p ->
  length (window (run p history)) = fft_size (run p history)
  /\ fft_size (run p history) = n.
Proof.
  intros Hp. destruct (run_static p history) as (-> & _ & -> & _).
  apply DSPPipeline_init_inv in Hp as (-> & -> & _). auto.
Qed.

(** *** Filters, and bins below the threshold *)

Lemma filter_none {A : Type} (P : A -> Prop) `{forall x, Decision (P x)}
    (l : list A) :
  Forall (fun x => ~ P x) l -> filter P l = [].
Proof.
  induction 1 as [|x l Hx _ IH]; [reflexivity|].
  rewrite filter_cons_False by exact Hx. exact IH.
Qed.

Lemma filter_all {A : Type} (P : A -> Prop) `{forall x, Decision (P x)}
    (l : list A) :
  Forall P l -> filter P l = l.
Proof.
  induction 1 as [|x l Hx _ IH]; [reflexivity|].
  rewrite filter_cons_True by exact Hx. f_equal. exact IH.
Qed.

(** Bins at or below the threshold are not counted. *)
Lemma occupancy_at_most_threshold (freq_bins psd : list R) (band : Band.t)
    (center nf thr : R) :
  Forall (fun x => x <= nf + thr)
    (select (band_mask freq_bins (Band.start_hz band - center)
                                 (Band.end_hz band - center)) psd) ->
  compute_occupancy freq_bins psd band center nf thr = 0.
Proof.
  intros Hall. unfold compute_occupancy.
  set (sel := select _ psd) in *.
  destruct (length sel =? 0)%nat; [reflexivity|].
  rewrite filter_none.
  - simpl. unfold Rdiv. rewrite !Rmult_0_l. reflexivity.
  - eapply Forall_impl; [exact Hall|]. intros x Hx Hgt.
    apply exact_ltb_true_iff in Hgt. lra.
Qed.

End PipelineFacts.

(** ** Configuration *)

Module ConfigurationFacts.
Import Configuration ExactFacts SpectralFacts PipelineFacts.

Lemma validate_raises_ValueError (c : Config) (e : exn) :
  validate c = Raise e -> e = ValueError.
Proof.
  unfold validate.
  repeat match goal with
         | |- (if ?b then _ else _) = _ -> _ => destruct b
         end; congruence.
Qed.

Lemma validate_window_type (c : Config) :
  window_type (rf c) ∉ ["hann"; "hamming"; "blackman"] ->
  validate c = Raise ValueError.
Proof.
  intros Hw. unfold validate.
  destruct (negb (Z.land _ _ =? 0)%Z); [reflexivity|].
  rewrite bool_decide_eq_false_2 by exact Hw. reflexivity.
Qed.

Lemma validate_smoothing_factor (c : Config) :
  ~ (0 < smoothing_factor (dsp c) <= 1) ->
  validate c = Raise ValueError.
Proof.
  intros Ha. unfold validate.
  destruct (negb (Z.land _ _ =? 0)%Z); [reflexivity|].
  destruct (negb (bool_decide _)); [reflexivity|].
  assert (E : Exact.ltb 0 (smoothing_factor (dsp c))
              && Exact.leb (smoothing_factor (dsp c)) 1 = false).
  { apply andb_false_iff.
    destruct (Exact.ltb 0 (smoothing_factor (dsp c))) eqn:E1; [|auto].
    destruct (Exact.leb (smoothing_factor (dsp c)) 1) eqn:E2; [|auto].
    apply exact_ltb_true_iff in E1. apply exact_leb_true_iff in E2.
    exfalso. apply Ha. split; assumption. }
  rewrite E. reflexivity.
Qed.

Lemma validate_returns (c : Config) :
  validate c = Ok tt ->
  window_type (rf c) ∈ ["hann"; "hamming"; "blackman"]
  /\ 0 < smoothing_factor (dsp c) <= 1
  /\ 0 < tile_size_meters (geo c).
Proof.
  unfold validate.
  destruct (negb (Z.land _ _ =? 0)%Z); [discriminate|].
  destruct (bool_decide _) eqn:Ew; [|discriminate]. simpl.
  destruct (Exact.ltb 0 _) eqn:E1; [|discriminate].
  destruct (Exact.leb (smoothing_factor _) 1) eqn:E2; [|discriminate]. simpl.
  destruct (Exact.leb (tile_size_meters _) 0) eqn:E3; [discriminate|].
  intros _. apply bool_decide_eq_true in Ew.
  apply exact_ltb_true_iff in E1. apply exact_leb_true_iff in E2.
  split; [exact Ew|]. split; [split; assumption|].
  destruct (Rlt_dec 0 (tile_size_meters (geo c))) as [Hlt|Hge]; [exact Hlt|].
  exfalso. assert (Hle : tile_size_meters (geo c) <= 0) by lra.
  apply exact_leb_true_iff in Hle. congruence.
Qed.

(** C6, as stated, fails in its second half: [EMAFilter(2.0, 4)] and a
    pipeline with a smoothing factor of 2 are constructed without any
    error. *)
Lemma smoothing_factor_two_is_accepted :
  exists p,
    DSP.DSPPipeline_init 4 "hann" 2 10 [vhf] = Ok p
    /\ DSP.alpha (DSP.ema_filter p) = 2
    /\ DSP.smoothing_factor p = 2
    /\ DSP.alpha (DSP.EMAFilter_init 2 4) = 2
    /\ ~ (0 < 2 <= 1).
Proof.
  eexists. split; [reflexivity|]. simpl. repeat split. lra.
Qed.

(** C6 (amended).  A window type outside hann, hamming and blackman makes
    [get_window] raise [ValueError], so the pipeline constructor, and
    [create_pipeline_from_config], fail at construction time.  The EMA
    smoothing factor is not checked by [EMAFilter] or by the pipeline
    constructor, which store it as given; a factor outside (0, 1] is
    rejected, with [ValueError], by [Config.validate] when the configuration
    is loaded, and so are the other invalid settings it tests: a
    configuration that [load_config] returns has a known window type and a
    factor in (0, 1]. *)
Theorem invalid_configuration_is_rejected :
  (forall (wt : string) (n : nat),
     wt ∉ ["hann"; "hamming"; "blackman"] ->
     DSP.get_window wt n = Raise ValueError
     /\ forall sf pct bs, DSP.DSPPipeline_init n wt sf pct bs = Raise ValueError)
  /\ (forall c : Config,
       window_type (rf c) ∉ ["hann"; "hamming"; "blackman"] ->
       create_pipeline_from_config c = Raise ValueError
       /\ load_config c = Raise ValueError)
  /\ (forall c : Config,
       ~ (0 < smoothing_factor (dsp c) <= 1) ->
       validate c = Raise ValueError /\ load_config c = Raise ValueError)
  /\ (forall (c : Config) (e : exn), validate c = Raise e -> e = ValueError)
  /\ (forall c c' : Config,
       load_config c = Ok c' ->
       c' = c
       /\ window_type (rf c) ∈ ["hann"; "hamming"; "blackman"]
       /\ 0 < smoothing_factor (dsp c) <= 1)
  /\ (forall (a : R) (n : nat),
       DSP.alpha (DSP.EMAFilter_init a n) = a
       /\ DSP._state (DSP.EMAFilter_init a n) = None)
  /\ (forall (n : nat) (wt : string) (sf pct : R) (bs : list Band.t),
       wt ∈ ["hann"; "hamming"; "blackman"] ->
       exists p, DSP.DSPPipeline_init n wt sf pct bs = Ok p
                 /\ DSP.alpha (DSP.ema_filter p) = sf).
Proof.
  split.
  { intros wt n Hw. pose proof (get_window_unknown wt n Hw) as E.
    split; [exact E|]. intros sf pct bs.
    unfold DSP.DSPPipeline_init. rewrite E. reflexivity. }
  split.
  { intros c Hw. split.
    - unfold create_pipeline_from_config, DSP.DSPPipeline_init.
      rewrite (get_window_unknown _ _ Hw). reflexivity.
    - unfold load_config. rewrite (validate_window_type c Hw). reflexivity. }
  split.
  { intros c Ha. pose proof (validate_smoothing_factor c Ha) as E.
    split; [exact E|]. unfold load_config. rewrite E. reflexivity. }
  split; [exact validate_raises_ValueError|].
  split.
  { intros c c'. unfold load_config.
    destruct (validate c) as [[]|e] eqn:Ev; [|discriminate].
    intros [= <-]. apply validate_returns in Ev as (Hw & Ha & _). auto. }
  split; [intros a n; split; reflexivity|].
  intros n wt sf pct bs Hw.
  destruct (get_window_known wt n Hw) as [w Ew].
  unfold DSP.DSPPipeline_init. rewrite Ew. eexists. split; reflexivity.
Qed.

End ConfigurationFacts.

(** ** Alignment of fixes and frames in time *)

Module TimebaseFacts.
Import Timebase.

Lemma zip_seq_snoc {A : Type} (l : list A) (x : A) (s : nat) :
  zip (seq s (length (l ++ [x]))) (l ++ [x])
  = zip (seq s (length l)) l ++ [((s + length l)%nat, x)].
Proof.
  rewrite length_app. simpl length. rewrite seq_app. simpl seq.
  rewrite zip_with_app by (rewrite length_seq; reflexivity).
  reflexivity.
Qed.

(** The running minimum of the loop of [align_gps_to_iq] after the fixes
    [l]: nothing before the first fix; afterwards the distance and the index
    of a nearest fix, the first one among equally near fixes. *)
Lemma align_loop_invariant (t : Z) (l : list GPSFix.t) :
  match
    foldl (fun (acc : option Z * option nat) (e : nat * GPSFix.t) =>
             let delta := Z.abs (GPSFix.gps_timestamp_ns e.2 - t) in
             match acc.1 with
             | Some m => if (delta <? m)%Z then (Some delta, Some e.1) else acc
             | None => (Some delta, Some e.1)
             end)
          (None, None) (zip (seq 0 (length l)) l)
  with
  | (None, i) => l = [] /\ i = None
  | (Some d, None) => False
  | (Some d, Some k) =>
      exists fx, l !! k = Some fx
        /\ d = Z.abs (GPSFix.gps_timestamp_ns fx - t)
        /\ forall j fy, l !! j = Some fy ->
             (d <= Z.abs (GPSFix.gps_timestamp_ns fy - t))%Z
             /\ ((j < k)%nat -> (d < Z.abs (GPSFix.gps_timestamp_ns fy - t))%Z)
  end.
Proof.
  induction l as [|x l IH] using rev_ind; [split; reflexivity|].
  rewrite zip_seq_snoc, foldl_app. simpl foldl.
  destruct (foldl _ _ (zip (seq 0 (length l)) l)) as [[d|] [k|]]; simpl.
  - destruct IH as (fx & Hk & Hd & Hmin).
    destruct (Z.ltb_spec (Z.abs (GPSFix.gps_timestamp_ns x - t)) d) as [Hlt|Hge].
    + exists x. split; [apply list_lookup_middle; reflexivity|].
      split; [reflexivity|]. intros j fy Hj.
      destruct (decide (j < length l)%nat) as [Hjl|Hjl].
      * rewrite lookup_app_l in Hj by exact Hjl.
        destruct (Hmin j fy Hj) as [Hle _]. split; intros; lia.
      * apply lookup_lt_Some in Hj as Hj'. rewrite length_app in Hj'.
        simpl in Hj'. assert (j = length l) as -> by lia.
        rewrite list_lookup_middle in Hj by reflexivity.
        injection Hj as <-. split; intros; lia.
    + exists fx. split.
      { rewrite lookup_app_l; [exact Hk|]. apply lookup_lt_Some in Hk. exact Hk. }
      split; [exact Hd|]. intros j fy Hj.
      destruct (decide (j < length l)%nat) as [Hjl|Hjl].
      * rewrite lookup_app_l in Hj by exact Hjl. exact (Hmin j fy Hj).
      * apply lookup_lt_Some in Hj as Hj'. rewrite length_app in Hj'.
        simpl in Hj'. assert (j = length l) as -> by lia.
        rewrite list_lookup_middle in Hj by reflexivity.
        injection Hj as <-. split; [lia|].
        intros Hlt. apply lookup_lt_Some in Hk. lia.
  - destruct IH.
  - destruct IH as [-> _]. exists x. split; [reflexivity|].
    split; [reflexivity|]. intros [|j] fy Hj; [|discriminate Hj].
    injection Hj as <-. simpl. split; intros; lia.
  - destruct IH as [-> _]. exists x. split; [reflexivity|].
    split; [reflexivity|]. intros [|j] fy Hj; [|discriminate Hj].
    injection Hj as <-. simpl. split; intros; lia.
Qed.

(** The index [align_gps_to_iq] returns is that of a fix within the
    tolerance, no other fix of the list is nearer to the frame in time, and
    every fix before it is strictly farther. *)
Theorem align_gps_to_iq_nearest (t : Z) (l : list GPSFix.t) (tol : Z)
    (i : nat) :
  align_gps_to_iq t l tol = Some i ->
  exists fx, l !! i = Some fx
    /\ (Z.abs (GPSFix.gps_timestamp_ns fx - t) <= tol)%Z
    /\ forall j fy, l !! j = Some fy ->
         (Z.abs (GPSFix.gps_timestamp_ns fx - t)
          <= Z.abs (GPSFix.gps_timestamp_ns fy - t))%Z
         /\ ((j < i)%nat ->
             (Z.abs (GPSFix.gps_timestamp_ns fx - t)
              < Z.abs (GPSFix.gps_timestamp_ns fy - t))%Z).
Proof.
  unfold align_gps_to_iq. pose proof (align_loop_invariant t l) as Hinv.
  destruct (foldl _ _ _) as [[d|] [k|]]; try discriminate.
  - destruct (Z.leb_spec d tol) as [Hle|Hgt]; [|discriminate].
    intros [= <-]. destruct Hinv as (fx & Hk & -> & Hmin).
    exists fx. auto.
  - destruct Hinv.
Qed.

Lemma align_gps_to_iq_nearest_witness :
  exists fx, [fix_a; fix_b] !! 0%nat = Some fx
    /\ (Z.abs (GPSFix.gps_timestamp_ns fx - 1000) <= default_tolerance_ns)%Z.
Proof.
  destruct (align_gps_to_iq_nearest 1000 [fix_a; fix_b] default_tolerance_ns 0
              eq_refl) as (fx & Hfx & Htol & _).
  exists fx. split; assumption.
Defined.

(** [align_gps_to_iq] returns [None] exactly when every fix of the list is
    farther from the frame than the tolerance; an empty list is one such
    case. *)
Theorem align_gps_to_iq_none_iff (t : Z) (l : list GPSFix.t) (tol : Z) :
  align_gps_to_iq t l tol = None
  <-> forall fx, fx ∈ l -> (tol < Z.abs (GPSFix.gps_timestamp_ns fx - t))%Z.
Proof.
  unfold align_gps_to_iq. pose proof (align_loop_invariant t l) as Hinv.
  destruct (foldl _ _ _) as [[d|] [k|]].
  - destruct Hinv as (fx & Hk & -> & Hmin).
    destruct (Z.leb_spec (Z.abs (GPSFix.gps_timestamp_ns fx - t)) tol)
      as [Hle|Hgt]; split.
    + discriminate.
    + intros Hall. specialize (Hall fx (list_elem_of_lookup_2 _ _ _ Hk)). lia.
    + intros _ fy Hin. apply list_elem_of_lookup in Hin as [j Hj].
      destruct (Hmin j fy Hj) as [Hle _]. lia.
    + reflexivity.
  - destruct Hinv.
  - destruct Hinv as [-> _]. split; [|reflexivity].
    intros _ fx Hin. apply elem_of_nil in Hin. destruct Hin.
  - destruct Hinv as [-> _]. split; [|reflexivity].
    intros _ fx Hin. apply elem_of_nil in Hin. destruct Hin.
Qed.

End TimebaseFacts.

(** ** The lookup dictionary of the grid *)

Module TileLookupFacts.
Import Tiling ExactFacts TilingFacts.

Section Generic.
Context {F : Type} `{Arith F}.

Lemma range_NoDup (n : Z) : NoDup (range n).
Proof.
  unfold range. apply NoDup_fmap_2; [apply Nat2Z.inj'|]. apply NoDup_seq.
Qed.

Lemma range_length (n : Z) : length (range n) = Z.to_nat n.
Proof. unfold range. rewrite length_map, length_seq. reflexivity. Qed.

Lemma bind_length_const {A B : Type} (f : A -> list B) (l : list A) (k : nat) :
  (forall x, length (f x) = k) -> length (l ≫= f) = (length l * k)%nat.
Proof.
  intros Hk. induction l as [|x l IH]; [reflexivity|].
  rewrite bind_cons, length_app, Hk, IH. simpl. reflexivity.
Qed.

Lemma generate_tiles_length (lon0 lat0 sl sa : F) (nx ny : Z) :
  length (_generate_tiles lon0 lat0 sl sa nx ny)
  = (Z.to_nat nx * Z.to_nat ny)%nat.
Proof.
  unfold _generate_tiles.
  rewrite (bind_length_const _ _ (Z.to_nat ny)), range_length; [reflexivity|].
  intros ix. rewrite (bind_length_const _ _ 1%nat), range_length; [lia|].
  reflexivity.
Qed.

Lemma generate_tiles_NoDup (lon0 lat0 sl sa : F) (nx ny : Z) :
  NoDup (tile_id <$> _generate_tiles lon0 lat0 sl sa nx ny).
Proof.
  apply NoDup_fmap_2_strong; [apply generate_tiles_id_inj|].
  unfold _generate_tiles. apply NoDup_bind; [| |apply range_NoDup].
  - intros ix ix' t _ _ Ht Ht'.
    apply list_elem_of_bind in Ht as (iy & Ht & _).
    apply list_elem_of_bind in Ht' as (iy' & Ht' & _).
    apply list_elem_of_singleton in Ht, Ht'. subst t.
    apply (f_equal tile_id) in Ht'. simpl in Ht'.
    apply format_tile_id_inj in Ht' as [E _]. auto.
  - intros ix _. apply NoDup_bind; [| |apply range_NoDup].
    + intros iy iy' t _ _ Ht Ht'.
      apply list_elem_of_singleton in Ht, Ht'. subst t.
      apply (f_equal tile_id) in Ht'. simpl in Ht'.
      apply format_tile_id_inj in Ht' as [_ E]. auto.
    + intros iy _. apply NoDup_singleton.
Qed.

Lemma lookup_of_tile (g : TileGrid F) (t : Tile F) :
  well_formed g -> t ∈ tiles g -> tile_lookup g !! tile_id t = Some t.
Proof.
  intros [Hts Hlk] Ht. rewrite Hlk. apply build_lookup_Some; [|exact Ht].
  rewrite Hts. apply generate_tiles_id_inj.
Qed.

Lemma lookup_sentinel (g : TileGrid F) :
  well_formed g -> tile_lookup g !! "out_of_bounds" = None.
Proof.
  intros [Hts Hlk].
  destruct (tile_lookup g !! "out_of_bounds") as [t|] eqn:Hk; [|reflexivity].
  rewrite Hlk in Hk. apply build_lookup_elem_of in Hk as [Ht Hid].
  rewrite Hts in Ht. apply elem_of_generate_tiles in Ht as (ix & iy & _ & _ & ->).
  simpl in Hid. pose proof (format_tile_id_in_bounds ix iy) as Hne.
  rewrite Hid in Hne. discriminate Hne.
Qed.

(** A grid the constructor returns holds [num_tiles_x * num_tiles_y] tiles;
    their ids are pairwise distinct, so no tile is overwritten in the lookup
    dictionary: every tile is found under its id. *)
Theorem grid_tiles_are_indexed (c clat clon T E : F) (g : TileGrid F) :
  TileGrid_init c clat clon T E = Ok g ->
  length (tiles g) = (Z.to_nat (num_tiles_x g) * Z.to_nat (num_tiles_y g))%nat
  /\ NoDup (tile_id <$> tiles g)
  /\ (forall t, t ∈ tiles g -> tile_lookup g !! tile_id t = Some t)
  /\ (forall id t, tile_lookup g !! id = Some t -> t ∈ tiles g /\ tile_id t = id).
Proof.
  intros Hg. pose proof (TileGrid_init_well_formed _ _ _ _ _ _ Hg) as Hwf.
  destruct Hwf as [Hts Hlk]. split; [|split; [|split]].
  - rewrite Hts. apply generate_tiles_length.
  - rewrite Hts. apply generate_tiles_NoDup.
  - intros t Ht. apply lookup_of_tile; [split; assumption | exact Ht].
  - intros id t. rewrite Hlk. apply build_lookup_elem_of.
Qed.

(** [get_tile_center] returns the midpoint of the bounds of the tile that
    has the given id, and raises [ValueError] for an id that no tile of the
    grid has. *)
Theorem get_tile_center_known_ids (c clat clon T E : F) (g : TileGrid F) :
  TileGrid_init c clat clon T E = Ok g ->
  (forall t, t ∈ tiles g -> get_tile_center g (tile_id t) = Ok (midpoint t))
  /\ (forall id, (forall t, t ∈ tiles g -> tile_id t <> id) ->
        get_tile_center g id = Raise ValueError).
Proof.
  intros Hg. pose proof (TileGrid_init_well_formed _ _ _ _ _ _ Hg) as Hwf.
  split.
  - intros t Ht. unfold get_tile_center.
    rewrite (lookup_of_tile g t Hwf Ht). reflexivity.
  - intros id Hid. unfold get_tile_center.
    destruct (tile_lookup g !! id) as [t|] eqn:Hk; [|reflexivity].
    destruct Hwf as [_ Hlk]. rewrite Hlk in Hk.
    apply build_lookup_elem_of in Hk as [Ht Ht']. destruct (Hid t Ht Ht').
Qed.

(** The id [get_tile] returns can be handed to [get_tile_center] exactly
    when the coordinate lies inside the grid bounds: outside them the
    sentinel id makes [get_tile_center] raise [ValueError]; inside them, on a
    grid with at least one tile per axis, the call returns the midpoint of
    the tile whose indices [get_tile] returned. *)
Theorem get_tile_center_after_get_tile (c clat clon T E : F) (g : TileGrid F)
    (lat lon : F) :
  TileGrid_init c clat clon T E = Ok g ->
  (in_grid_bounds g lat lon = false ->
     get_tile_center g (get_tile g lat lon).2 = Raise ValueError)
  /\ ((1 <= num_tiles_x g)%Z -> (1 <= num_tiles_y g)%Z ->
      in_grid_bounds g lat lon = true ->
      exists t, t ∈ tiles g
        /\ get_tile g lat lon = (tile_x t, tile_y t, tile_id t)
        /\ get_tile_center g (get_tile g lat lon).2 = Ok (midpoint t)).
Proof.
  intros Hg. pose proof (TileGrid_init_well_formed _ _ _ _ _ _ Hg) as Hwf.
  split.
  - intros Hout. rewrite (get_tile_out_of_bounds g lat lon Hout).
    unfold get_tile_center. simpl. rewrite (lookup_sentinel g Hwf). reflexivity.
  - intros Hx Hy Hin.
    destruct (get_tile_in_bounds g lat lon Hwf Hx Hy Hin)
      as (t & Hget & _ & _ & Ht & Hlk & _).
    exists t. split; [exact Ht|]. split; [exact Hget|].
    rewrite Hget. unfold get_tile_center. simpl. rewrite Hlk. reflexivity.
Qed.

End Generic.

Lemma grid_tiles_are_indexed_witness :
  exists g : TileGrid R,
    TileGrid_init 1 0 0 100 1000 = Ok g
    /\ length (tiles g) = 100%nat.
Proof.
  destruct (exact_init_ok 1 0 0 100 1000 ltac:(lra)) as [g Hg].
  exists g. split; [exact Hg|].
  destruct (grid_tiles_are_indexed 1 0 0 100 1000 g Hg) as (Hlen & _).
  destruct (exact_grid_fields 1 0 0 100 1000 g ltac:(lra) Hg)
    as (_ & _ & _ & _ & _ & _ & Enx & Eny).
  assert (Hn : Zceil (1000 / 100) = 10%Z) by (apply Zceil_eq; lra).
  rewrite Hlen, Enx, Eny, Hn. reflexivity.
Defined.

Lemma get_tile_center_known_ids_witness :
  exists g : TileGrid R,
    TileGrid_init 1 0 0 100 1000 = Ok g
    /\ get_tile_center g "out_of_bounds" = Raise ValueError.
Proof.
  destruct (exact_init_ok 1 0 0 100 1000 ltac:(lra)) as [g Hg].
  exists g. split; [exact Hg|].
  destruct (get_tile_center_known_ids 1 0 0 100 1000 g Hg) as [_ Hunknown].
  apply Hunknown. intros t Ht Hid.
  destruct (TileGrid_init_well_formed _ _ _ _ _ _ Hg) as [Hts _].
  rewrite Hts in Ht. apply elem_of_generate_tiles in Ht as (ix & iy & _ & _ & ->).
  simpl in Hid. pose proof (format_tile_id_in_bounds ix iy) as Hne.
  rewrite Hid in Hne. discriminate Hne.
Defined.

Lemma get_tile_center_after_get_tile_witness :
  exists (g : TileGrid R) (t : Tile R),
    TileGrid_init 1 0 0 100 1000 = Ok g
    /\ get_tile_center g (get_tile g 0 0).2 = Ok (midpoint t).
Proof.
  destruct (exact_init_ok 1 0 0 100 1000 ltac:(lra)) as [g Hg].
  destruct (exact_num_tiles_pos 1 0 0 100 1000 g ltac:(lra) ltac:(lra)
              ltac:(lra) Hg) as [Hx Hy].
  destruct (get_tile_center_after_get_tile 1 0 0 100 1000 g 0 0 Hg)
    as [_ Hin].
  destruct (Hin Hx Hy) as (t & _ & _ & Hcenter).
  - destruct (exact_grid_fields 1 0 0 100 1000 g ltac:(lra) Hg)
      as (Ea & Eb & Ec & Ed & _).
    unfold in_grid_bounds. simpl. rewrite Ea, Eb, Ec, Ed.
    rewrite !andb_true_iff, !exact_leb_true_iff. repeat split; lra.
  - exists g, t. split; assumption.
Defined.

(** *** Whether the located tile contains the coordinate *)

Lemma clamped_index_bounds (x lo s : R) (n : Z) :
  0 < s -> (1 <= n)%Z -> lo <= x -> (x - lo) / s <= IZR n ->
  lo + IZR (Z.max 0 (Z.min (Exact.trunc ((x - lo) / s)) (n - 1))) * s <= x
  /\ x <= lo + IZR (Z.max 0 (Z.min (Exact.trunc ((x - lo) / s)) (n - 1))) * s + s.
Proof.
  intros Hs Hn Hlo Hhi.
  set (q := (x - lo) / s) in *.
  assert (Hq0 : 0 <= q).
  { unfold q. apply Rmult_le_pos; [lra|]. left. apply Rinv_0_lt_compat, Hs. }
  assert (Hx : x = lo + q * s) by (unfold q; field; lra).
  unfold Exact.trunc. destruct (Rle_dec 0 q) as [_|Hneg]; [|lra].
  pose proof (Zfloor_bound q) as [Hf1 Hf2].
  assert (Hf0 : (0 <= Zfloor q)%Z) by (apply Zfloor_lub; exact Hq0).
  destruct (Z_le_gt_dec (Zfloor q) (n - 1)) as [Hle|Hgt].
  - replace (Z.max 0 (Z.min (Zfloor q) (n - 1))) with (Zfloor q) by lia.
    assert (IZR (Zfloor q) * s <= q * s) by (apply Rmult_le_compat_r; lra).
    assert (q * s <= (IZR (Zfloor q) + 1) * s)
      by (apply Rmult_le_compat_r; lra).
    split; lra.
  - replace (Z.max 0 (Z.min (Zfloor q) (n - 1))) with (n - 1)%Z by lia.
    assert (Hn1 : IZR n <= IZR (Zfloor q)) by (apply IZR_le; lia).
    assert (Hqn : q = IZR n) by lra.
    rewrite minus_IZR. rewrite Hqn in Hx. split; lra.
Qed.

(** In exact arithmetic, on a grid of positive tile size and extent, the
    tile [get_tile] names for a coordinate inside the grid bounds is in the
    lookup dictionary and its bounds contain the coordinate. *)
Lemma located_tile_contains_coordinate_exact (c clat clon T E : R)
    (g : TileGrid R) (lat lon : R) :
  0 < c -> 0 < T -> 0 < E ->
  TileGrid_init c clat clon T E = Ok g ->
  in_grid_bounds g lat lon = true ->
  exists t, tile_lookup g !! (get_tile g lat lon).2 = Some t
    /\ (get_tile g lat lon).1 = (tile_x t, tile_y t)
    /\ contains t lat lon = true.
Proof.
  intros Hc HT HE Hg Hin.
  pose proof (TileGrid_init_well_formed _ _ _ _ _ _ Hg) as Hwf.
  destruct (exact_num_tiles_pos c clat clon T E g Hc HT HE Hg) as [Hnx Hny].
  destruct (exact_grid_fields c clat clon T E g HT Hg)
    as (Ea & Eb & Ec & Ed & Esa & Esl & Enx & Eny).
  pose proof (lodm_pos c Hc) as Hlo. pose proof ladm_pos as Hla.
  simpl in Hlo, Hla.
  assert (Hsl : 0 < T * (1 / (88000 * c))) by (apply Rmult_lt_0_compat; lra).
  assert (Hsa : 0 < T * (1 / 111000)) by (apply Rmult_lt_0_compat; lra).
  pose proof Hin as Hb. unfold in_grid_bounds in Hb. simpl in Hb.
  rewrite !andb_true_iff, !exact_leb_true_iff in Hb.
  destruct Hb as [[[Hb1 Hb2] Hb3] Hb4].
  pose proof (Zceil_bound (E / T)) as [_ Hcb].
  assert (Hlat : (lat - grid_lat_min g) / tile_size_lat g
                 <= IZR (num_tiles_y g)).
  { rewrite Eny, Esa. apply Rle_trans with (E / T); [|lra].
    rewrite Ea, Eb in *. apply (Rmult_le_reg_r (T * (1 / 111000))); [exact Hsa|].
    replace ((lat - (clat - E / 2 * (1 / 111000))) / (T * (1 / 111000))
             * (T * (1 / 111000)))
      with (lat - (clat - E / 2 * (1 / 111000))) by (field; lra).
    replace (E / T * (T * (1 / 111000))) with (E * (1 / 111000))
      by (field; lra).
    lra. }
  assert (Hlon : (lon - grid_lon_min g) / tile_size_lon g
                 <= IZR (num_tiles_x g)).
  { rewrite Enx, Esl. apply Rle_trans with (E / T); [|lra].
    rewrite Ec, Ed in *.
    apply (Rmult_le_reg_r (T * (1 / (88000 * c)))); [exact Hsl|].
    replace ((lon - (clon - E / 2 * (1 / (88000 * c))))
             / (T * (1 / (88000 * c))) * (T * (1 / (88000 * c))))
      with (lon - (clon - E / 2 * (1 / (88000 * c)))) by (field; lra).
    replace (E / T * (T * (1 / (88000 * c))))
      with (E * (1 / (88000 * c))) by (field; lra).
    lra. }
  rewrite <- Esa in Hsa. rewrite <- Esl in Hsl.
  destruct (clamped_index_bounds lat (grid_lat_min g) (tile_size_lat g)
              (num_tiles_y g) Hsa Hny Hb1 Hlat) as [Hy1 Hy2].
  destruct (clamped_index_bounds lon (grid_lon_min g) (tile_size_lon g)
              (num_tiles_x g) Hsl Hnx Hb3 Hlon) as [Hx1 Hx2].
  destruct (get_tile_in_bounds g lat lon Hwf Hnx Hny Hin)
    as (t & Hget & _ & _ & Ht & Hlk & _).
  exists t. rewrite Hget. simpl. split; [exact Hlk|]. split; [reflexivity|].
  destruct Hwf as [Hts _]. rewrite Hts in Ht.
  apply elem_of_generate_tiles in Ht as (ix & iy & _ & _ & ->).
  unfold get_tile in Hget. rewrite Hin in Hget. simpl in Hget.
  injection Hget as Hix Hiy.
  unfold contains. simpl.
  rewrite !andb_true_iff, !exact_leb_true_iff.
  rewrite <- Hix, <- Hiy. repeat split; assumption.
Qed.

(** On doubles the located tile need not contain the coordinate.  The
    bounds of a tile are computed from the lower edge of the grid, the upper
    edge of the grid from its centre; on the doubles of scenario B the last
    column ends one unit in the last place below the grid's [lon_max].  The
    corner [(grid_lat_min, grid_lon_max)] is inside the grid bounds and is
    located in [tile_x9_y0], the index being clamped; [Tile.contains] is
    false for that tile and that point, and no tile of the grid contains
    the point. *)
Theorem located_tile_may_miss_the_coordinate :
  on_grid scenario_B (fun g =>
    let lat := grid_lat_min g in
    let lon := grid_lon_max g in
    (in_grid_bounds g lat lon,
     get_tile g lat lon,
     (fun t => (contains t lat lon, lon_max t))
       <$> tile_lookup g !! (get_tile g lat lon).2,
     lon,
     filter (fun t => contains t lat lon = true) (tiles g)))
  = Some (true,
          (9%Z, 0%Z, "tile_x9_y0"),
          Some (false, (-0x1.e7f8b70037dd8p+6)%float),
          (-0x1.e7f8b70037dd7p+6)%float,
          []).
Proof. vm_compute. reflexivity. Qed.

End TileLookupFacts.

(** ** What the summaries of an aggregation hold *)

Module AggregateSummaryFacts.
Import Tiling Aggregate TilingFacts AggregateFacts.

Section Generic.
Context {F : Type} `{Arith F}.

(** *** What a summary holds *)

Lemma summarise_inv (a : TileAggregator F) (df : list (gmap string (cell F)))
    (k : string) (m : TileMetrics F) :
  summarise a df k = Ok (Some m) ->
  exists tile,
    tile_lookup (tile_grid a) !! k = Some tile
    /\ tm_tile_id m = k
    /\ tm_lat_min m = lat_min tile /\ tm_lat_max m = lat_max tile
    /\ tm_lon_min m = lon_min tile /\ tm_lon_max m = lon_max tile
    /\ frame_count m = agg_count (group df k) "frame_id"
    /\ agg_first_int (group df k) "tile_x" = Some (tm_tile_x m)
    /\ agg_first_int (group df k) "tile_y" = Some (tm_tile_y m)
    /\ (exists tmin,
          agg_min_int (group df k) "timestamp_ns" = Some tmin
          /\ timestamp_min_ns m = trunc (of_int tmin))
    /\ (exists tmax,
          agg_max_int (group df k) "timestamp_ns" = Some tmax
          /\ timestamp_max_ns m = trunc (of_int tmax)).
Proof.
  unfold summarise.
  destruct (tile_lookup (tile_grid a) !! k) as [tile|]; [|discriminate].
  destruct (agg_first_int _ "tile_x") as [tx|]; [|discriminate]. simpl.
  destruct (agg_first_int _ "tile_y") as [ty|]; [|discriminate]. simpl.
  destruct (agg_min_int _ _) as [tmin|]; [|discriminate]. simpl.
  destruct (agg_max_int _ _) as [tmax|]; [|discriminate]. simpl.
  intros [= <-]. exists tile. simpl. repeat split; eauto.
Qed.

Lemma aggregate_inv (a a' : TileAggregator F) (ms : list (TileMetrics F)) :
  aggregate a = (Ok ms, a') ->
  exists oms,
    Forall2 (fun k om => summarise a (frame_buffer a) k = Ok om)
            (group_keys (frame_buffer a)) oms
    /\ ms = omap (fun m => m) oms.
Proof.
  unfold aggregate.
  destruct (frame_buffer a) as [|r b] eqn:Eb.
  { simpl. intros [= <- _]. exists []. split; [constructor | reflexivity]. }
  simpl length. cbv iota beta.
  replace (S (length b) =? 0)%nat with false by reflexivity.
  destruct (negb (has_column (r :: b) "tile_id")); [discriminate|].
  destruct (negb (forallb _ _)); [discriminate|].
  destruct (mapM _ _) as [oms|] eqn:Em; [|discriminate].
  intros [= <- _]. exists oms. split; [|reflexivity].
  apply mapM_ok_inv, Em.
Qed.

Lemma summary_of_key (a a' : TileAggregator F) (ms : list (TileMetrics F))
    (m : TileMetrics F) :
  aggregate a = (Ok ms, a') -> m ∈ ms ->
  tm_tile_id m ∈ group_keys (frame_buffer a)
  /\ summarise a (frame_buffer a) (tm_tile_id m) = Ok (Some m).
Proof.
  intros Ha Hm. apply aggregate_inv in Ha as (oms & Hall & ->).
  apply list_elem_of_omap in Hm as (om & Hom & ->).
  apply list_elem_of_lookup_1 in Hom as [i Hi].
  destruct (Forall2_lookup_r _ _ _ _ _ Hall Hi) as (k & Hk & Hs).
  destruct (summarise_inv _ _ _ _ Hs) as (_ & _ & -> & _).
  split; [|exact Hs]. eapply list_elem_of_lookup_2, Hk.
Qed.

Lemma summary_ids_sublist (a : TileAggregator F)
    (df : list (gmap string (cell F))) (keys : list string)
    (oms : list (option (TileMetrics F))) :
  Forall2 (fun k om => summarise a df k = Ok om) keys oms ->
  sublist (tm_tile_id <$> omap (fun m => m) oms) keys.
Proof.
  induction 1 as [|k om keys oms Hs _ IH]; [constructor|].
  destruct om as [m|]; simpl.
  - destruct (summarise_inv _ _ _ _ Hs) as (_ & _ & -> & _).
    apply sublist_skip, IH.
  - apply sublist_cons, IH.
Qed.

(** *** Minimum and maximum of a column *)





Lemma elem_of_group (df : list (gmap string (cell F))) (k : string)
    (r : gmap string (cell F)) :
  r ∈ group df k <-> r ∈ df /\ get_str r "tile_id" = Some k.
Proof. unfold group. rewrite list_elem_of_filter. tauto. Qed.

(** [aggregate] returns at most one summary per tile: the ids of the
    summaries are pairwise distinct.  Each summary belongs to a tile of the
    grid's lookup dictionary, whose bounds it carries, and at least one
    buffered row was located in that tile. *)
Theorem aggregate_one_summary_per_tile (a a' : TileAggregator F)
    (ms : list (TileMetrics F)) :
  aggregate a = (Ok ms, a') ->
  NoDup (tm_tile_id <$> ms)
  /\ forall m, m ∈ ms ->
       (exists tile,
          tile_lookup (tile_grid a) !! tm_tile_id m = Some tile
          /\ tm_lat_min m = lat_min tile /\ tm_lat_max m = lat_max tile
          /\ tm_lon_min m = lon_min tile /\ tm_lon_max m = lon_max tile)
       /\ exists r, r ∈ frame_buffer a
            /\ get_str r "tile_id" = Some (tm_tile_id m).
Proof.
  intros Ha. split.
  - destruct (aggregate_inv _ _ _ Ha) as (oms & Hall & ->).
    eapply sublist_NoDup; [|eapply summary_ids_sublist, Hall].
    apply NoDup_remove_dups.
  - intros m Hm. destruct (summary_of_key _ _ _ _ Ha Hm) as [Hk Hs].
    destruct (summarise_inv _ _ _ _ Hs)
      as (tile & Hlk & _ & E1 & E2 & E3 & E4 & _).
    split; [exists tile; auto|].
    apply elem_of_remove_dups, list_elem_of_omap in Hk as (r & Hr & Hrk).
    eauto.
Qed.


End Generic.
End AggregateSummaryFacts.

(** ** Frame counts *)

Module AggregateCountFacts.
Import Tiling Aggregate TilingFacts AggregateFacts TileLookupFacts
  AggregateSummaryFacts.

Section Generic.
Context {F : Type} `{Arith F}.

(** *** The rows of an aggregator in use *)

Lemma make_row_tile_id (f : FrameFeatures F) (lat lon : F) (tx ty : Z)
    (tid : string) :
  get_str (make_row f lat lon tx ty tid) "tile_id" = Some tid.
Proof.
  unfold get_str. rewrite make_row_plain; [|split; discriminate|discriminate].
  reflexivity.
Qed.

(** [add_frame] buffers one row for a record that carries both coordinates,
    inside the grid bounds, and nothing otherwise. *)
Lemma add_frame_cases (a : TileAggregator F) (f : FrameFeatures F) :
  (exists lat lon tx ty tid,
     lat_deg f = Some lat /\ lon_deg f = Some lon
     /\ in_grid_bounds (tile_grid a) lat lon = true
     /\ get_tile (tile_grid a) lat lon = (tx, ty, tid)
     /\ add_frame a f
        = set_frame_buffer a (frame_buffer a ++ [make_row f lat lon tx ty tid]))
  \/ (add_frame a f = a
      /\ (lat_deg f = None \/ lon_deg f = None
          \/ exists lat lon, lat_deg f = Some lat /\ lon_deg f = Some lon
               /\ in_grid_bounds (tile_grid a) lat lon = false)).
Proof.
  destruct (lat_deg f) as [lat|] eqn:Elat;
    [|right; split; [apply add_frame_skips|]; auto].
  destruct (lon_deg f) as [lon|] eqn:Elon;
    [|right; split; [apply add_frame_skips|]; auto].
  destruct (in_grid_bounds (tile_grid a) lat lon) eqn:Ein.
  - left. destruct (add_frame_located a f lat lon Elat Elon Ein)
      as (tx & ty & tid & Hget & Hadd).
    exists lat, lon, tx, ty, tid. auto.
  - right. split.
    + apply add_frame_skips. right. right. exists lat, lon. auto.
    + right. right. exists lat, lon. auto.
Qed.

Lemma reachable_rows_located (g : TileGrid F) (window n : Z)
    (a : TileAggregator F) :
  well_formed g -> (1 <= num_tiles_x g)%Z -> (1 <= num_tiles_y g)%Z ->
  reachable g window n a ->
  Forall (fun r => exists t, get_str r "tile_id" = Some (tile_id t)
                     /\ tile_lookup g !! tile_id t = Some t)
         (frame_buffer a).
Proof.
  intros Hwf Hx Hy. induction 1 as [|a f Ha IH Hf|a Ha IH|a Ha IH].
  - constructor.
  - destruct (reachable_invariant _ _ _ _ Ha) as (_ & Hg & _).
    destruct (add_frame_cases a f)
      as [(lat & lon & tx & ty & tid & _ & _ & Hin & Hget & ->)|[-> _]];
      [|exact IH].
    simpl. apply Forall_app. split; [exact IH|].
    constructor; [|constructor].
    rewrite Hg in Hin, Hget.
    destruct (get_tile_in_bounds g lat lon Hwf Hx Hy Hin)
      as (t & Hget' & _ & _ & _ & Hlk & _).
    rewrite Hget in Hget'. injection Hget' as _ _ ->.
    exists t. split; [apply make_row_tile_id | exact Hlk].
  - destruct (aggregate a) as [[ms|e] a'] eqn:Ea; simpl.
    + apply aggregate_returns in Ea as [_ ->]. constructor.
    + apply aggregate_raises in Ea as ->. exact IH.
  - unfold flush. destruct (aggregate a) as [[ms|e] a'] eqn:Ea; simpl.
    + apply aggregate_returns in Ea as [_ ->]. constructor.
    + apply aggregate_raises in Ea as ->. exact IH.
Qed.

(** *** Groups partition the buffer *)

Lemma sum_zero {A : Type} (l : list A) :
  foldr Nat.add 0%nat ((fun _ => 0%nat) <$> l) = 0%nat.
Proof.
  induction l as [|x l IH]; [reflexivity|].
  rewrite fmap_cons. cbn [foldr]. exact IH.
Qed.

Lemma sum_add {A : Type} (f g : A -> nat) (l : list A) :
  foldr Nat.add 0%nat ((fun x => (f x + g x)%nat) <$> l)
  = (foldr Nat.add 0%nat (f <$> l) + foldr Nat.add 0%nat (g <$> l))%nat.
Proof.
  induction l as [|x l IH]; [reflexivity|].
  rewrite !fmap_cons. cbn [foldr]. rewrite IH. lia.
Qed.

Lemma sum_indicator (keys : list string) (k0 : string) :
  NoDup keys -> k0 ∈ keys ->
  foldr Nat.add 0%nat
    ((fun k => if decide (Some k0 = Some k) then 1%nat else 0%nat) <$> keys)
  = 1%nat.
Proof.
  induction 1 as [|k keys Hk Hnd IH]; intros Hin.
  - apply elem_of_nil in Hin. destruct Hin.
  - rewrite fmap_cons. cbn [foldr].
    destruct (decide (Some k0 = Some k)) as [[= ->]|Hne].
    + rewrite (list_fmap_ext _ (fun _ => 0%nat) keys), sum_zero;
        [reflexivity|].
      intros i k' Hk'. destruct (decide (Some k = Some k')) as [[= <-]|];
        [|reflexivity].
      destruct Hk. eapply list_elem_of_lookup_2, Hk'.
    + apply elem_of_cons in Hin as [->|Hin]; [congruence|].
      rewrite IH by exact Hin. reflexivity.
Qed.

Lemma group_sizes_sum (df : list (gmap string (cell F))) (keys : list string) :
  NoDup keys ->
  (forall r, r ∈ df -> exists k, k ∈ keys /\ get_str r "tile_id" = Some k) ->
  foldr Nat.add 0%nat ((fun k => length (group df k)) <$> keys) = length df.
Proof.
  intros Hnd. induction df as [|r df IH]; intros Hkeys.
  - apply sum_zero.
  - destruct (Hkeys r) as (k0 & Hk0 & Hr); [left|].
    rewrite (list_fmap_ext _
               (fun k => ((if decide (Some k0 = Some k) then 1 else 0)
                          + length (group df k))%nat) keys).
    + rewrite sum_add, (sum_indicator keys k0 Hnd Hk0), IH; [reflexivity|].
      intros r' Hr'. apply Hkeys. right. exact Hr'.
    + intros i k _. unfold group. rewrite filter_cons, Hr.
      destruct (decide (Some k0 = Some k)); reflexivity.
Qed.

Lemma agg_count_all (g : list (gmap string (cell F))) (c : string) :
  Forall (fun r => is_Some (r !! c)) g ->
  agg_count g c = Z.of_nat (length g).
Proof.
  intros Hall. unfold agg_count. f_equal.
  induction Hall as [|r g [x Hx] _ IH]; [reflexivity|].
  cbn [omap list_omap]. rewrite Hx. cbn [length]. rewrite IH. reflexivity.
Qed.

Lemma counts_sum (a : TileAggregator F) (df : list (gmap string (cell F)))
    (keys : list string) (oms : list (option (TileMetrics F))) :
  Forall (fun r => is_Some (r !! "frame_id")) df ->
  Forall (fun k => is_Some (tile_lookup (tile_grid a) !! k)) keys ->
  Forall2 (fun k om => summarise a df k = Ok om) keys oms ->
  foldr Z.add 0%Z (frame_count <$> omap (fun m => m) oms)
  = Z.of_nat (foldr Nat.add 0%nat ((fun k => length (group df k)) <$> keys)).
Proof.
  intros Hid Hkeys Hall. induction Hall as [|k om keys oms Hs _ IH].
  - reflexivity.
  - apply Forall_cons in Hkeys as [[tile Hk] Hkeys].
    destruct om as [m|].
    + cbn [omap list_omap]. rewrite !fmap_cons. cbn [foldr].
      rewrite IH by exact Hkeys.
      destruct (summarise_inv _ _ _ _ Hs)
        as (_ & _ & _ & _ & _ & _ & _ & -> & _).
      rewrite agg_count_all; [lia|].
      unfold group. apply Forall_forall. intros r Hr.
      apply list_elem_of_filter in Hr as [_ Hr].
      rewrite Forall_forall in Hid. auto.
    + unfold summarise in Hs. rewrite Hk in Hs.
      destruct (to_int (agg_first_int _ "tile_x")); [|discriminate].
      simpl in Hs.
      destruct (to_int (agg_first_int _ "tile_y")); [|discriminate].
      simpl in Hs.
      destruct (to_int_from_float (agg_min_int _ _)); [|discriminate]. simpl in Hs.
      destruct (to_int_from_float (agg_max_int _ _)); discriminate.
Qed.

(** On an aggregator in use over a grid with at least one tile per axis,
    [aggregate] counts every buffered row exactly once: it returns, and the
    frame counts of the summaries add up to the number of rows the buffer
    held; no summary has a frame count of zero. *)
Theorem aggregate_counts_every_row (c clat clon T E : F) (g : TileGrid F)
    (window n : Z) (a : TileAggregator F) :
  TileGrid_init c clat clon T E = Ok g ->
  (1 <= num_tiles_x g)%Z -> (1 <= num_tiles_y g)%Z ->
  reachable g window n a ->
  exists ms,
    aggregate a = (Ok ms, set_frame_buffer a [])
    /\ foldr Z.add 0%Z (frame_count <$> ms)
       = Z.of_nat (length (frame_buffer a))
    /\ forall m, m ∈ ms -> (1 <= frame_count m)%Z.
Proof.
  intros Hg Hx Hy Hreach.
  pose proof (TileGrid_init_well_formed _ _ _ _ _ _ Hg) as Hwf.
  destruct (reachable_invariant _ _ _ _ Hreach) as (Hn & Hgrid & Hok).
  pose proof (reachable_rows_located _ _ _ _ Hwf Hx Hy Hreach) as Hloc.
  rewrite <- Hn in Hok.
  destruct (aggregate_total a Hok) as [ms Hms]. exists ms.
  split; [exact Hms|].
  assert (Hid : Forall (fun r => is_Some (r !! "frame_id")) (frame_buffer a)).
  { eapply Forall_impl; [exact Hok|]. intros r (Hfid & _).
    apply get_int_is_Some, Hfid. }
  split.
  - destruct (aggregate_inv _ _ _ Hms) as (oms & Hall & ->).
    rewrite (counts_sum a (frame_buffer a) (group_keys (frame_buffer a))
               oms Hid); [| |exact Hall].
    + f_equal. apply group_sizes_sum; [apply NoDup_remove_dups|].
      intros r Hr. rewrite Forall_forall in Hloc.
      destruct (Hloc r Hr) as (t & Hstr & _). exists (tile_id t).
      split; [|exact Hstr].
      apply elem_of_remove_dups, list_elem_of_omap. eauto.
    + apply Forall_forall. intros k Hk.
      apply elem_of_remove_dups, list_elem_of_omap in Hk as (r & Hr & Hrk).
      rewrite Forall_forall in Hloc. destruct (Hloc r Hr) as (t & Hstr & Hlk).
      rewrite Hgrid. assert (k = tile_id t) as -> by congruence. eauto.
  - intros m Hm. destruct (summary_of_key _ _ _ _ Hms Hm) as [Hk Hs].
    destruct (summarise_inv _ _ _ _ Hs)
      as (_ & _ & _ & _ & _ & _ & _ & -> & _).
    apply elem_of_remove_dups, list_elem_of_omap in Hk as (r & Hr & Hrk).
    rewrite agg_count_all.
    + assert (Hin : r ∈ group (frame_buffer a) (tm_tile_id m))
        by (apply elem_of_group; auto).
      destruct (group (frame_buffer a) (tm_tile_id m)); [inversion Hin|].
      simpl. lia.
    + unfold group. apply Forall_forall. intros r' Hr'.
      apply list_elem_of_filter in Hr' as [_ Hr'].
      rewrite Forall_forall in Hid. auto.
Qed.

End Generic.
End AggregateCountFacts.

(** ** Slices and bounded queues *)

Module QueueFacts.

Lemma last_n_length_le {A : Type} (n : nat) (l : list A) :
  (length (last_n n l) <= n)%nat.
Proof. unfold last_n. rewrite length_drop. lia. Qed.

Lemma last_n_length {A : Type} (n : nat) (l : list A) :
  length (last_n n l) = Nat.min n (length l).
Proof. unfold last_n. rewrite length_drop. lia. Qed.

Lemma last_n_short {A : Type} (n : nat) (l : list A) :
  (length l <= n)%nat -> last_n n l = l.
Proof.
  intros Hle. unfold last_n.
  replace (length l - n)%nat with 0%nat by lia. apply drop_0.
Qed.

Lemma last_n_snoc {A : Type} (n : nat) (l : list A) (x : A) :
  last_n n (last_n n l ++ [x]) = last_n n (l ++ [x]).
Proof.
  destruct n as [|n].
  { unfold last_n. rewrite !Nat.sub_0_r, !drop_all. reflexivity. }
  unfold last_n. rewrite !length_app, length_drop. simpl.
  destruct (Nat.le_gt_cases (length l) (S n)) as [Hle|Hgt].
  - replace (length l - S n)%nat with 0%nat by lia. rewrite drop_0.
    f_equal. lia.
  - replace (length l - (length l - S n) + 1 - S n)%nat with 1%nat by lia.
    replace (length l + 1 - S n)%nat with (length l - S n + 1)%nat by lia.
    rewrite !drop_app_le by (rewrite ?length_drop; lia).
    rewrite drop_drop. reflexivity.
Qed.

Lemma last_n_last {A : Type} (n : nat) (l : list A) :
  (1 <= n)%nat -> last (last_n n l) = last l.
Proof.
  intros Hn. unfold last_n.
  destruct l as [|x l] using rev_ind; [reflexivity|].
  rewrite length_app. simpl.
  rewrite drop_app_le by lia. rewrite !last_snoc. reflexivity.
Qed.

Lemma deque_append_last_n {A : Type} (n : nat) (d : list A) (x : A) :
  (length d <= n)%nat -> deque_append n d x = last_n n (d ++ [x]).
Proof.
  intros Hle. unfold deque_append, last_n. rewrite length_app. simpl.
  destruct (Nat.ltb_spec n (length d + 1)) as [Hlt|Hge].
  - f_equal. lia.
  - replace (length d + 1 - n)%nat with 0%nat by lia. rewrite drop_0.
    reflexivity.
Qed.

(** A bounded queue that starts empty holds the last [maxlen] of the
    entries appended to it. *)
Lemma deque_fill {A : Type} (n : nat) (xs : list A) :
  foldl (deque_append n) [] xs = last_n n xs.
Proof.
  induction xs as [|x xs IH] using rev_ind.
  - unfold last_n. reflexivity.
  - rewrite foldl_app. simpl. rewrite IH.
    rewrite deque_append_last_n by apply last_n_length_le.
    apply last_n_snoc.
Qed.

End QueueFacts.

(** ** The frame loop *)

Module FrameLoopFacts.
Import Tiling Aggregate FrameLoop TilingFacts AggregateFacts
  TileLookupFacts AggregateSummaryFacts AggregateCountFacts QueueFacts.

Section Generic.
Context {F : Type} `{Arith F}.

(** [add_frame] appends one row to the buffer for a record that carries
    both coordinates and lies inside the grid bounds, and leaves the
    aggregator as it is for any other record; it never touches the rows
    already buffered, the grid, the window or the band count. *)
Theorem add_frame_buffers_located_records (a : TileAggregator F)
    (f : FrameFeatures F) :
  length (frame_buffer (add_frame a f))
  = (length (frame_buffer a)
     + match lat_deg f, lon_deg f with
       | Some lat, Some lon =>
           if in_grid_bounds (tile_grid a) lat lon then 1 else 0
       | _, _ => 0
       end)%nat
  /\ take (length (frame_buffer a)) (frame_buffer (add_frame a f))
     = frame_buffer a
  /\ (length (frame_buffer (add_frame a f)) = length (frame_buffer a) ->
      add_frame a f = a)
  /\ tile_grid (add_frame a f) = tile_grid a
  /\ aggregate_window_frames (add_frame a f) = aggregate_window_frames a
  /\ num_bands (add_frame a f) = num_bands a.
Proof.
  destruct (add_frame_fields a f) as (En & Eg & Ew).
  split; [|split; [|split]]; [| | |auto].
  - destruct (add_frame_cases a f)
      as [(lat & lon & tx & ty & tid & -> & -> & -> & _ & ->)
         |[-> [->|[->|(lat & lon & -> & -> & ->)]]]]; simpl.
    + rewrite length_app. reflexivity.
    + lia.
    + destruct (lat_deg f); lia.
    + lia.
  - destruct (add_frame_cases a f)
      as [(lat & lon & tx & ty & tid & _ & _ & _ & _ & ->)|[-> _]]; simpl.
    + rewrite take_app_length. reflexivity.
    + apply firstn_all.
  - destruct (add_frame_cases a f)
      as [(lat & lon & tx & ty & tid & _ & _ & _ & _ & ->)|[-> _]]; simpl.
    + rewrite length_app. simpl. lia.
    + reflexivity.
Qed.

Lemma add_frame_length_le (a : TileAggregator F) (f : FrameFeatures F) :
  (length (frame_buffer (add_frame a f)) <= length (frame_buffer a) + 1)%nat.
Proof.
  destruct (add_frame_cases a f)
    as [(lat & lon & tx & ty & tid & _ & _ & _ & _ & ->)|[-> _]]; simpl.
  - rewrite length_app. simpl. lia.
  - lia.
Qed.

(** One pass of the application's frame loop over an aggregator in use
    whose buffer holds fewer rows than the window: afterwards the buffer
    again holds fewer rows than the window, the call to [aggregate], when
    made, having returned and emptied it; and a list of tile summaries of at
    most 100 entries stays one. *)
Theorem frame_loop_keeps_buffer_below_window (g : TileGrid F) (window n : Z)
    (s : Session F) (f : FrameFeatures F) :
  reachable g window n (tile_aggregator s) ->
  valid_record n f ->
  (1 <= window)%Z ->
  (Z.of_nat (length (frame_buffer (tile_aggregator s))) < window)%Z ->
  reachable g window n (tile_aggregator (aggregate_step s f))
  /\ (Z.of_nat (length (frame_buffer (tile_aggregator (aggregate_step s f))))
      < window)%Z
  /\ ((length (tile_metrics s) <= 100)%nat ->
      (length (tile_metrics (aggregate_step s f)) <= 100)%nat)
  /\ (should_aggregate (add_frame (tile_aggregator s) f) = true ->
      frame_buffer (tile_aggregator (aggregate_step s f)) = []
      /\ Z.of_nat (length (frame_buffer (add_frame (tile_aggregator s) f)))
         = window).
Proof.
  intros Hreach Hf Hw Hlen.
  pose proof (reach_add_frame g window n _ f Hreach Hf) as Hreach1.
  pose proof (add_frame_length_le (tile_aggregator s) f) as Hle.
  destruct (reachable_invariant _ _ _ _ Hreach1) as (Hn & _ & Hok).
  destruct (add_frame_fields (tile_aggregator s) f) as (_ & _ & Ew).
  destruct (reachable_invariant _ _ _ _ Hreach) as (_ & _ & _).
  assert (Hwin : aggregate_window_frames (tile_aggregator s) = window).
  { clear -Hreach. induction Hreach as [|a f' _ IH _|a _ IH|a _ IH].
    - reflexivity.
    - destruct (add_frame_fields a f') as (_ & _ & ->). exact IH.
    - destruct (aggregate a) as [[ms|e] a'] eqn:Ea; simpl.
      + apply aggregate_returns in Ea as [-> _]. exact IH.
      + apply aggregate_raises in Ea as ->. exact IH.
    - unfold flush. destruct (aggregate a) as [[ms|e] a'] eqn:Ea; simpl.
      + apply aggregate_returns in Ea as [-> _]. exact IH.
      + apply aggregate_raises in Ea as ->. exact IH. }
  unfold aggregate_step.
  set (a1 := add_frame (tile_aggregator s) f) in *.
  unfold should_aggregate. rewrite Ew, Hwin.
  destruct (Z.leb_spec window (Z.of_nat (length (frame_buffer a1))))
    as [Hfull|Hnot].
  - rewrite <- Hn in Hok. destruct (aggregate_total a1 Hok) as [ms Hms].
    pose proof (reach_aggregate g window n a1 Hreach1) as Hreach2.
    rewrite Hms in *. simpl in Hreach2.
    assert (Hlim : forall tm : list (TileMetrics F),
              (length (if (100 <? length tm)%nat then last_n 100 tm else tm)
               <= 100)%nat).
    { intros tm. destruct (Nat.ltb_spec 100 (length tm));
        [apply last_n_length_le | lia]. }
    destruct ms as [|m ms]; simpl;
      (split; [exact Hreach2|]; split; [lia|]; split;
       [first [intros _; apply Hlim | auto] | intros _; split; [reflexivity|lia]]).
  - simpl. split; [exact Hreach1|]. split; [lia|]. split; [auto|].
    discriminate.
Qed.

End Generic.

(** *** On the scenario-B grid *)

Lemma scenario_B_tile_counts :
  on_grid scenario_B (fun g => (num_tiles_x g, num_tiles_y g))
  = Some (10%Z, 10%Z).
Proof. vm_compute. reflexivity. Qed.

Lemma scenario_B_one_record_summary :
  on_grid scenario_B (fun g =>
    match aggregate (add_frame (TileAggregator_init g 5 3) three_band_record)
    with
    | (Ok (m :: _), _) => true
    | _ => false
    end)
  = Some true.
Proof. vm_compute. reflexivity. Qed.

Lemma aggregate_one_summary_per_tile_witness :
  match scenario_B with
  | Ok g =>
      exists ms a',
        aggregate (add_frame (TileAggregator_init g 5 3) three_band_record)
        = (Ok ms, a')
        /\ NoDup (tm_tile_id <$> ms)
  | Raise _ => False
  end.
Proof.
  pose proof scenario_B_one_record_summary as Hm.
  destruct scenario_B as [g|e]; [|discriminate Hm].
  unfold on_grid in Hm.
  destruct (aggregate (add_frame (TileAggregator_init g 5 3) three_band_record))
    as [[ms|e] a'] eqn:Ea; [|discriminate Hm].
  exists ms, a'. split; [reflexivity|].
  exact (proj1 (aggregate_one_summary_per_tile _ _ _ Ea)).
Defined.



Lemma aggregate_counts_every_row_witness :
  match scenario_B with
  | Ok g =>
      let a := add_frame (TileAggregator_init g 5 3) three_band_record in
      exists ms,
        aggregate a = (Ok ms, set_frame_buffer a [])
        /\ foldr Z.add 0%Z (frame_count <$> ms)
           = Z.of_nat (length (frame_buffer a))
  | Raise _ => False
  end.
Proof.
  pose proof scenario_B_tile_counts as Hn.
  destruct scenario_B as [g|e] eqn:Hg; [|discriminate Hn].
  simpl in Hn. injection Hn as Hx Hy. cbv zeta.
  destruct (aggregate_counts_every_row _ _ _ _ _ g 5 3
              (add_frame (TileAggregator_init g 5 3) three_band_record) Hg)
    as (ms & Hms & Hsum & _).
  - rewrite Hx. lia.
  - rewrite Hy. lia.
  - apply reach_add_frame; [apply reach_init | split; reflexivity].
  - exists ms. split; assumption.
Defined.

Lemma frame_loop_keeps_buffer_below_window_witness :
  match scenario_B with
  | Ok g =>
      let s := {| tile_aggregator := TileAggregator_init g 5 3;
                  tile_metrics := [] |} in
      (Z.of_nat (length (frame_buffer
                           (tile_aggregator (aggregate_step s three_band_record))))
       < 5)%Z
  | Raise _ => False
  end.
Proof.
  pose proof scenario_B_tile_counts as Hn.
  destruct scenario_B as [g|e]; [|discriminate Hn].
  cbv zeta.
  destruct (frame_loop_keeps_buffer_below_window g 5 3
              {| tile_aggregator := TileAggregator_init g 5 3;
                 tile_metrics := [] |} three_band_record)
    as (_ & Hlt & _).
  - apply reach_init.
  - split; reflexivity.
  - lia.
  - simpl. lia.
  - exact Hlt.
Defined.

End FrameLoopFacts.

(** ** Band features and the noise floor *)

Module FeatureFacts.
Import DSP ExactFacts SpectralFacts SmoothingFacts PipelineFacts.

(** *** Selection by a mask *)

Lemma elem_of_select {A : Type} (mask : list bool) (x : list A) (a : A) :
  a ∈ select mask x -> a ∈ x.
Proof.
  unfold select. intros Ha.
  apply list_elem_of_fmap in Ha as ([b a'] & -> & Hin).
  apply list_elem_of_filter in Hin as [_ Hin].
  apply list_elem_of_lookup_1 in Hin as [i Hi].
  apply lookup_zip_with_Some in Hi as (b' & a'' & [= <- <-] & _ & Hx).
  eapply list_elem_of_lookup_2, Hx.
Qed.

Lemma select_none {A : Type} (mask : list bool) (x : list A) :
  Forall (fun b => b = false) mask -> select mask x = [].
Proof.
  intros Hm. unfold select. rewrite filter_none; [reflexivity|].
  apply Forall_forall. intros [b a] Hin Hb. simpl in Hb.
  apply list_elem_of_lookup_1 in Hin as [i Hi].
  apply lookup_zip_with_Some in Hi as (b' & a' & [= <- <-] & Hmask & _).
  rewrite Forall_forall in Hm.
  rewrite (Hm b) in Hb by (eapply list_elem_of_lookup_2, Hmask).
  discriminate.
Qed.

(** *** Occupancy *)

(** [compute_occupancy] returns a percentage: a value between 0 and 100,
    whatever the bins, the band, the noise floor and the threshold are. *)
Theorem compute_occupancy_is_a_percentage (freq_bins psd : list R)
    (band : Band.t) (center nf thr : R) :
  0 <= compute_occupancy freq_bins psd band center nf thr <= 100.
Proof.
  unfold compute_occupancy. set (sel := select _ psd).
  destruct (length sel =? 0)%nat eqn:E; [lra|].
  apply Nat.eqb_neq in E.
  set (occ := filter _ sel).
  assert (Hle : (length occ <= length sel)%nat) by apply length_filter.
  assert (Htot : 0 < INR (length sel)) by (apply lt_0_INR; lia).
  assert (Hocc : 0 <= INR (length occ)) by apply pos_INR.
  assert (Hle' : INR (length occ) <= INR (length sel)) by (apply le_INR, Hle).
  assert (Hq0 : 0 <= INR (length occ) / INR (length sel)).
  { apply Rmult_le_pos; [exact Hocc|]. left. apply Rinv_0_lt_compat, Htot. }
  assert (Hq1 : INR (length occ) / INR (length sel) <= 1).
  { apply (Rmult_le_reg_r (INR (length sel))); [exact Htot|].
    unfold Rdiv. rewrite Rmult_assoc, Rinv_l by lra. lra. }
  split; lra.
Qed.

(** *** Band power *)

Lemma log10_floor_linear : log10 (1 / 10 ^ 12) = -12.
Proof.
  unfold log10. replace (1 / 10 ^ 12) with (/ 10 ^ 12) by lra.
  rewrite ln_Rinv by (apply pow_lt; lra). rewrite ln_pow by lra.
  pose proof ln_10_pos. replace (INR 12) with 12 by (simpl; lra).
  field. lra.
Qed.

(** [compute_bandpower] never returns less than -120 dB, the level of the
    floor of [1e-12] it applies to the integrated power, and it returns
    exactly -120 dB for a band that holds none of the frequency bins. *)
Theorem compute_bandpower_floor (freq_bins psd_linear : list R)
    (band : Band.t) (center : R) :
  -120 <= compute_bandpower freq_bins psd_linear band center
  /\ (Forall (fun f => ~ (Band.start_hz band - center <= f
                          <= Band.end_hz band - center)) freq_bins ->
      compute_bandpower freq_bins psd_linear band center = -120).
Proof.
  unfold compute_bandpower.
  assert (Hpos : 0 < 1 / 10 ^ 12).
  { apply Rdiv_lt_0_compat; [lra|]. apply pow_lt. lra. }
  split.
  - set (p := Rsum _ * _).
    pose proof (log10_le (1 / 10 ^ 12) (Rmax p (1 / 10 ^ 12)) Hpos
                  (Rmax_r _ _)) as Hle.
    rewrite log10_floor_linear in Hle. lra.
  - intros Hout. rewrite select_none.
    + change (Rsum []) with 0. rewrite Rmult_0_l, Rmax_right by lra.
      rewrite log10_floor_linear. lra.
    + unfold band_mask. apply Forall_fmap.
      eapply Forall_impl; [exact Hout|]. intros f Hf. simpl.
      destruct (Exact.leb (Band.start_hz band - center) f) eqn:E1;
        [|reflexivity].
      destruct (Exact.leb f (Band.end_hz band - center)) eqn:E2;
        [|reflexivity].
      apply exact_leb_true_iff in E1, E2. destruct Hf. split; assumption.
Qed.

(** *** Percentiles *)

Lemma elem_of_insert_sorted (x y : R) (l : list R) :
  y ∈ insert_sorted x l <-> y = x \/ y ∈ l.
Proof.
  induction l as [|z l IH]; simpl.
  - rewrite list_elem_of_singleton, elem_of_nil. tauto.
  - destruct (Exact.leb x z).
    + rewrite elem_of_cons. tauto.
    + rewrite !elem_of_cons, IH. tauto.
Qed.

Lemma elem_of_sort (y : R) (l : list R) : y ∈ sort l <-> y ∈ l.
Proof.
  induction l as [|x l IH]; [reflexivity|].
  unfold sort in *. simpl. rewrite elem_of_insert_sorted, IH, elem_of_cons.
  tauto.
Qed.

Lemma insert_sorted_length (x : R) (l : list R) :
  length (insert_sorted x l) = S (length l).
Proof.
  induction l as [|z l IH]; [reflexivity|]. simpl.
  destruct (Exact.leb x z); simpl; [reflexivity | rewrite IH; reflexivity].
Qed.

Lemma sort_length (l : list R) : length (sort l) = length l.
Proof.
  induction l as [|x l IH]; [reflexivity|].
  unfold sort in *. simpl. rewrite insert_sorted_length, IH. reflexivity.
Qed.

(** The two ranks the percentile interpolates between are positions of the
    sorted array. *)
Lemma percentile_ranks (n : nat) (q : R) :
  (1 <= n)%nat -> 0 <= q <= 100 ->
  (Z.to_nat (Zfloor (q / 100 * (INR n - 1))) < n)%nat
  /\ (Z.to_nat (Zceil (q / 100 * (INR n - 1))) < n)%nat
  /\ 0 <= q / 100 * (INR n - 1) - IZR (Zfloor (q / 100 * (INR n - 1))) < 1.
Proof.
  intros Hn Hq. set (idx := q / 100 * (INR n - 1)).
  assert (Hn1 : 1 <= INR n) by (apply (le_INR 1); exact Hn).
  assert (H0 : 0 <= idx) by (apply Rmult_le_pos; lra).
  assert (H1 : idx <= INR n - 1).
  { unfold idx. assert (q / 100 * (INR n - 1) <= 1 * (INR n - 1))
      by (apply Rmult_le_compat_r; lra). lra. }
  pose proof (Zfloor_bound idx) as [Hf1 Hf2].
  pose proof (Zceil_bound idx) as [Hc1 Hc2].
  rewrite INR_IZR_INZ in H1, Hn1.
  assert (Hf0 : (0 <= Zfloor idx)%Z) by (apply Zfloor_lub; exact H0).
  assert (Hfn : (Zfloor idx < Z.of_nat n)%Z) by (apply lt_IZR; lra).
  assert (Hc0 : (-1 < Zceil idx)%Z) by (apply lt_IZR; lra).
  assert (Hcn : (Zceil idx < Z.of_nat n)%Z) by (apply lt_IZR; lra).
  split; [lia|]. split; [lia|]. lra.
Qed.

Lemma interpolation_bounds (below above t lo hi : R) :
  0 <= t < 1 -> lo <= below <= hi -> lo <= above <= hi ->
  lo <= below + t * (above - below) <= hi.
Proof.
  intros Ht Hb Ha.
  replace (below + t * (above - below))
    with ((1 - t) * below + t * above) by ring.
  assert ((1 - t) * lo <= (1 - t) * below)
    by (apply Rmult_le_compat_l; lra).
  assert ((1 - t) * below <= (1 - t) * hi)
    by (apply Rmult_le_compat_l; lra).
  assert (t * lo <= t * above) by (apply Rmult_le_compat_l; lra).
  assert (t * above <= t * hi) by (apply Rmult_le_compat_l; lra).
  split; lra.
Qed.

Lemma percentile_bounds (a : list R) (q lo hi : R) :
  a <> [] -> 0 <= q <= 100 ->
  Forall (fun x => lo <= x <= hi) a ->
  exists v, percentile a q = Ok v /\ lo <= v <= hi.
Proof.
  intros Ha Hq Hall. unfold percentile.
  rewrite !exact_leb_true by lra. simpl.
  eexists. split; [reflexivity|].
  assert (Hn : (1 <= length (sort a))%nat).
  { rewrite sort_length. destruct a; [congruence | simpl; lia]. }
  destruct (percentile_ranks _ q Hn Hq) as (Hlo & Hhi & Ht).
  assert (Hel : forall i, (i < length (sort a))%nat ->
                  lo <= nth i (sort a) 0 <= hi).
  { intros i Hi. rewrite Forall_forall in Hall. apply Hall.
    apply elem_of_sort, list_elem_of_In, nth_In, Hi. }
  apply interpolation_bounds; auto.
Qed.

(** The noise floor estimate lies within the range of the PSD it is taken
    from: for a non-empty array and a percentile between 0 and 100,
    [estimate_noise_floor] returns, and the value it returns lies between
    any lower and any upper bound of the array's entries. *)
Theorem estimate_noise_floor_within_range (psd : list R) (q lo hi : R) :
  psd <> [] -> 0 <= q <= 100 ->
  Forall (fun x => lo <= x <= hi) psd ->
  exists v, estimate_noise_floor psd q = Ok v /\ lo <= v <= hi.
Proof. intros Ha Hq Hall. apply percentile_bounds; assumption. Qed.

Lemma estimate_noise_floor_within_range_witness :
  exists v, estimate_noise_floor [1; 3; 2] 50 = Ok v /\ 1 <= v <= 3.
Proof.
  apply estimate_noise_floor_within_range; [discriminate | lra |].
  repeat constructor; lra.
Defined.

End FeatureFacts.

(** ** Broadcast results, and the smoothed spectrum in single precision *)

Module SmoothingRangeFacts.
Import DSP ExactFacts SpectralFacts SmoothingFacts PipelineFacts FeatureFacts.

(** Every entry of a broadcast result combines an entry of each operand. *)
Lemma broadcast_elem {A B D : Type} (f : A -> B -> D)
    (xs : list A) (ys : list B) (zs : list D) (z : D) :
  broadcast f xs ys = Ok zs -> z ∈ zs ->
  exists x y, x ∈ xs /\ y ∈ ys /\ z = f x y.
Proof.
  unfold broadcast. destruct (length xs =? length ys)%nat.
  - intros [= <-] Hz. apply list_elem_of_lookup_1 in Hz as [i Hi].
    apply lookup_zip_with_Some in Hi as (x & y & -> & Hx & Hy).
    exists x, y. split; [eapply list_elem_of_lookup_2, Hx|].
    split; [eapply list_elem_of_lookup_2, Hy | reflexivity].
  - destruct xs as [|x [|x' xs]].
    + destruct ys as [|y [|y' ys]]; try discriminate.
      intros [= <-] Hz. apply elem_of_nil in Hz. destruct Hz.
    + intros Heq Hz.
      assert (Hzs : zs = f x <$> ys) by (injection Heq as <-; reflexivity).
      subst zs. apply list_elem_of_fmap in Hz as (y & -> & Hy).
      exists x, y. split; [left|]. auto.
    + destruct ys as [|y [|y' ys]]; try discriminate.
      intros Heq Hz.
      assert (Hzs : zs = (fun x0 => f x0 y) <$> (x :: x' :: xs))
        by (injection Heq as <-; reflexivity).
      subst zs.
      apply list_elem_of_fmap in Hz as (x0 & -> & Hx0).
      exists x0, y. split; [exact Hx0|]. split; [left | reflexivity].
Qed.

(** In single precision a constant input is not a fixed point of the
    filter, and the smoothed value can leave the range of the data.  With a
    smoothing factor of 0.3, a filter that holds -120.00000762939453 in a
    bin and is fed that same value again returns -120.00001525878906, one
    unit in the last place lower: the two products round to
    -36.000003814697266 and -84.00000762939453, and their sum lies half-way
    between two singles. *)
Theorem ema_constant_input_drifts :
  let alpha := 0x1.3333333333333p-2%float in
  let x := (-0x1.e00002p+6)%float in
  Single.mul (Single.of_double alpha) x = (-0x1.200002p+5)%float
  /\ Single.mul (Single.of_double (PrimFloat.sub 1%float alpha)) x
     = (-0x1.500002p+6)%float
  /\ PrimFloat.add (-0x1.200002p+5)%float (-0x1.500002p+6)%float
     = (-0x1.e00003p+6)%float
  /\ Single.update alpha [x] [x] = [(-0x1.e00004p+6)%float]
  /\ PrimFloat.ltb (-0x1.e00004p+6)%float x = true.
Proof. vm_compute. repeat split; reflexivity. Qed.

End SmoothingRangeFacts.

(** ** Windows, and arrays that are not empty *)

Module PipelineRangeFacts.
Import DSP ExactFacts SpectralFacts SmoothingFacts PipelineFacts FeatureFacts
  SmoothingRangeFacts.

(** *** Windows *)

Lemma hann_entry (M j : nat) :
  0 <= 0.5 * cos (INR 0 * (- PI + 2 * PI * INR j / INR M))
       + (0.5 * cos (INR 1 * (- PI + 2 * PI * INR j / INR M)) + 0) <= 1.
Proof.
  simpl INR. rewrite Rmult_0_l, cos_0, Rmult_1_l.
  pose proof (COS_bound (- PI + 2 * PI * INR j / INR M)). lra.
Qed.

Lemma hamming_entry (M j : nat) :
  0 <= 0.54 * cos (INR 0 * (- PI + 2 * PI * INR j / INR M))
       + (0.46 * cos (INR 1 * (- PI + 2 * PI * INR j / INR M)) + 0) <= 1.
Proof.
  simpl INR. rewrite Rmult_0_l, cos_0, Rmult_1_l.
  pose proof (COS_bound (- PI + 2 * PI * INR j / INR M)). lra.
Qed.

Lemma general_cosine_range (M : nat) (a : list R) :
  (forall j, 0 <= Rsum (map (fun ka : nat * R =>
                               ka.2 * cos (INR ka.1
                                           * (- PI + 2 * PI * INR j / INR M)))
                            (zip (seq 0 (length a)) a)) <= 1) ->
  Forall (fun w => 0 <= w <= 1) (general_cosine M a).
Proof.
  intros Hj. unfold general_cosine. destruct (M <=? 1)%nat.
  - apply Forall_forall. intros w Hw. apply list_elem_of_In in Hw.
    apply repeat_spec in Hw as ->. lra.
  - apply Forall_forall. intros w Hw.
    apply list_elem_of_In, in_map_iff in Hw as (j & <- & _). apply Hj.
Qed.

(** A window [get_window] returns has [size] coefficients, whatever its
    type; those of a Hann and of a Hamming window lie between 0 and 1, and a
    Hann window of two or more coefficients starts at 0.  (The first
    coefficient of a Blackman window is [0.42 - 0.5 + 0.08], which is 0 in
    exact arithmetic and slightly negative on doubles, so that window is
    left out of the range statement.) *)
Theorem window_coefficients_range (window_type0 : string) (n : nat)
    (w : list R) :
  get_window window_type0 n = Ok w ->
  length w = n
  /\ (window_type0 = "hann" \/ window_type0 = "hamming" ->
      Forall (fun c => 0 <= c <= 1) w)
  /\ (window_type0 = "hann" -> (2 <= n)%nat -> w !! 0%nat = Some 0).
Proof.
  intros Hw. split; [exact (get_window_length _ _ _ Hw)|].
  unfold get_window in Hw.
  destruct (String.eqb_spec window_type0 "hann") as [->|Hn1].
  { injection Hw as <-. split.
    - intros _. apply general_cosine_range. intros j. apply hann_entry.
    - intros _ Hn. unfold hann, general_cosine.
      destruct (Nat.leb_spec n 1) as [Hle|_]; [lia|].
      destruct n as [|n]; [lia|]. simpl.
      f_equal. rewrite Rmult_0_l, cos_0.
      replace (1 * (- PI + 2 * PI * 0 / _)) with (- PI)
        by (unfold Rdiv; ring).
      rewrite cos_neg, cos_PI. lra. }
  destruct (String.eqb_spec window_type0 "hamming") as [->|Hn2].
  { injection Hw as <-. split; [|discriminate].
    intros _. apply general_cosine_range. intros j. apply hamming_entry. }
  split; [intros [?|?]; contradiction | intros ?; contradiction].
Qed.

Lemma window_coefficients_range_witness :
  length (hann 4) = 4%nat
  /\ Forall (fun c => 0 <= c <= 1) (hann 4)
  /\ hann 4 !! 0%nat = Some 0.
Proof.
  destruct (window_coefficients_range "hann" 4 (hann 4) eq_refl)
    as (Hlen & Hrange & Hzero).
  split; [exact Hlen|].
  split; [apply Hrange; left; reflexivity|].
  apply Hzero; [reflexivity | lia].
Defined.

(** *** Arrays that are not empty *)

Lemma update_nonempty (f f' : EMAFilter) (x y : list R) :
  x <> [] -> (forall s, _state f = Some s -> s <> []) ->
  update f x = (Ok y, f') -> y <> [].
Proof.
  intros Hx Hs. unfold update. destruct (_state f) as [s|] eqn:Es.
  - destruct (broadcast _ _ _) as [s'|e] eqn:Eb; [|discriminate].
    intros [= <- _]. apply broadcast_length in Eb.
    rewrite !length_map in Eb. specialize (Hs s eq_refl).
    destruct (length x =? 1)%nat; intros ->; simpl in Eb.
    + destruct s; [congruence | discriminate].
    + destruct x; [congruence | discriminate].
  - intros [= <- _]. exact Hx.
Qed.

Lemma psd_db_nonempty (frame : IQFrame) (window : list R) (wpc : R)
    (fb db lin : list R) :
  compute_fft_psd frame window wpc = Ok (fb, db, lin) -> db <> [].
Proof.
  intros Hc. apply compute_fft_psd_inv in Hc as (w & _ & Hne & _ & _ & -> & ->).
  intros E. apply (f_equal length) in E.
  rewrite linear_to_db_length, psd_linear_of_length in E.
  destruct w; [congruence | discriminate].
Qed.

End PipelineRangeFacts.

(** ** Silence, and the buffer of fixes *)

Module SilenceFacts.
Import DSP ExactFacts SpectralFacts SmoothingFacts PipelineFacts FeatureFacts
  SmoothingRangeFacts PipelineRangeFacts.

Lemma Csum_zeros (l : list C) :
  Forall (fun z => z = (0, 0)) l -> Csum l = (0, 0).
Proof.
  induction 1 as [|z l -> _ IH]; [reflexivity|].
  unfold Csum in *. simpl. rewrite IH. unfold Cadd. simpl.
  f_equal; lra.
Qed.

Lemma dft_zeros (w : list C) :
  Forall (fun z => z = (0, 0)) w -> Forall (fun z => z = (0, 0)) (dft w).
Proof.
  intros Hw. unfold dft. apply Forall_forall. intros z Hz.
  apply list_elem_of_In, in_map_iff in Hz as (k & <- & _).
  apply Csum_zeros, Forall_forall. intros u Hu.
  apply list_elem_of_In, in_map_iff in Hu as ([j x] & <- & Hin).
  apply list_elem_of_In, list_elem_of_lookup_1 in Hin as [i Hi].
  apply lookup_zip_with_Some in Hi as (j' & x' & [= <- <-] & _ & Hx).
  rewrite Forall_forall in Hw.
  rewrite (Hw x) by (eapply list_elem_of_lookup_2, Hx).
  unfold Cmul. simpl. f_equal; ring.
Qed.

Lemma fftshift_Forall {A : Type} (P : A -> Prop) (l : list A) :
  Forall P l -> Forall P (fftshift l).
Proof.
  intros Hl. unfold fftshift. apply Forall_app.
  split; [apply Forall_drop | apply Forall_take]; exact Hl.
Qed.

Lemma psd_linear_of_zeros (w : list C) (sr wpc : R) :
  Forall (fun z => z = (0, 0)) w ->
  Forall (fun x => x = 0) (psd_linear_of w sr wpc).
Proof.
  intros Hw. unfold psd_linear_of. apply fftshift_Forall.
  rewrite map_map. apply Forall_forall. intros x Hx.
  apply list_elem_of_In, in_map_iff in Hx as (z & <- & Hz).
  pose proof (dft_zeros w Hw) as Hd. rewrite Forall_forall in Hd.
  rewrite (Hd z) by (apply list_elem_of_In, Hz).
  unfold Cabs. simpl. rewrite Rmult_0_l, Rplus_0_l, sqrt_0.
  unfold Rdiv. ring.
Qed.

Lemma linear_to_db_zeros (lin : list R) :
  Forall (fun x => x = 0) lin ->
  Forall (fun x => x = -120) (linear_to_db lin default_floor_db).
Proof.
  intros Hl. unfold linear_to_db. rewrite map_map.
  apply Forall_forall. intros x Hx.
  apply list_elem_of_In, in_map_iff in Hx as (v & <- & Hv).
  rewrite Forall_forall in Hl. rewrite (Hl v) by (apply list_elem_of_In, Hv).
  assert (Hpos : 0 < Rpower 10 (default_floor_db / 10))
    by (unfold Rpower; apply exp_pos).
  rewrite Rmax_right by lra. rewrite log10_Rpower.
  unfold default_floor_db. lra.
Qed.

Lemma Rsum_zeros (l : list R) : Forall (fun x => x = 0) l -> Rsum l = 0.
Proof.
  induction 1 as [|x l -> _ IH]; [reflexivity|].
  unfold Rsum in *. simpl. rewrite IH. lra.
Qed.

(** A frame of silence gives a flat spectrum.  When every sample of the
    frame is zero and the filter is fresh, the record [process_frame]
    returns has all bins of its raw PSD at one level, the one the clamp of
    [linear_to_db] gives; the smoothed PSD is the raw one, the noise floor is
    that same level for any percentile between 0 and 100, and, for every
    band, the band power is -120 dB and the occupancy 0. *)
Theorem silent_frame_reads_the_floor (p p' : DSPPipeline) (frame : IQFrame)
    (feat : FrameFeatures R) :
  Forall (fun z => z = (0, 0)) (iq frame) ->
  _state (ema_filter p) = None ->
  process_frame p frame = (Ok feat, p') ->
  (exists level,
     Forall (fun v => v = level) (psd_db feat)
     /\ noise_floor_db feat = level)
  /\ psd_smoothed_db feat = psd_db feat
  /\ Forall (fun v => v = -120) (bandpower_db feat)
  /\ Forall (fun v => v = 0) (occupancy_pct feat)
  /\ length (bandpower_db feat) = length (bands p)
  /\ length (occupancy_pct feat) = length (bands p).
Proof.
  intros Hiq Hfresh Hproc.
  destruct (process_frame_returns _ _ _ _ Hproc)
    as (lin & f' & Hc & Hup & _ & Hnf & Hbands & _).
  pose proof (psd_db_nonempty _ _ _ _ _ _ Hc) as Hne.
  apply compute_fft_psd_inv in Hc as (w & Hw & _ & _ & _ & Hlin & Hdb).
  assert (Hzw : Forall (fun z => z = (0, 0)) w).
  { apply Forall_forall. intros z Hz.
    destruct (broadcast_elem _ _ _ _ z Hw Hz) as (x & c & Hx & _ & ->).
    rewrite Forall_forall in Hiq. rewrite (Hiq x Hx).
    unfold Cscale. simpl. f_equal; ring. }
  assert (Hzl : Forall (fun x => x = 0) lin)
    by (rewrite Hlin; apply psd_linear_of_zeros, Hzw).
  assert (Hfl : Forall (fun v => v = -120) (psd_db feat))
    by (rewrite Hdb; apply linear_to_db_zeros, Hzl).
  rewrite (update_fresh _ _ Hfresh) in Hup. injection Hup as Hsm _.
  assert (Hnf' : noise_floor_db feat = -120).
  { rewrite <- Hsm in Hnf. unfold estimate_noise_floor in Hnf.
    assert (Hq : 0 <= noise_floor_percentile p <= 100)
      by (eapply percentile_returns_iff; eauto).
    destruct (percentile_bounds (psd_db feat) (noise_floor_percentile p)
                (-120) (-120) Hne Hq) as (v & Hv & Hb).
    { eapply Forall_impl; [exact Hfl|]. intros v ->. lra. }
    rewrite Hnf in Hv. injection Hv as <-. lra. }
  unfold extract_band_features in Hbands. injection Hbands as Hbp Hocc.
  split; [exists (-120); split; assumption|].
  split; [symmetry; exact Hsm|].
  split; [|split; [|rewrite Hbp, Hocc, !length_map; auto]].
  - rewrite Hbp. apply Forall_forall. intros v Hv.
    apply list_elem_of_In, in_map_iff in Hv as (band & <- & _).
    unfold compute_bandpower. rewrite Rsum_zeros.
    + rewrite Rmult_0_l, Rmax_right.
      * rewrite log10_floor_linear. lra.
      * left. apply Rdiv_lt_0_compat; [lra | apply pow_lt; lra].
    + apply Forall_forall. intros x Hx. apply elem_of_select in Hx.
      rewrite Forall_forall in Hzl. auto.
  - rewrite Hocc. apply Forall_forall. intros v Hv.
    apply list_elem_of_In, in_map_iff in Hv as (band & <- & _).
    apply occupancy_at_most_threshold. apply Forall_forall. intros x Hx.
    apply elem_of_select in Hx. rewrite Forall_forall in Hfl.
    rewrite (Hfl x Hx), Hnf'. unfold default_threshold_db. lra.
Qed.

Lemma silent_frame_reads_the_floor_witness :
  exists feat p',
    process_frame pipeline4 silence4 = (Ok feat, p')
    /\ bandpower_db feat = [-120]
    /\ occupancy_pct feat = [0].
Proof.
  destruct (process_frame_total pipeline4 silence4
              (zip_with Cscale (iq silence4) (hann 4)))
    as (feat & p' & Hproc & _);
    [reflexivity | discriminate | simpl; lra | discriminate | simpl; lra |].
  exists feat, p'. split; [exact Hproc|].
  destruct (silent_frame_reads_the_floor pipeline4 p' silence4 feat)
    as (_ & _ & Hbp & Hocc & Hl1 & Hl2).
  - repeat constructor.
  - reflexivity.
  - exact Hproc.
  - simpl in Hl1, Hl2.
    destruct (bandpower_db feat) as [|b [|]]; try discriminate.
    destruct (occupancy_pct feat) as [|o [|]]; try discriminate.
    apply Forall_inv in Hbp, Hocc. subst. split; reflexivity.
Defined.

End SilenceFacts.

(** ** Noise floor and occupancy *)

Module NoiseFloorFacts.
Import DSP ExactFacts SpectralFacts SmoothingFacts PipelineFacts FeatureFacts
  SmoothingRangeFacts PipelineRangeFacts SilenceFacts.
Import Spec.

(** *** The sorted array *)

Lemma insert_sorted_perm (x : R) (l : list R) : insert_sorted x l ≡ₚ x :: l.
Proof.
  induction l as [|y l IH]; [reflexivity|]. simpl.
  destruct (Exact.leb x y); [reflexivity|].
  rewrite IH. apply Permutation_swap.
Qed.

Lemma sort_perm (l : list R) : sort l ≡ₚ l.
Proof.
  induction l as [|x l IH]; [reflexivity|].
  unfold sort in *. simpl. rewrite insert_sorted_perm, IH. reflexivity.
Qed.

Lemma insert_sorted_HdRel (x y : R) (l : list R) :
  y <= x -> HdRel Rle y l -> HdRel Rle y (insert_sorted x l).
Proof.
  intros Hyx Hl. destruct l as [|z l]; simpl.
  - constructor. exact Hyx.
  - destruct (Exact.leb x z); constructor;
      [exact Hyx | inversion Hl; assumption].
Qed.

Lemma insert_sorted_Sorted (x : R) (l : list R) :
  Sorted Rle l -> Sorted Rle (insert_sorted x l).
Proof.
  induction 1 as [|y l Hl IH Hhd]; simpl.
  - repeat constructor.
  - destruct (Exact.leb x y) eqn:E.
    + apply exact_leb_true_iff in E.
      constructor; [constructor; assumption | constructor; exact E].
    + constructor; [exact IH|].
      apply insert_sorted_HdRel; [|exact Hhd].
      unfold Exact.leb in E. destruct (Rle_dec x y); [discriminate | lra].
Qed.

Lemma sort_Sorted (l : list R) : Sorted Rle (sort l).
Proof.
  induction l as [|x l IH]; [constructor|].
  unfold sort in *. simpl. apply insert_sorted_Sorted, IH.
Qed.

(** [percentile] computes the percentile of the specification. *)
Lemma percentile_is_percentile (a : list R) (q v : R) :
  a <> [] -> percentile a q = Ok v -> Spec.is_percentile a q v.
Proof.
  intros Ha Hp.
  assert (Hq : 0 <= q <= 100) by (eapply percentile_returns_iff; eauto).
  split; [exact Hq|]. exists (sort a).
  split; [apply sort_perm|]. split; [apply sort_Sorted|].
  unfold percentile in Hp. rewrite !exact_leb_true in Hp by lra.
  simpl in Hp. injection Hp as <-. rewrite sort_length. cbv zeta.
  assert (Hn : (1 <= length a)%nat) by (destruct a; [congruence | simpl; lia]).
  destruct (percentile_ranks _ q Hn Hq) as (Hlo & Hhi & _).
  set (h := q / 100 * (INR (length a) - 1)) in *.
  destruct (lookup_lt_is_Some_2 (sort a) (Z.to_nat (Zfloor h)))
    as [below Hb]; [rewrite sort_length; exact Hlo|].
  destruct (lookup_lt_is_Some_2 (sort a) (Z.to_nat (Zceil h)))
    as [above Ha']; [rewrite sort_length; exact Hhi|].
  exists below, above. split; [exact Hb|]. split; [exact Ha'|].
  rewrite (nth_lookup_Some _ _ 0 _ Hb), (nth_lookup_Some _ _ 0 _ Ha').
  reflexivity.
Qed.

(** *** Occupancy *)

Lemma select_band_mask (freq_bins psd : list R) (band : Band.t) (center : R) :
  select (band_mask freq_bins (Band.start_hz band - center)
                              (Band.end_hz band - center)) psd
  = (filter (fun b : R * R => Spec.in_band band center b.1)
            (zip freq_bins psd)).*2.
Proof.
  unfold select, band_mask.
  revert psd. induction freq_bins as [|f fs IH]; intros [|x psd];
    try reflexivity.
  change (zip (map ?g (f :: fs)) (x :: psd))
    with ((g f, x) :: zip (map g fs) psd).
  change (zip (f :: fs) (x :: psd)) with ((f, x) :: zip fs psd).
  rewrite !filter_cons.
  assert (Hiff : (Exact.leb (Band.start_hz band - center) f
                  && Exact.leb f (Band.end_hz band - center)) = true
                 <-> Spec.in_band band center f).
  { rewrite andb_true_iff, !exact_leb_true_iff. reflexivity. }
  cbn [fst].
  destruct (decide (_ = true)) as [Ht|Hf];
    destruct (decide (Spec.in_band band center f)) as [Hin|Hout].
  - rewrite fmap_cons. cbn [map snd]. rewrite IH. reflexivity.
  - exfalso. apply Hout, Hiff, Ht.
  - exfalso. apply Hf, Hiff, Hin.
  - apply IH.
Qed.

Lemma filter_snd_length (thr : R) (l : list (R * R)) :
  length (filter (fun x => Exact.ltb thr x = true) l.*2)
  = length (filter (fun b : R * R => thr < b.2) l).
Proof.
  induction l as [|[f x] l IH]; [reflexivity|].
  rewrite fmap_cons, !filter_cons. cbn [snd].
  destruct (decide (Exact.ltb thr x = true)) as [Ht|Hf];
    destruct (decide (thr < x)) as [Hin|Hout].
  - simpl. rewrite IH. reflexivity.
  - exfalso. apply Hout, exact_ltb_true_iff, Ht.
  - exfalso. apply Hf, exact_ltb_true_iff, Hin.
  - exact IH.
Qed.

(** [compute_occupancy] computes the occupancy of the specification. *)
Lemma compute_occupancy_is_occupancy (freq_bins psd : list R) (band : Band.t)
    (center nf thr : R) :
  compute_occupancy freq_bins psd band center nf thr
  = Spec.occupancy freq_bins psd band center nf thr.
Proof.
  unfold compute_occupancy, Spec.occupancy.
  rewrite select_band_mask.
  set (selected := filter _ (zip freq_bins psd)).
  rewrite filter_snd_length, length_fmap.
  destruct selected as [|b rest]; [reflexivity|].
  replace (length (b :: rest) =? 0)%nat with false by reflexivity.
  assert (0 < INR (length (b :: rest))) by (apply lt_0_INR; simpl; lia).
  field. lra.
Qed.

(** *** The record *)

Lemma occupancy_none_exceeding (freq_bins psd : list R) (band : Band.t)
    (center nf thr : R) :
  Forall (fun b : R * R => Spec.in_band band center b.1 -> b.2 <= nf + thr)
         (zip freq_bins psd) ->
  Spec.occupancy freq_bins psd band center nf thr = 0.
Proof.
  intros Hall. unfold Spec.occupancy.
  set (selected := filter _ (zip freq_bins psd)).
  assert (Hnone : filter (fun b : R * R => nf + thr < b.2) selected = []).
  { apply filter_none. apply Forall_forall. intros b Hb Hlt.
    apply list_elem_of_filter in Hb as [Hin Hb].
    rewrite Forall_forall in Hall. specialize (Hall b Hb Hin). lra. }
  rewrite Hnone. destruct selected; [reflexivity|].
  simpl length at 1. unfold Rdiv. change (INR 0) with 0. ring.
Qed.

Lemma occupancy_all_exceeding (freq_bins psd : list R) (band : Band.t)
    (center nf thr : R) :
  (exists b, b ∈ zip freq_bins psd /\ Spec.in_band band center b.1) ->
  Forall (fun b : R * R => Spec.in_band band center b.1 -> nf + thr < b.2)
         (zip freq_bins psd) ->
  Spec.occupancy freq_bins psd band center nf thr = 100.
Proof.
  intros (b0 & Hb0 & Hin0) Hall. unfold Spec.occupancy.
  set (selected := filter _ (zip freq_bins psd)).
  assert (Hsel : b0 ∈ selected) by (apply list_elem_of_filter; auto).
  assert (Hevery : filter (fun b : R * R => nf + thr < b.2) selected
                   = selected).
  { apply filter_all. apply Forall_forall. intros b Hb.
    apply list_elem_of_filter in Hb as [Hin Hb].
    rewrite Forall_forall in Hall. exact (Hall b Hb Hin). }
  rewrite Hevery. destruct selected as [|b rest].
  { apply elem_of_nil in Hsel. destruct Hsel. }
  assert (0 < INR (length (b :: rest))) by (apply lt_0_INR; simpl; lia).
  field. lra.
Qed.

(** The record of one call, on a pipeline whose filter does not hold an
    empty array. *)
Lemma process_frame_noise_floor_and_occupancy (p p' : DSPPipeline)
    (frame : IQFrame) (feat : FrameFeatures R) :
  _state (ema_filter p) <> Some [] ->
  process_frame p frame = (Ok feat, p') ->
  (exists lin,
     compute_fft_psd frame (window p) (window_power_correction p)
     = Ok (freq_bins_hz feat, psd_db feat, lin))
  /\ _state (ema_filter p') = Some (psd_smoothed_db feat)
  /\ (_state (ema_filter p) = None -> psd_smoothed_db feat = psd_db feat)
  /\ (forall s,
        _state (ema_filter p) = Some s -> length s = length (psd_db feat) ->
        psd_smoothed_db feat
        = zip_with (fun x y => alpha (ema_filter p) * x
                               + (1 - alpha (ema_filter p)) * y)
                   (psd_db feat) s)
  /\ Spec.is_percentile (psd_smoothed_db feat) (noise_floor_percentile p)
       (noise_floor_db feat)
  /\ occupancy_pct feat
     = map (fun band =>
              Spec.occupancy (freq_bins_hz feat) (psd_db feat) band
                (center_freq_hz frame) (noise_floor_db feat) 6)
           (bands p)
  /\ (forall band,
        Forall (fun b : R * R =>
                  Spec.in_band band (center_freq_hz frame) b.1 ->
                  b.2 <= noise_floor_db feat + 6)
               (zip (freq_bins_hz feat) (psd_db feat)) ->
        Spec.occupancy (freq_bins_hz feat) (psd_db feat) band
          (center_freq_hz frame) (noise_floor_db feat) 6 = 0)
  /\ (forall band,
        (exists b, b ∈ zip (freq_bins_hz feat) (psd_db feat)
                   /\ Spec.in_band band (center_freq_hz frame) b.1) ->
        Forall (fun b : R * R =>
                  Spec.in_band band (center_freq_hz frame) b.1 ->
                  noise_floor_db feat + 6 < b.2)
               (zip (freq_bins_hz feat) (psd_db feat)) ->
        Spec.occupancy (freq_bins_hz feat) (psd_db feat) band
          (center_freq_hz frame) (noise_floor_db feat) 6 = 100).
Proof.
  intros Hstate Hproc.
  apply process_frame_returns in Hproc
    as (lin & f' & Hc & Hu & -> & Hnf & Hbands & _).
  pose proof (psd_db_nonempty _ _ _ _ _ _ Hc) as Hne.
  assert (Hsne : psd_smoothed_db feat <> []).
  { eapply update_nonempty; [exact Hne| |exact Hu].
    intros s Hs ->. apply Hstate, Hs. }
  split; [eauto|]. split.
  { apply update_returns in Hu as (Hs & _). exact Hs. }
  split.
  { intros Hfresh. rewrite (update_fresh _ _ Hfresh) in Hu.
    injection Hu as <- _. reflexivity. }
  split.
  { intros s Hs Hl.
    rewrite (update_same_length _ s _ Hs Hl) in Hu. injection Hu as <- _.
    change (map ?g ?l) with (g <$> l).
    rewrite zip_with_fmap_l, zip_with_fmap_r. reflexivity. }
  split; [apply percentile_is_percentile; assumption|].
  split.
  { unfold extract_band_features in Hbands. injection Hbands as _ ->.
    apply map_ext. intros band. apply compute_occupancy_is_occupancy. }
  split.
  - intros band. apply occupancy_none_exceeding.
  - intros band. apply occupancy_all_exceeding.
Qed.

(** The filter never holds an empty array: what it stores is as long as a
    PSD, or as the state it held. *)
Lemma run_state_nonempty (p0 : DSPPipeline) (history : list call) :
  _state (ema_filter p0) <> Some [] ->
  _state (ema_filter (run p0 history)) <> Some [].
Proof.
  intros H0. induction history as [|c history IH] using rev_ind; [exact H0|].
  assert (Hup : forall frame fb db lin sm f',
            compute_fft_psd frame (window (run p0 history))
              (window_power_correction (run p0 history)) = Ok (fb, db, lin) ->
            update (ema_filter (run p0 history)) db = (Ok sm, f') ->
            _state f' <> Some []).
  { intros frame fb db lin sm f' Hc Hu.
    destruct (update_returns _ _ _ _ Hu) as (-> & _). intros [= ->].
    eapply update_nonempty; [eapply psd_db_nonempty, Hc| |exact Hu|reflexivity].
    intros s Hs ->. apply IH, Hs. }
  rewrite run_snoc. destruct c as [fix_|frame|].
  - unfold add_gps_fix. destruct (_ <? _)%nat; exact IH.
  - destruct (process_frame (run p0 history) frame) as [[feat|e] p'] eqn:Ep.
    + simpl. destruct (process_frame_returns _ _ _ _ Ep)
        as (lin & f' & Hc & Hu & -> & _).
      simpl. eapply Hup; eassumption.
    + simpl. apply process_frame_raises in Ep
        as [->|(fb & db & lin & sm & f' & Hc & Hu & _ & ->)]; [exact IH|].
      simpl. eapply Hup; eassumption.
  - simpl. discriminate.
Qed.

(** C10.  Take a pipeline whose filter is fresh, as the constructor leaves
    it, and any history of calls.  In the record [process_frame] then
    returns for a frame, the raw PSD is the dB PSD of this frame, and the
    smoothed PSD is the state the filter holds after the call: the raw PSD
    if the filter was fresh, and, if it held a state [s] as long as the raw
    PSD, the bin-wise [alpha * raw + (1 - alpha) * s].  The noise floor is
    the configured percentile, as the specification words it, of the
    smoothed PSD.  The occupancy of each band is the one the specification
    words, taken over the bins of the raw PSD against that noise floor plus
    6 dB: the percentage of the bins selected for the band that lie strictly
    above it.  Bins at noise floor + 6 or below do not count: a band all of
    whose selected bins are at or below it has occupancy 0, a band with
    selected bins that all lie above it has occupancy 100. *)
Theorem noise_floor_smoothed_occupancy_raw (p0 : DSPPipeline)
    (history : list call) (frame : IQFrame) (feat : FrameFeatures R)
    (p' : DSPPipeline) :
  _state (ema_filter p0) = None ->
  process_frame (run p0 history) frame = (Ok feat, p') ->
  let p := run p0 history in
  (exists lin,
     compute_fft_psd frame (window p) (window_power_correction p)
     = Ok (freq_bins_hz feat, psd_db feat, lin))
  /\ _state (ema_filter p') = Some (psd_smoothed_db feat)
  /\ (_state (ema_filter p) = None -> psd_smoothed_db feat = psd_db feat)
  /\ (forall s,
        _state (ema_filter p) = Some s -> length s = length (psd_db feat) ->
        psd_smoothed_db feat
        = zip_with (fun x y => alpha (ema_filter p) * x
                               + (1 - alpha (ema_filter p)) * y)
                   (psd_db feat) s)
  /\ Spec.is_percentile (psd_smoothed_db feat) (noise_floor_percentile p0)
       (noise_floor_db feat)
  /\ occupancy_pct feat
     = map (fun band =>
              Spec.occupancy (freq_bins_hz feat) (psd_db feat) band
                (center_freq_hz frame) (noise_floor_db feat) 6)
           (bands p0)
  /\ (forall band,
        Forall (fun b : R * R =>
                  Spec.in_band band (center_freq_hz frame) b.1 ->
                  b.2 <= noise_floor_db feat + 6)
               (zip (freq_bins_hz feat) (psd_db feat)) ->
        Spec.occupancy (freq_bins_hz feat) (psd_db feat) band
          (center_freq_hz frame) (noise_floor_db feat) 6 = 0)
  /\ (forall band,
        (exists b, b ∈ zip (freq_bins_hz feat) (psd_db feat)
                   /\ Spec.in_band band (center_freq_hz frame) b.1) ->
        Forall (fun b : R * R =>
                  Spec.in_band band (center_freq_hz frame) b.1 ->
                  noise_floor_db feat + 6 < b.2)
               (zip (freq_bins_hz feat) (psd_db feat)) ->
        Spec.occupancy (freq_bins_hz feat) (psd_db feat) band
          (center_freq_hz frame) (noise_floor_db feat) 6 = 100).
Proof.
  intros Hfresh Hproc p.
  destruct (run_static p0 history) as (_ & _ & _ & Eb & Eq).
  rewrite <- Eb, <- Eq.
  apply process_frame_noise_floor_and_occupancy; [|exact Hproc].
  apply run_state_nonempty. rewrite Hfresh. discriminate.
Qed.

(** *** The record of an impulse after silence *)

Lemma hann4_values : hann 4 = [0; 1 / 2; 1; 1 / 2].
Proof.
  unfold hann, general_cosine. simpl.
  repeat match goal with
         | |- context [cos (0 * ?x)] => rewrite (Rmult_0_l x), cos_0
         end.
  replace (1 * (- PI + 2 * PI * 0 / (1 + 1 + 1 + 1))) with (- PI) by field.
  replace (1 * (- PI + 2 * PI * 1 / (1 + 1 + 1 + 1))) with (- (PI / 2))
    by field.
  replace (1 * (- PI + 2 * PI * (1 + 1) / (1 + 1 + 1 + 1))) with 0 by field.
  replace (1 * (- PI + 2 * PI * (1 + 1 + 1) / (1 + 1 + 1 + 1))) with (PI / 2)
    by field.
  rewrite !cos_neg, cos_PI, cos_PI2, cos_0.
  repeat f_equal; lra.
Qed.

Lemma hann4_power : Rsum (map (fun w => w ^ 2) (hann 4)) = 3 / 2.
Proof. rewrite hann4_values. unfold Rsum. simpl. lra. Qed.

Lemma Cabs_sq (z : C) : Cabs z ^ 2 = z.1 * z.1 + z.2 * z.2.
Proof.
  unfold Cabs. apply pow2_sqrt. nra.
Qed.

Lemma Forall_eq_repeat {A : Type} (v : A) (l : list A) :
  Forall (fun x => x = v) l -> l = repeat v (length l).
Proof. induction 1 as [|x l -> _ IH]; simpl; [|rewrite <- IH]; reflexivity. Qed.

(** The transform of an impulse has the magnitude of the impulse in every
    bin. *)
Lemma dft_impulse (c : R) :
  Forall (fun z => Cabs z ^ 2 = c ^ 2)
         (dft [(0, 0); (0, 0); (c, 0); (0, 0)]).
Proof.
  unfold dft. simpl length. simpl seq. simpl zip. simpl map.
  repeat constructor; rewrite Cabs_sq; unfold Csum, Cadd, Cmul; simpl;
    match goal with
    | |- context [cos ?t] =>
        pose proof (sin2_cos2 t) as Hsc; unfold Rsqr in Hsc;
        generalize dependent (cos t); generalize dependent (sin t);
        intros st ct Hsc; nra
    end.
Qed.

Lemma impulse4_windowed :
  broadcast Cscale (iq impulse4) (hann 4)
  = Ok [(0, 0); (0, 0); (3000, 0); (0, 0)].
Proof.
  rewrite hann4_values. unfold broadcast, impulse4, iq, Cscale. simpl.
  repeat f_equal; lra.
Qed.

Lemma impulse4_psd_linear :
  psd_linear_of [(0, 0); (0, 0); (3000, 0); (0, 0)] 1500000 (3 / 2)
  = [1; 1; 1; 1].
Proof.
  unfold psd_linear_of.
  assert (Hall : Forall (fun x => x = 1)
                   (map (fun p => p / (INR 4 * 1500000 * (3 / 2)))
                      (map (fun z => Cabs z ^ 2)
                         (dft [(0, 0); (0, 0); (3000, 0); (0, 0)])))).
  { rewrite map_map. apply Forall_forall. intros x Hx.
    apply list_elem_of_In, in_map_iff in Hx as (z & <- & Hz).
    pose proof (dft_impulse 3000) as Hd. rewrite Forall_forall in Hd.
    rewrite (Hd z) by (apply list_elem_of_In, Hz). simpl. lra. }
  apply Forall_eq_repeat in Hall.
  rewrite !length_map, dft_length in Hall.
  simpl length. rewrite Hall. reflexivity.
Qed.

Lemma linear_to_db_ones :
  linear_to_db [1; 1; 1; 1] default_floor_db = [0; 0; 0; 0].
Proof.
  assert (E : 10 * log10 (Rmax 1 (Rpower 10 (default_floor_db / 10))) = 0).
  { assert (Hle : Rpower 10 (default_floor_db / 10) <= 1).
    { unfold Rpower. rewrite <- exp_0. left. apply exp_increasing.
      pose proof ln_10_pos. unfold default_floor_db. nra. }
    rewrite Rmax_left by exact Hle.
    unfold log10. rewrite ln_1. lra. }
  unfold linear_to_db. simpl. rewrite E. reflexivity.
Qed.

Lemma impulse4_bins :
  fftshift (fftfreq 4 (1 / 1500000)) = [-750000; -375000; 0; 375000].
Proof.
  unfold fftfreq. rewrite fftshift_map, fftshift_fftfreq_indices.
  change (consecutive (- Z.of_nat (4 / 2)) 4) with [-2; -1; 0; 1]%Z.
  simpl map. replace (INR 4) with 4 by (simpl; lra).
  repeat (apply (f_equal2 cons); [lra|]). reflexivity.
Qed.

Lemma impulse4_spectrum :
  compute_fft_psd impulse4 (hann 4) (3 / 2)
  = Ok ([-750000; -375000; 0; 375000], [0; 0; 0; 0], [1; 1; 1; 1]).
Proof.
  rewrite compute_fft_psd_eq, impulse4_windowed.
  change (sample_rate_sps impulse4) with 1500000.
  rewrite exact_eqb_false by lra. cbv zeta.
  rewrite impulse4_psd_linear, linear_to_db_ones.
  change (length [(0, 0); (0, 0); (3000, 0); (0, 0)]) with 4%nat.
  rewrite impulse4_bins. reflexivity.
Qed.

Lemma silence4_spectrum :
  exists fb,
    compute_fft_psd silence4 (hann 4) (3 / 2)
    = Ok (fb, [-120; -120; -120; -120], [0; 0; 0; 0]).
Proof.
  destruct (compute_fft_psd_total silence4 (hann 4) (3 / 2)
              (zip_with Cscale (iq silence4) (hann 4)))
    as (fb & db & lin & Hc & Hl); [reflexivity | discriminate | simpl; lra |].
  exists fb. rewrite Hc.
  apply compute_fft_psd_inv in Hc as (w & Hw & _ & _ & _ & Hlin & Hdb).
  assert (Hzw : Forall (fun z => z = (0, 0)) w).
  { apply Forall_forall. intros z Hz.
    destruct (broadcast_elem _ _ _ _ z Hw Hz) as (x & c & Hx & _ & ->).
    assert (Hx0 : x = (0, 0)).
    { simpl in Hx. repeat (apply elem_of_cons in Hx as [->|Hx]; [reflexivity|]).
      apply elem_of_nil in Hx. destruct Hx. }
    rewrite Hx0. unfold Cscale. simpl. f_equal; ring. }
  assert (Hzl : Forall (fun x => x = 0) lin)
    by (rewrite Hlin; apply psd_linear_of_zeros, Hzw).
  assert (Hfl : Forall (fun v => v = -120) db)
    by (rewrite Hdb; apply linear_to_db_zeros, Hzl).
  assert (Hll : length lin = 4%nat).
  { rewrite Hdb, linear_to_db_length in Hl. rewrite Hl. reflexivity. }
  apply Forall_eq_repeat in Hzl, Hfl.
  rewrite Hl in Hfl. rewrite Hll in Hzl. rewrite Hzl, Hfl. reflexivity.
Qed.

Lemma pipeline4_two_bands_init :
  DSPPipeline_init 4 "hann" (1 / 2) 10 [vhf; uhf] = Ok pipeline4_two_bands.
Proof. reflexivity. Qed.

(** The percentile of an array whose entries are all the same is that
    entry. *)
Lemma is_percentile_constant (a : list R) (q v x : R) :
  Forall (fun y => y = v) a -> Spec.is_percentile a q x -> x = v.
Proof.
  intros Ha (_ & s & Hperm & _ & below & above & Hb & Habove & ->).
  rewrite Forall_forall in Ha.
  assert (Hs : forall y, y ∈ s -> y = v).
  { intros y Hy. apply Ha. rewrite <- Hperm. exact Hy. }
  rewrite (Hs below) by (eapply list_elem_of_lookup_2, Hb).
  rewrite (Hs above) by (eapply list_elem_of_lookup_2, Habove).
  ring.
Qed.

(** After a frame of silence the filter holds the floor in every bin. *)
Lemma silence4_state :
  exists feat0 f1,
    process_frame pipeline4_two_bands silence4
    = (Ok feat0, set_ema_filter pipeline4_two_bands f1)
    /\ _state f1 = Some [-120; -120; -120; -120]
    /\ alpha f1 = 1 / 2.
Proof.
  destruct (process_frame_total pipeline4_two_bands silence4
              (zip_with Cscale (iq silence4) (hann 4)))
    as (feat0 & p1 & Hproc & _);
    [reflexivity | discriminate | simpl; lra | discriminate | simpl; lra |].
  rewrite Hproc.
  apply process_frame_returns in Hproc
    as (lin & f1 & Hc & Hu & -> & _).
  exists feat0, f1. split; [reflexivity|].
  change (window pipeline4_two_bands) with (hann 4) in Hc.
  change (window_power_correction pipeline4_two_bands)
    with (Rsum (map (fun w => w ^ 2) (hann 4))) in Hc.
  rewrite hann4_power in Hc.
  destruct silence4_spectrum as [fb Hs]. rewrite Hs in Hc.
  injection Hc as _ Hdb _.
  rewrite (update_fresh (ema_filter pipeline4_two_bands) _ eq_refl) in Hu.
  injection Hu as _ <-.
  rewrite <- Hdb. split; reflexivity.
Qed.

(** The theorem on a pipeline with two bands, VHF, which holds every bin,
    and UHF, which holds none, for an impulse that follows a frame of
    silence.  The raw PSD is 0 dB in every bin and the filter held -120 dB:
    the smoothed PSD is -60 dB, and so is the noise floor, which the raw
    PSD exceeds by more than 6 dB.  (From the raw PSD the noise floor would
    be 0 dB and no bin above it; against the smoothed PSD no bin would
    exceed the floor either.) *)
Lemma noise_floor_smoothed_occupancy_raw_witness :
  exists feat p',
    process_frame (run pipeline4_two_bands [Process silence4]) impulse4
    = (Ok feat, p')
    /\ psd_db feat = [0; 0; 0; 0]
    /\ psd_smoothed_db feat = [-60; -60; -60; -60]
    /\ noise_floor_db feat = -60
    /\ occupancy_pct feat = [100; 0].
Proof.
  destruct silence4_state as (feat0 & f1 & Hp1 & Hs1 & Ha1).
  set (p1 := set_ema_filter pipeline4_two_bands f1) in *.
  destruct (process_frame_total p1 impulse4
              [(0, 0); (0, 0); (3000, 0); (0, 0)])
    as (feat & p' & Hproc & _).
  { exact impulse4_windowed. }
  { discriminate. }
  { simpl. lra. }
  { intros s. simpl. rewrite Hs1. intros [= <-]. reflexivity. }
  { simpl. lra. }
  assert (Hrun : run pipeline4_two_bands [Process silence4] = p1)
    by (unfold run; simpl; rewrite Hp1; reflexivity).
  exists feat, p'. split; [rewrite Hrun; exact Hproc|].
  destruct (noise_floor_smoothed_occupancy_raw pipeline4_two_bands
              [Process silence4] impulse4 feat p' eq_refl)
    as ((lin & Hc) & _ & _ & Hema & Hpct & Hocc & Hzero & Hfull).
  { rewrite Hrun. exact Hproc. }
  rewrite Hrun in Hc, Hema.
  change (window p1) with (hann 4) in Hc.
  change (window_power_correction p1)
    with (Rsum (map (fun w => w ^ 2) (hann 4))) in Hc.
  rewrite hann4_power, impulse4_spectrum in Hc.
  injection Hc as Hfb Hdb _.
  assert (Hsm : psd_smoothed_db feat = [-60; -60; -60; -60]).
  { rewrite (Hema [-120; -120; -120; -120]).
    - rewrite <- Hdb. simpl. rewrite Ha1.
      repeat (apply (f_equal2 cons); [lra|]). reflexivity.
    - exact Hs1.
    - rewrite <- Hdb. reflexivity. }
  assert (Hnf : noise_floor_db feat = -60).
  { apply (is_percentile_constant (psd_smoothed_db feat)
             (noise_floor_percentile pipeline4_two_bands)); [|exact Hpct].
    rewrite Hsm. repeat constructor. }
  split; [symmetry; exact Hdb|]. split; [exact Hsm|]. split; [exact Hnf|].
  assert (Hvhf : Spec.occupancy (freq_bins_hz feat) (psd_db feat) vhf
                   (center_freq_hz impulse4) (noise_floor_db feat) 6 = 100).
  { apply Hfull.
    - exists (0, 0). rewrite <- Hfb, <- Hdb. split.
      + simpl. do 2 right. left.
      + unfold Spec.in_band. simpl. lra.
    - rewrite <- Hfb, <- Hdb, Hnf. simpl zip.
      repeat (apply Forall_cons_2; [unfold Spec.in_band; simpl; lra|]).
      apply Forall_nil_2. }
  assert (Huhf : Spec.occupancy (freq_bins_hz feat) (psd_db feat) uhf
                   (center_freq_hz impulse4) (noise_floor_db feat) 6 = 0).
  { apply Hzero. rewrite <- Hfb, <- Hdb, Hnf. simpl zip.
    repeat (apply Forall_cons_2; [unfold Spec.in_band; simpl; lra|]).
    apply Forall_nil_2. }
  rewrite Hocc. change (bands pipeline4_two_bands) with [vhf; uhf].
  cbn [map].
  rewrite Hvhf, Huhf. reflexivity.
Defined.

End NoiseFloorFacts.

Module FixBufferFacts.
Import DSP PipelineFacts QueueFacts.

Lemma add_gps_fix_last_n (p : DSPPipeline) (fix_ : GPSFix.t) :
  gps_fixes (add_gps_fix p fix_) = last_n 100 (gps_fixes p ++ [fix_]).
Proof.
  unfold add_gps_fix, last_n.
  destruct (Nat.ltb_spec 100 (length (gps_fixes p ++ [fix_]))) as [Hlt|Hle];
    simpl; [reflexivity|].
  replace (length (gps_fixes p ++ [fix_]) - 100)%nat with 0%nat by lia.
  rewrite drop_0. reflexivity.
Qed.

Lemma fixes_since_reset_snoc (history : list call) (c : call) :
  fixes_since_reset (history ++ [c])
  = match c with
    | AddFix fix_ => fixes_since_reset history ++ [fix_]
    | Process _ => fixes_since_reset history
    | Reset => []
    end.
Proof. unfold fixes_since_reset. rewrite foldl_app. reflexivity. Qed.

(** The pipeline holds the 100 most recent fixes.  After any history of
    calls on a pipeline that started without fixes, the buffer is the list
    of the fixes added since the last [reset], in order of arrival, cut to
    its last 100 entries; it never holds more than 100 fixes, and
    [process_frame] leaves it as it is. *)
Theorem gps_buffer_holds_the_latest_fixes (p0 : DSPPipeline)
    (history : list call) :
  gps_fixes p0 = [] ->
  gps_fixes (run p0 history) = last_n 100 (fixes_since_reset history)
  /\ (length (gps_fixes (run p0 history)) <= 100)%nat
  /\ ((length (fixes_since_reset history) <= 100)%nat ->
      gps_fixes (run p0 history) = fixes_since_reset history)
  /\ (forall frame,
        gps_fixes (process_frame (run p0 history) frame).2
        = gps_fixes (run p0 history)).
Proof.
  intros H0.
  assert (Hmain : gps_fixes (run p0 history)
                  = last_n 100 (fixes_since_reset history)).
  { induction history as [|c history IH] using rev_ind.
    - simpl. rewrite H0. reflexivity.
    - rewrite run_snoc, fixes_since_reset_snoc. destruct c as [fix_|frame|].
      + rewrite add_gps_fix_last_n, IH. apply last_n_snoc.
      + rewrite process_frame_gps_fixes. exact IH.
      + reflexivity. }
  split; [exact Hmain|]. split; [rewrite Hmain; apply last_n_length_le|].
  split.
  - intros Hle. rewrite Hmain. unfold last_n.
    replace (length (fixes_since_reset history) - 100)%nat with 0%nat by lia.
    apply drop_0.
  - intros frame. apply process_frame_gps_fixes.
Qed.

Lemma gps_buffer_holds_the_latest_fixes_witness :
  gps_fixes (run pipeline4 [AddFix fix_a; Reset; AddFix fix_a; AddFix fix_b])
  = [fix_a; fix_b].
Proof.
  destruct (gps_buffer_holds_the_latest_fixes pipeline4
              [AddFix fix_a; Reset; AddFix fix_a; AddFix fix_b] eq_refl)
    as (Hbuffer & _).
  exact Hbuffer.
Defined.

End FixBufferFacts.

(** ** Histories of calls, and validated configurations *)

Module HistoryFacts.
Import DSP ExactFacts SpectralFacts SmoothingFacts PipelineFacts FeatureFacts
  SmoothingRangeFacts PipelineRangeFacts.

(** *** What every history keeps *)

Lemma add_gps_fix_ema_filter (p : DSPPipeline) (fix_ : GPSFix.t) :
  ema_filter (add_gps_fix p fix_) = ema_filter p
  /\ noise_floor_percentile (add_gps_fix p fix_) = noise_floor_percentile p.
Proof. unfold add_gps_fix. destruct (_ <? _)%nat; split; reflexivity. Qed.

(** The state the filter holds after an update with the PSD of a frame has
    as many entries as the window. *)
Lemma update_after_psd_length (n : nat) (p : DSPPipeline) (frame : IQFrame)
    (fb db lin sm : list R) (f' : EMAFilter) :
  (2 <= n)%nat -> length (window p) = n ->
  (forall s, _state (ema_filter p) = Some s -> length s = n) ->
  compute_fft_psd frame (window p) (window_power_correction p)
  = Ok (fb, db, lin) ->
  update (ema_filter p) db = (Ok sm, f') ->
  forall s, _state f' = Some s -> length s = n.
Proof.
  intros Hn Hw IH Hc Hup.
  apply compute_fft_psd_inv in Hc as (w & Hb & Hne & _ & _ & Hlin & Hdb).
  assert (Hlw : length w = n).
  { destruct (decide (length (iq frame) = n)) as [En|En].
    - rewrite broadcast_same_length in Hb by lia. injection Hb as <-.
      rewrite length_zip_with. lia.
    - destruct (decide (length (iq frame) = 1%nat)) as [E1|E1].
      + apply broadcast_length in Hb. rewrite Hw in Hb.
        apply Nat.eqb_eq in E1. rewrite E1 in Hb. exact Hb.
      + rewrite broadcast_mismatch in Hb by (rewrite ?Hw; lia).
        discriminate Hb. }
  assert (Hld : length db = n)
    by (rewrite Hdb, linear_to_db_length, Hlin, psd_linear_of_length;
        exact Hlw).
  destruct (update_returns _ _ _ _ Hup) as (Hst & _).
  intros s. rewrite Hst. intros [= <-].
  unfold update in Hup.
  destruct (_state (ema_filter p)) as [s0|] eqn:Es.
  - destruct (broadcast Rplus _ _) as [s'|e] eqn:Eb; [|discriminate].
    injection Hup as <- _. apply broadcast_length in Eb.
    rewrite !length_map, Hld in Eb. rewrite (IH s0 eq_refl) in Eb.
    destruct (n =? 1)%nat; exact Eb.
  - injection Hup as <- _. exact Hld.
Qed.

Lemma run_state_length (n : nat) (p0 : DSPPipeline) (history : list call) :
  (2 <= n)%nat -> length (window p0) = n ->
  (forall s, _state (ema_filter p0) = Some s -> length s = n) ->
  forall s, _state (ema_filter (run p0 history)) = Some s -> length s = n.
Proof.
  intros Hn Hw H0. induction history as [|c history IH] using rev_ind;
    [exact H0|].
  assert (Hwin : length (window (run p0 history)) = n).
  { destruct (run_static p0 history) as (-> & _). exact Hw. }
  rewrite run_snoc. destruct c as [fix_|frame|].
  - rewrite (proj1 (add_gps_fix_ema_filter _ _)). exact IH.
  - destruct (process_frame (run p0 history) frame) as [[feat|e] p'] eqn:Ep.
    + simpl. destruct (process_frame_returns _ _ _ _ Ep)
        as (lin & f' & Hc & Hup & -> & _).
      simpl. eapply update_after_psd_length; eassumption.
    + simpl. apply process_frame_raises in Ep
        as [->|(fb & db & lin & sm & f' & Hc & Hup & _ & ->)]; [exact IH|].
      simpl. eapply update_after_psd_length; eassumption.
  - simpl. discriminate.
Qed.

(** A well-formed frame is processed whenever the configured percentile is
    one.  On a pipeline built for an FFT size of at least 2, after any
    history of calls (fixes, resets, frames of any length, failed calls
    included), take a frame of [fft_size] samples with a sample rate other
    than zero.  If the noise-floor percentile lies in [0, 100],
    [process_frame] returns a record whose frequency bins, raw PSD and
    smoothed PSD have [fft_size] entries each, with one band power and one
    occupancy per band.  If it does not, the call raises [ValueError], and
    the filter has stored a state of [fft_size] entries all the same. *)
Theorem well_formed_frame_is_processed (n : nat) (wt : string)
    (sf pct : R) (bs : list Band.t) (p : DSPPipeline) (history : list call)
    (frame : IQFrame) :
  DSPPipeline_init n wt sf pct bs = Ok p ->
  (2 <= n)%nat ->
  length (iq frame) = n ->
  sample_rate_sps frame <> 0 ->
  (0 <= pct <= 100 ->
   exists feat p',
     process_frame (run p history) frame = (Ok feat, p')
     /\ length (freq_bins_hz feat) = n
     /\ length (psd_db feat) = n
     /\ length (psd_smoothed_db feat) = n
     /\ length (bandpower_db feat) = length bs
     /\ length (occupancy_pct feat) = length bs)
  /\ (~ 0 <= pct <= 100 ->
      exists p' s,
        process_frame (run p history) frame = (Raise ValueError, p')
        /\ _state (ema_filter p') = Some s
        /\ length s = n).
Proof.
  intros Hinit Hn Hlen Hsr.
  destruct (DSPPipeline_init_inv _ _ _ _ _ _ Hinit)
    as (_ & Hw & _ & _ & Hs0 & _ & Hpct & Hbs).
  destruct (run_static p history) as (Ewin & _ & _ & Ebands & Epct).
  assert (Hst : forall s, _state (ema_filter (run p history)) = Some s ->
                  length s = n).
  { apply run_state_length; [exact Hn | exact Hw |].
    intros s. rewrite Hs0. discriminate. }
  assert (Hb : broadcast Cscale (iq frame) (window (run p history))
               = Ok (zip_with Cscale (iq frame) (window (run p history)))).
  { apply broadcast_same_length. rewrite Ewin, Hw. exact Hlen. }
  assert (Hlz : length (zip_with Cscale (iq frame) (window (run p history)))
                = n) by (rewrite length_zip_with, Ewin, Hw; lia).
  assert (Hnz : zip_with Cscale (iq frame) (window (run p history)) <> []).
  { intros E. rewrite E in Hlz. simpl in Hlz. lia. }
  assert (Hst' : forall s, _state (ema_filter (run p history)) = Some s ->
                   length s
                   = length (zip_with Cscale (iq frame)
                               (window (run p history)))).
  { intros s Hs. rewrite Hlz. exact (Hst s Hs). }
  split.
  - intros Hq.
    destruct (process_frame_total (run p history) frame _ Hb Hnz Hsr Hst')
      as (feat & p' & Hproc & Hld); [rewrite Epct, Hpct; exact Hq|].
    exists feat, p'. split; [exact Hproc|].
    destruct (process_frame_returns _ _ _ _ Hproc)
      as (lin & f' & Hc & Hup & _ & _ & Hbands & _).
    rewrite Hlz in Hld.
    pose proof (update_after_psd_length n _ _ _ _ _ _ _ Hn
                  (eq_trans (f_equal (@length R) Ewin) Hw) Hst Hc Hup) as Hsm.
    destruct (update_returns _ _ _ _ Hup) as (Hst2 & _).
    apply compute_fft_psd_inv in Hc as (w & Hb' & _ & _ & Hfb & _ & _).
    rewrite Hb in Hb'. injection Hb' as <-.
    split; [rewrite Hfb, fftshift_length, fftfreq_length; exact Hlz|].
    split; [exact Hld|]. split; [apply Hsm, Hst2|].
    unfold extract_band_features in Hbands. injection Hbands as -> ->.
    rewrite !length_map, Ebands, Hbs. split; reflexivity.
  - intros Hq.
    destruct (process_frame_percentile_raises (run p history) frame _
                Hb Hnz Hsr Hst') as (p' & s & Hproc & Hs & Hl);
      [rewrite Epct, Hpct; exact Hq|].
    exists p', s. rewrite Hl, Hlz. auto.
Qed.

Lemma well_formed_frame_is_processed_witness :
  exists feat p',
    process_frame (run pipeline4 [Process frame1; AddFix fix_a; Process frame3])
      frame4 = (Ok feat, p')
    /\ length (psd_smoothed_db feat) = 4%nat.
Proof.
  destruct (well_formed_frame_is_processed 4 "hann" (1 / 2) 10 [vhf]
              pipeline4 [Process frame1; AddFix fix_a; Process frame3] frame4
              pipeline4_init) as [Hin _];
    [lia | reflexivity | simpl; lra |].
  destruct Hin as (feat & p' & Hproc & _ & _ & Hsm & _); [lra|].
  exists feat, p'. split; assumption.
Defined.

End HistoryFacts.

Module ValidationFacts.
Import Configuration ExactFacts PipelineFacts ConfigurationFacts
  PipelineRangeFacts HistoryFacts.



(** A configuration that [load_config] returns always yields a pipeline:
    [create_pipeline_from_config] returns one whose window has [fft_size]
    coefficients, whose smoothing factor lies in (0, 1], whose filter is
    fresh and whose fix buffer is empty.  The noise-floor percentile and the
    bands, which the validation does not look at, are handed over as they
    are. *)
Theorem validated_configuration_builds_a_sound_pipeline (c c' : Config) :
  load_config c = Ok c' ->
  exists p,
    create_pipeline_from_config c' = Ok p
    /\ DSP.fft_size p = Z.to_nat (fft_size (rf c'))
    /\ length (DSP.window p) = Z.to_nat (fft_size (rf c'))
    /\ 0 < DSP.alpha (DSP.ema_filter p) <= 1
    /\ DSP._state (DSP.ema_filter p) = None
    /\ DSP.gps_fixes p = []
    /\ DSP.noise_floor_percentile p = noise_floor_percentile (dsp c')
    /\ DSP.bands p = bands (dsp c').
Proof.
  unfold load_config. destruct (validate c) as [[]|e] eqn:Ev; [|discriminate].
  intros [= <-]. apply validate_returns in Ev as (Hw & Ha & _).
  unfold create_pipeline_from_config.
  destruct (get_window_known (window_type (rf c))
              (Z.to_nat (fft_size (rf c))) Hw) as [w Ew].
  destruct (DSP.DSPPipeline_init (Z.to_nat (fft_size (rf c)))
              (window_type (rf c)) (smoothing_factor (dsp c))
              (noise_floor_percentile (dsp c)) (bands (dsp c)))
    as [p|e] eqn:Ep.
  2: { unfold DSP.DSPPipeline_init in Ep. rewrite Ew in Ep. discriminate Ep. }
  exists p. split; [reflexivity|].
  destruct (DSPPipeline_init_inv _ _ _ _ _ _ Ep)
    as (Hn & Hlen & _ & Hal & Hst & Hfix & Hpct & Hbs).
  split; [exact Hn|]. split; [exact Hlen|]. split; [rewrite Hal; exact Ha|].
  auto.
Qed.

Lemma config4_loads : load_config config4 = Ok config4.
Proof.
  assert (H1 : Exact.ltb 0 (1 / 2) = true) by (apply exact_ltb_true_iff; lra).
  assert (H2 : Exact.leb (1 / 2) 1 = true) by (apply exact_leb_true_iff; lra).
  assert (H3 : Exact.leb 100 0 = false).
  { unfold Exact.leb. destruct (Rle_dec 100 0); [lra | reflexivity]. }
  assert (H4 : Exact.leb 10 0 = false).
  { unfold Exact.leb. destruct (Rle_dec 10 0); [lra | reflexivity]. }
  unfold load_config, validate. simpl. rewrite H1, H2, H3, H4. reflexivity.
Qed.

Lemma validated_configuration_builds_a_sound_pipeline_witness :
  exists p,
    create_pipeline_from_config config4 = Ok p
    /\ length (DSP.window p) = 4%nat
    /\ 0 < DSP.alpha (DSP.ema_filter p) <= 1.
Proof.
  destruct (validated_configuration_builds_a_sound_pipeline config4 config4
              config4_loads) as (p & Hp & _ & Hlen & Ha & _).
  exists p. split; [exact Hp|]. split; [exact Hlen | exact Ha].
Defined.

End ValidationFacts.

(** ** Ring buffer and waterfall buffer *)

Module RingBufferFacts.
Import RingBuffer QueueFacts.

Lemma append_all_snoc (b : t) (entries : list entry) (e : entry) :
  append_all b (entries ++ [e]) = append (append_all b entries) e.1.1 e.1.2 e.2.
Proof. unfold append_all. rewrite foldl_app. reflexivity. Qed.

Lemma append_all_fields (b : t) (entries : list entry) :
  max_size (append_all b entries) = max_size b
  /\ values (append_all b entries)
     = foldl (deque_append (max_size b)) (values b) (map (fun e => e.1.2) entries)
  /\ timestamps (append_all b entries)
     = foldl (deque_append (max_size b)) (timestamps b) (map stamp entries).
Proof.
  induction entries as [|e entries (IHm & IHv & IHt)] using rev_ind.
  - repeat split; reflexivity.
  - rewrite append_all_snoc, !map_app, !foldl_app. simpl.
    rewrite IHm, IHv, IHt. repeat split; reflexivity.
Qed.

(** A ring buffer holds the latest entries.  After any sequence of
    [append] calls on a buffer the constructor returned, the values are the
    last [max_size] values appended, the timestamps are those of the same
    entries (the clock reading where none was given), and both queues have
    the same length, the smaller of [max_size] and the number of calls. *)
Theorem ring_buffer_keeps_latest_entries (n : Z) (b : t)
    (entries : list entry) :
  init n = Ok b ->
  get_arrays (append_all b entries)
  = (last_n (max_size b) (map stamp entries),
     last_n (max_size b) (map (fun e => e.1.2) entries))
  /\ len (append_all b entries) = Nat.min (max_size b) (length entries)
  /\ length (timestamps (append_all b entries))
     = length (values (append_all b entries))
  /\ max_size (append_all b entries) = Z.to_nat n.
Proof.
  unfold init. destruct (n <? 0)%Z; [discriminate|]. intros [= <-].
  destruct (append_all_fields
              {| max_size := Z.to_nat n; timestamps := []; values := [] |}
              entries) as (Hm & Hv & Ht).
  simpl in Hm, Hv, Ht. rewrite deque_fill in Hv. rewrite deque_fill in Ht.
  unfold get_arrays, len. rewrite Hm, Hv, Ht. simpl.
  rewrite !last_n_length, !length_map. repeat split; reflexivity.
Qed.

Lemma ring_buffer_keeps_latest_entries_witness :
  exists b,
    init 2 = Ok b
    /\ get_arrays (append_all b [(10, Some 1, None); (11, None, Some 5);
                                 (12, Some 3, None)])
       = ([5; 12], [None; Some 3]).
Proof.
  eexists. split; [reflexivity|].
  apply (ring_buffer_keeps_latest_entries 2 _
           [(10, Some 1, None); (11, None, Some 5); (12, Some 3, None)]
           eq_refl).
Defined.

(** [get_latest] returns the value appended last, when the buffer can hold
    at least one entry; it returns [None] on a buffer nothing was appended
    to, on a cleared buffer, and always when [max_size] is 0, where
    nothing is ever stored.  An appended [None] reads the same as an empty
    buffer. *)
Theorem ring_buffer_get_latest (n : Z) (b : t) (entries : list entry) :
  init n = Ok b ->
  get_latest b = None
  /\ get_latest (clear (append_all b entries)) = None
  /\ len (clear (append_all b entries)) = 0%nat
  /\ ((1 <= n)%Z -> forall e,
        get_latest (append_all b (entries ++ [e])) = e.1.2)
  /\ (n = 0%Z -> get_latest (append_all b entries) = None
                 /\ len (append_all b entries) = 0%nat).
Proof.
  unfold init. destruct (Z.ltb_spec n 0) as [|Hn]; [discriminate|].
  intros [= <-]. split; [reflexivity|]. split; [reflexivity|].
  split; [reflexivity|].
  set (b := {| max_size := Z.to_nat n; timestamps := []; values := [] |}).
  split.
  - intros Hn1 e. unfold get_latest.
    destruct (append_all_fields b (entries ++ [e])) as (_ & Hv & _).
    simpl in Hv. rewrite deque_fill in Hv. rewrite Hv.
    rewrite last_n_last by lia. rewrite map_app. simpl.
    rewrite last_snoc. reflexivity.
  - intros ->. destruct (append_all_fields b entries) as (_ & Hv & _).
    simpl in Hv. rewrite deque_fill in Hv. unfold get_latest, len.
    rewrite Hv. unfold last_n. rewrite Nat.sub_0_r, drop_all.
    split; reflexivity.
Qed.

Lemma ring_buffer_get_latest_witness :
  exists b,
    init 2 = Ok b
    /\ get_latest (append_all b ([(10, Some 1, None)] ++ [(11, Some 7, None)]))
       = Some 7.
Proof.
  eexists. split; [reflexivity|].
  destruct (ring_buffer_get_latest 2 _ [(10, Some 1, None)] eq_refl)
    as (_ & _ & _ & Hlast & _).
  apply (Hlast ltac:(lia) (11, Some 7, None)).
Defined.

End RingBufferFacts.

Module WaterfallFacts.
Import WaterfallBuffer QueueFacts.





End WaterfallFacts.

(** ** Performance monitor *)

Module PerformanceMonitorFacts.
Import PerformanceMonitor ExactFacts QueueFacts.

Lemma run_snoc_call (m : t) (calls : list call) (c : call) :
  run m (calls ++ [c])
  = match c with
    | StartFrame now => start_frame (run m calls) now
    | EndFrame now => end_frame (run m calls) now
    end.
Proof. unfold run. rewrite foldl_app. reflexivity. Qed.

Lemma deque_append_length {A : Type} (n : nat) (d : list A) (x : A) :
  (length d <= n)%nat ->
  length (deque_append n d x) = Nat.min n (length d + 1).
Proof.
  intros Hle. rewrite deque_append_last_n by exact Hle.
  rewrite last_n_length, length_app. reflexivity.
Qed.

Lemma elem_of_deque_append {A : Type} (n : nat) (d : list A) (x y : A) :
  y ∈ deque_append n d x -> y ∈ d \/ y = x.
Proof.
  unfold deque_append. intros Hy.
  assert (Hin : y ∈ d ++ [x]).
  { destruct (_ <? _)%nat; [|exact Hy].
    eapply elem_of_sublist; [exact Hy | apply sublist_drop]. }
  apply elem_of_app in Hin as [Hin|Hin]; [left; exact Hin|].
  apply list_elem_of_singleton in Hin. right. exact Hin.
Qed.

Lemma nondecreasing_snoc (l : list R) (x : R) :
  nondecreasing l -> (forall y, y ∈ l -> y <= x) -> nondecreasing (l ++ [x]).
Proof.
  intros Hl Hx i j a b Hij Hi Hj.
  destruct (decide (j < length l)%nat) as [Hjl|Hjl].
  - rewrite lookup_app_l in Hi by lia. rewrite lookup_app_l in Hj by lia.
    exact (Hl i j a b Hij Hi Hj).
  - apply lookup_lt_Some in Hj as Hj'. rewrite length_app in Hj'.
    simpl in Hj'. assert (j = length l) as -> by lia.
    rewrite list_lookup_middle in Hj by reflexivity. injection Hj as <-.
    destruct (decide (i < length l)%nat) as [Hil|Hil].
    + rewrite lookup_app_l in Hi by lia. apply Hx.
      eapply list_elem_of_lookup_2, Hi.
    + assert (i = length l) as -> by lia.
      rewrite list_lookup_middle in Hi by reflexivity. injection Hi as <-.
      lra.
Qed.

Lemma nondecreasing_drop (k : nat) (l : list R) :
  nondecreasing l -> nondecreasing (drop k l).
Proof.
  intros Hl i j a b Hij Hi Hj. rewrite lookup_drop in Hi, Hj.
  apply (Hl (k + i)%nat (k + j)%nat a b); [lia | assumption | assumption].
Qed.

Lemma nondecreasing_deque_append (n : nat) (d : list R) (x : R) :
  nondecreasing d -> (forall y, y ∈ d -> y <= x) ->
  nondecreasing (deque_append n d x).
Proof.
  intros Hd Hx. unfold deque_append.
  pose proof (nondecreasing_snoc d x Hd Hx) as Hs.
  destruct (_ <? _)%nat; [apply nondecreasing_drop|]; exact Hs.
Qed.

Lemma lookup_last_default (l : list R) :
  l <> [] -> l !! (length l - 1)%nat = Some (List.last l 0).
Proof.
  induction l as [|x l IH] using rev_ind; [congruence|]. intros _.
  rewrite length_app, List.last_last. simpl.
  replace (length l + 1 - 1)%nat with (length l) by lia.
  apply list_lookup_middle. reflexivity.
Qed.

Lemma get_fps_nonneg (m : t) : nondecreasing (frame_times m) -> 0 <= get_fps m.
Proof.
  intros Hs. unfold get_fps.
  destruct (Nat.ltb_spec (length (frame_times m)) 2) as [|Hlen]; [lra|].
  destruct (frame_times m) as [|t0 ts] eqn:E; [simpl in Hlen; lia|].
  rewrite <- E in *.
  assert (Hne : frame_times m <> []) by (rewrite E; discriminate).
  pose proof (lookup_last_default _ Hne) as Hlast.
  assert (Hfirst : frame_times m !! 0%nat = Some (hd 0 (frame_times m)))
    by (rewrite E; reflexivity).
  pose proof (Hs 0%nat (length (frame_times m) - 1)%nat _ _ ltac:(lia)
                Hfirst Hlast) as Hle.
  unfold Exact.eqb. destruct (Req_dec_T _ 0) as [|Hnz]; [lra|].
  assert (Hn : 2 <= INR (length (frame_times m))) by (apply (le_INR 2), Hlen).
  apply Rmult_le_pos; [lra|]. left. apply Rinv_0_lt_compat. lra.
Qed.

Lemma readings_snoc (calls : list call) (c : call) :
  readings (calls ++ [c])
  = readings calls
    ++ [match c with StartFrame now => now | EndFrame now => now end].
Proof. unfold readings. rewrite map_app. reflexivity. Qed.

Lemma nondecreasing_snoc_inv (l : list R) (x : R) :
  nondecreasing (l ++ [x]) ->
  nondecreasing l /\ forall y, y ∈ l -> y <= x.
Proof.
  intros Hs. split.
  - intros i j a b Hij Hi Hj. apply (Hs i j a b Hij).
    + rewrite lookup_app_l; [exact Hi | eapply lookup_lt_Some, Hi].
    + rewrite lookup_app_l; [exact Hj | eapply lookup_lt_Some, Hj].
  - intros y Hy. apply list_elem_of_lookup_1 in Hy as [i Hi].
    apply lookup_lt_Some in Hi as Hlt.
    apply (Hs i (length l) y x); [lia | |].
    + rewrite lookup_app_l; [exact Hi | exact Hlt].
    + apply list_lookup_middle. reflexivity.
Qed.

(** What a monitor holds after a history of calls whose clock readings do
    not decrease. *)
Lemma run_clock_invariant (m0 : t) (calls : list call) :
  frame_times m0 = [] -> latencies m0 = [] -> _last_time m0 = None ->
  nondecreasing (readings calls) ->
  (forall x, x ∈ frame_times (run m0 calls) -> x ∈ readings calls)
  /\ (forall x, _last_time (run m0 calls) = Some x -> x ∈ readings calls)
  /\ nondecreasing (frame_times (run m0 calls))
  /\ Forall (fun l => 0 <= l) (latencies (run m0 calls)).
Proof.
  intros Hf Hl Ht.
  induction calls as [|c calls IH] using rev_ind; intros Hs.
  - simpl. rewrite Hf, Hl, Ht. split; [intros x Hx; inversion Hx|].
    split; [discriminate|]. split; [|constructor].
    intros i j a b _ Hi. discriminate Hi.
  - rewrite readings_snoc in Hs.
    apply nondecreasing_snoc_inv in Hs as [Hs Hmax].
    destruct (IH Hs) as (IH1 & IH2 & IH3 & IH4).
    rewrite run_snoc_call, readings_snoc. destruct c as [now|now].
    + simpl. split; [intros x Hx; apply elem_of_app; left; auto|].
      split; [|split; assumption].
      intros x [= <-]. apply elem_of_app. right. left.
    + unfold end_frame.
      destruct (_last_time (run m0 calls)) as [t0|] eqn:Et.
      * simpl. split.
        { intros x Hx. apply elem_of_deque_append in Hx as [Hx| ->];
            apply elem_of_app; [left; auto | right; left]. }
        split; [discriminate|]. split.
        { apply nondecreasing_deque_append; [exact IH3|].
          intros y Hy. apply Hmax, IH1, Hy. }
        apply Forall_forall. intros l Hl'.
        apply elem_of_deque_append in Hl' as [Hl'| ->].
        { rewrite Forall_forall in IH4. auto. }
        assert (t0 <= now) by (apply Hmax, IH2; reflexivity).
        apply Rmult_le_pos; lra.
      * split; [intros x Hx; apply elem_of_app; left; auto|].
        split; [rewrite Et; discriminate|]. split; assumption.
Qed.

Lemma run_counts (m0 : t) (calls : list call) :
  frame_times m0 = [] -> latencies m0 = [] -> total_frames m0 = 0%Z ->
  window_size (run m0 calls) = window_size m0
  /\ dropped_frames (run m0 calls) = dropped_frames m0
  /\ (0 <= total_frames (run m0 calls) <= Z.of_nat (length calls))%Z
  /\ length (frame_times (run m0 calls))
     = Nat.min (window_size m0) (Z.to_nat (total_frames (run m0 calls)))
  /\ length (latencies (run m0 calls))
     = Nat.min (window_size m0) (Z.to_nat (total_frames (run m0 calls))).
Proof.
  intros Hf Hl Ht.
  induction calls as [|c calls (IHw & IHd & IHt & IHf & IHl)] using rev_ind.
  - simpl. rewrite Hf, Hl, Ht. simpl. repeat split; lia.
  - rewrite run_snoc_call, length_app. simpl length.
    destruct c as [now|now].
    + simpl. repeat split; try assumption; lia.
    + unfold end_frame. destruct (_last_time (run m0 calls)) as [t0|].
      * simpl. rewrite !deque_append_length by (rewrite IHw; lia).
        rewrite IHw, IHf, IHl. repeat split; try assumption; lia.
      * repeat split; try assumption; lia.
Qed.

(** The monitor counts completed frames and never reports a dropped one.
    After any history of [start_frame] and [end_frame] calls on a monitor the
    constructor returned: [dropped_frames] is still 0; [total_frames] is at
    most the number of calls; the two queues both hold
    [min(window_size, total_frames)] entries; an [end_frame] without a
    [start_frame] before it changes nothing, so that a second [end_frame] in
    a row is not counted.  When the clock readings of the calls do not
    decrease, no latency is negative and [get_fps] is not negative. *)
Theorem performance_monitor_counts_completed_frames (n : Z) (m : t)
    (calls : list call) :
  init n = Ok m ->
  dropped_frames (run m calls) = 0%Z
  /\ (0 <= total_frames (run m calls) <= Z.of_nat (length calls))%Z
  /\ length (frame_times (run m calls))
     = Nat.min (window_size m) (Z.to_nat (total_frames (run m calls)))
  /\ length (latencies (run m calls)) = length (frame_times (run m calls))
  /\ (forall now now',
        end_frame (end_frame (run m calls) now) now'
        = end_frame (run m calls) now)
  /\ (nondecreasing (readings calls) ->
      Forall (fun l => 0 <= l) (latencies (run m calls))
      /\ 0 <= get_fps (run m calls)).
Proof.
  unfold init. destruct (n <? 0)%Z; [discriminate|]. intros [= <-].
  set (m := {| window_size := Z.to_nat n; frame_times := [];
               latencies := []; dropped_frames := 0; total_frames := 0;
               _last_time := None |}).
  destruct (run_counts m calls eq_refl eq_refl eq_refl)
    as (Hw & Hd & Ht & Hf & Hl).
  split; [exact Hd|]. split; [exact Ht|]. split; [exact Hf|].
  split; [rewrite Hl, Hf; reflexivity|]. split.
  - intros now now'. unfold end_frame at 2 3.
    destruct (_last_time (run m calls)) as [t0|] eqn:Et.
    + reflexivity.
    + unfold end_frame. rewrite Et. reflexivity.
  - intros Hs.
    destruct (run_clock_invariant m calls eq_refl eq_refl eq_refl Hs)
      as (_ & _ & Hsorted & Hlat).
    split; [exact Hlat | apply get_fps_nonneg, Hsorted].
Qed.

Lemma performance_monitor_counts_completed_frames_witness :
  exists m,
    init 100 = Ok m
    /\ total_frames (run m [StartFrame 1; EndFrame 2; EndFrame 3]) = 1%Z
    /\ dropped_frames (run m [StartFrame 1; EndFrame 2; EndFrame 3]) = 0%Z.
Proof.
  eexists. split; [reflexivity|]. split; [reflexivity|].
  exact (proj1 (performance_monitor_counts_completed_frames 100 _
                  [StartFrame 1; EndFrame 2; EndFrame 3] eq_refl)).
Defined.

End PerformanceMonitorFacts.

(** ** Welch averaging and GeoJSON export *)

Module WelchFacts.
Import DSP Welch ExactFacts SpectralFacts.

Lemma segment_psd_ok (window : list R) (rate : R) (row : list C) :
  length row = length window -> window <> [] -> rate <> 0 ->
  segment_psd window rate row
  = Ok (psd_linear_of (zip_with Cscale row window) rate 1).
Proof.
  intros Hlen Hw Hr. unfold segment_psd.
  rewrite (broadcast_same_length _ _ _ Hlen).
  unfold mbind, result_bind, compute_fft.
  destruct (zip_with Cscale row window) as [|z w] eqn:Ez.
  { apply (f_equal length) in Ez. rewrite length_zip_with in Ez.
    destruct window; [congruence|]. destruct row; simpl in *; lia. }
  unfold compute_psd. rewrite (exact_eqb_false _ _ Hr).
  unfold psd_linear_of. rewrite dft_length. reflexivity.
Qed.

Lemma Rsum_snoc (l : list R) (x : R) : Rsum (l ++ [x]) = Rsum l + x.
Proof.
  unfold Rsum. induction l as [|y l IH]; simpl; [lra|]. rewrite IH. lra.
Qed.

(** The accumulator after the rows [rows]: nothing before the first row,
    and afterwards, bin by bin, the sum of the rows' PSDs. *)
Lemma accumulate_rows (window : list R) (rate : R) (rows : list (list C)) :
  window <> [] -> rate <> 0 ->
  Forall (fun row => length row = length window) rows ->
  match rows with
  | [] => foldl (accumulate window rate) (Ok None) rows = Ok None
  | _ =>
      exists acc,
        foldl (accumulate window rate) (Ok None) rows = Ok (Some acc)
        /\ length acc = length window
        /\ forall k, (k < length window)%nat ->
             acc !! k
             = Some (Rsum (map (fun row =>
                                  nth k (psd_linear_of
                                           (zip_with Cscale row window) rate 1)
                                      0)
                               rows))
  end.
Proof.
  intros Hw Hr Hrows.
  induction rows as [|row rows IH] using rev_ind; [reflexivity|].
  apply Forall_app in Hrows as [Hrows Hrow].
  apply Forall_cons in Hrow as [Hrow _]. specialize (IH Hrows).
  assert (Hlen : length (psd_linear_of (zip_with Cscale row window) rate 1)
                 = length window).
  { rewrite psd_linear_of_length, length_zip_with. lia. }
  assert (Hnth : forall k, (k < length window)%nat ->
            psd_linear_of (zip_with Cscale row window) rate 1 !! k
            = Some (nth k (psd_linear_of (zip_with Cscale row window) rate 1) 0)).
  { intros k Hk. rewrite <- Hlen in Hk.
    apply lookup_lt_is_Some_2 in Hk as [v Hv].
    rewrite Hv. f_equal. symmetry. apply nth_lookup_Some. exact Hv. }
  destruct (rows ++ [row]) as [|r0 rs] eqn:E;
    [destruct rows; discriminate E|].
  rewrite <- E. clear E r0 rs.
  rewrite foldl_app. simpl. unfold accumulate at 1.
  destruct rows as [|r0 rs].
  - simpl. unfold mbind, result_bind.
    rewrite (segment_psd_ok _ _ _ Hrow Hw Hr).
    eexists. split; [reflexivity|]. split; [exact Hlen|].
    intros k Hk. rewrite (Hnth k Hk). simpl. f_equal. lra.
  - destruct IH as (acc & -> & Hacc & Hsum).
    unfold mbind, result_bind. rewrite (segment_psd_ok _ _ _ Hrow Hw Hr).
    unfold iadd. rewrite Hlen, Hacc, Nat.eqb_refl.
    eexists. split; [reflexivity|].
    split; [rewrite length_zip_with; lia|].
    intros k Hk. rewrite lookup_zip_with, (Hsum k Hk), (Hnth k Hk). simpl.
    f_equal. rewrite map_app. simpl map. rewrite Rsum_snoc. lra.
Qed.

(** [welch_psd] divides the accumulated PSD by [num_segments], not by the
    number of rows it read.  For rows of the window's length, a sample rate
    other than zero and at least one segment and one row, it returns an
    array of the window's length whose bin [k] is the sum of bin [k] of the
    PSDs of the first [min(num_segments, rows)] rows, divided by
    [num_segments]: their mean when the array has at least [num_segments]
    rows, and less than that by the factor [rows / num_segments] when it
    has fewer. *)
Theorem welch_psd_divides_by_num_segments (signals : list (list C))
    (window : list R) (rate : R) (num_segments : Z) :
  window <> [] -> rate <> 0 -> (1 <= num_segments)%Z -> signals <> [] ->
  Forall (fun row => length row = length window) signals ->
  exists psd,
    welch_psd signals window rate num_segments = inl psd
    /\ length psd = length window
    /\ forall k, (k < length window)%nat ->
         psd !! k
         = Some (Rsum (map (fun row =>
                              nth k (psd_linear_of
                                       (zip_with Cscale row window) rate 1)
                                  0)
                           (take (Z.to_nat (Z.min num_segments
                                              (Z.of_nat (length signals))))
                                 signals))
                 / IZR num_segments).
Proof.
  intros Hw Hr Hn Hs Hrows. unfold welch_psd.
  set (count := Z.to_nat _).
  assert (Hcount : (1 <= count)%nat).
  { unfold count. destruct signals; [congruence|]. simpl length. lia. }
  pose proof (accumulate_rows window rate (take count signals) Hw Hr
                (Forall_take _ _ _ Hrows)) as Hacc.
  destruct (take count signals) as [|r0 rs] eqn:E.
  { apply (f_equal length) in E. rewrite length_take in E.
    destruct signals; [congruence|]. simpl in E. lia. }
  destruct Hacc as (acc & -> & Hlen & Hsum).
  eexists. split; [reflexivity|]. split; [rewrite length_map; exact Hlen|].
  intros k Hk. change (map ?f acc) with (f <$> acc).
  rewrite list_lookup_fmap, (Hsum k Hk). reflexivity.
Qed.

Lemma welch_psd_divides_by_num_segments_witness :
  exists psd,
    welch_psd [iq frame4] [1; 1; 1; 1] 1000000 4 = inl psd
    /\ length psd = 4%nat.
Proof.
  destruct (welch_psd_divides_by_num_segments [iq frame4] [1; 1; 1; 1]
              1000000 4) as (psd & Hpsd & Hlen & _).
  - discriminate.
  - lra.
  - lia.
  - discriminate.
  - repeat constructor.
  - exists psd. split; assumption.
Defined.

(** Without a row to read, [welch_psd] raises [TypeError]: for an array
    without rows, or for a number of segments of zero or less, the loop body
    never runs and the function divides [None] by the number of segments. *)
Theorem welch_psd_without_rows (signals : list (list C)) (window : list R)
    (rate : R) (num_segments : Z) :
  signals = [] \/ (num_segments <= 0)%Z ->
  welch_psd signals window rate num_segments = inr TypeError.
Proof.
  intros Hnone. unfold welch_psd.
  replace (Z.to_nat (Z.min num_segments (Z.of_nat (length signals))))
    with 0%nat; [reflexivity|].
  destruct Hnone as [->|Hle]; simpl; lia.
Qed.

Lemma welch_psd_without_rows_witness :
  welch_psd [iq frame4] [1; 1; 1; 1] 1000000 0 = inr TypeError.
Proof. apply welch_psd_without_rows. right. lia. Defined.

End WelchFacts.

Module GeometryFacts.
Import Tiling Aggregate Geometry AggregateFacts AggregateSummaryFacts
  FrameLoopFacts.

Section Generic.
Context {F : Type} `{Arith F}.

(** The GeoJSON export of an aggregation follows the grid: the collection
    [tiles_to_geojson] builds from the summaries [aggregate] returned has
    one feature per summary, in the same order and with pairwise distinct
    tile ids, and the polygon of each feature is the closed ring of five
    [[lon, lat]] pairs around the bounds of the grid's tile of that id. *)
Theorem geojson_features_follow_the_grid (a a' : TileAggregator F)
    (ms : list (TileMetrics F)) :
  aggregate a = (Ok ms, a') ->
  (fun f => p_tile_id (properties f)) <$> tiles_to_geojson ms
  = tm_tile_id <$> ms
  /\ NoDup ((fun f => p_tile_id (properties f)) <$> tiles_to_geojson ms)
  /\ forall f, f ∈ tiles_to_geojson ms ->
       exists tile,
         tile_lookup (tile_grid a) !! p_tile_id (properties f) = Some tile
         /\ coordinates f
            = [ [ [lon_min tile; lat_min tile];
                  [lon_max tile; lat_min tile];
                  [lon_max tile; lat_max tile];
                  [lon_min tile; lat_max tile];
                  [lon_min tile; lat_min tile] ] ].
Proof.
  intros Ha.
  assert (Hids : (fun f => p_tile_id (properties f)) <$> tiles_to_geojson ms
                 = tm_tile_id <$> ms).
  { unfold tiles_to_geojson. change (map ?g ms) with (g <$> ms).
    rewrite <- list_fmap_compose. reflexivity. }
  split; [exact Hids|]. split.
  - rewrite Hids. destruct (aggregate_inv _ _ _ Ha) as (oms & Hall & ->).
    eapply sublist_NoDup; [|eapply summary_ids_sublist, Hall].
    apply NoDup_remove_dups.
  - intros f Hf. unfold tiles_to_geojson in Hf.
    apply list_elem_of_In, in_map_iff in Hf as (m & <- & Hm).
    apply list_elem_of_In in Hm.
    destruct (summary_of_key _ _ _ _ Ha Hm) as [_ Hs].
    destruct (summarise_inv _ _ _ _ Hs)
      as (tile & Hlk & _ & E1 & E2 & E3 & E4 & _).
    exists tile. split; [exact Hlk|]. simpl. unfold tile_to_polygon.
    rewrite E1, E2, E3, E4. reflexivity.
Qed.

End Generic.

Lemma geojson_features_follow_the_grid_witness :
  match scenario_B with
  | Ok g =>
      exists ms a',
        aggregate (add_frame (TileAggregator_init g 5 3) three_band_record)
        = (Ok ms, a')
        /\ (fun f => p_tile_id (properties f)) <$> tiles_to_geojson ms
           = tm_tile_id <$> ms
  | Raise _ => False
  end.
Proof.
  pose proof scenario_B_one_record_summary as Hm.
  destruct scenario_B as [g|e]; [|discriminate Hm].
  unfold on_grid in Hm.
  destruct (aggregate (add_frame (TileAggregator_init g 5 3) three_band_record))
    as [[ms|e] a'] eqn:Ea; [|discriminate Hm].
  exists ms, a'. split; [reflexivity|].
  exact (proj1 (geojson_features_follow_the_grid _ _ _ Ea)).
Defined.

End GeometryFacts.
